(** * Fluorine-Chess: search scores, node prologue/epilogue, quiescence,
      continuation histories, piece placement and UCI move rendering.

    A shallow embedding of the parts of [search.cpp] (modern searcher),
    of the classic searcher, of [position.h] and of [uci.cpp] that the
    specification's testable statements talk about.

    Scores ([Value]), depths and plies are C++ [int]s; they are embedded
    as [Z].  The arithmetic on scores stays far inside the 32-bit range for
    the scores the engine manipulates, so no wrap-around is written out
    there; where the source narrows or converts a 64-bit value (in
    [check_time]) the conversion is written out, and a call that would
    overflow a signed integer has no result.  C++ integer division
    truncates toward zero and is [Z.quot]. *)

From Stdlib Require Import ZArith List Bool Lia String Ascii DecimalString.
Import ListNotations.
Local Open Scope Z_scope.

(** ** Score constants

    [types.h] is not among the sources.  The score constants it declares
    are therefore parameters of the development: every general theorem
    below holds for any value of them (a few need an ordering between two
    of them, stated where used). *)

Class ValueConsts : Type := {
  MAX_PLY : Z;
  VALUE_DRAW : Z;
  VALUE_NONE : Z;
  VALUE_INFINITE : Z;
  VALUE_MATE : Z;
  VALUE_MATE_IN_MAX_PLY : Z;
  VALUE_MATED_IN_MAX_PLY : Z;
  VALUE_TB : Z;
  VALUE_TB_WIN_IN_MAX_PLY : Z;
  VALUE_TB_LOSS_IN_MAX_PLY : Z
}.

(** Modelled from the spec: the concrete score constants of [types.h],
    which is missing.  [MAX_PLY] is the spec's MaxPly = 246; the other
    values follow the layout the sources rely on ([uci.cpp] prints scores
    below [VALUE_TB_WIN_IN_MAX_PLY] as centipawns, scores up to [VALUE_TB]
    as tablebase scores and the rest as mates counted from [VALUE_MATE];
    [search.cpp] asserts every returned score strictly inside
    [(-VALUE_INFINITE, VALUE_INFINITE)] and keeps [VALUE_NONE] apart as the
    no-value sentinel).  Used only to evaluate the definitions on concrete
    inputs. *)
#[export] Instance engine_values : ValueConsts := {|
  MAX_PLY := 246;
  VALUE_DRAW := 0;
  VALUE_NONE := 32002;
  VALUE_INFINITE := 32001;
  VALUE_MATE := 32000;
  VALUE_MATE_IN_MAX_PLY := 32000 - 246;
  VALUE_MATED_IN_MAX_PLY := - (32000 - 246);
  VALUE_TB := 32000 - 246 - 1;
  VALUE_TB_WIN_IN_MAX_PLY := 32000 - 246 - 1 - 246;
  VALUE_TB_LOSS_IN_MAX_PLY := - (32000 - 246 - 1 - 246)
|}.

(** Modelled from the spec: [mate_in] and [mated_in] of the missing
    [types.h]; the spec counts mate scores in plies from the root
    (mate scores are shifted by [ply]). *)
Definition mate_in `{ValueConsts} (ply : Z) : Z := VALUE_MATE - ply.

Definition mated_in `{ValueConsts} (ply : Z) : Z := - VALUE_MATE + ply.

(** ** Transposition-table score conversion ([search.cpp], modern) *)

Section TTValue.
Context `{K : ValueConsts}.

(** [Value value_to_tt(Value v, int ply)]; the source additionally
    asserts [v != VALUE_NONE]. *)
Definition value_to_tt (v ply : Z) : Z :=
  if v >=? VALUE_TB_WIN_IN_MAX_PLY then v + ply
  else if v <=? VALUE_TB_LOSS_IN_MAX_PLY then v - ply
  else v.

(** [Value value_from_tt(Value v, int ply, int r50c)]. *)
Definition value_from_tt (v ply r50c : Z) : Z :=
  if v =? VALUE_NONE then VALUE_NONE
  else if v >=? VALUE_TB_WIN_IN_MAX_PLY then
    if (v >=? VALUE_MATE_IN_MAX_PLY) && (VALUE_MATE - v >? 100 - r50c)
    then VALUE_TB_WIN_IN_MAX_PLY - 1
    else if VALUE_TB - v >? 100 - r50c
    then VALUE_TB_WIN_IN_MAX_PLY - 1
    else v - ply
  else if v <=? VALUE_TB_LOSS_IN_MAX_PLY then
    if (v <=? VALUE_MATED_IN_MAX_PLY) && (VALUE_MATE + v >? 100 - r50c)
    then VALUE_TB_LOSS_IN_MAX_PLY + 1
    else if VALUE_TB + v >? 100 - r50c
    then VALUE_TB_LOSS_IN_MAX_PLY + 1
    else v + ply
  else v.

(** Whether one of the four downgrade branches of [value_from_tt] fires
    on a stored score [tv] (other than [VALUE_NONE]): the "false mate
    under rule 50" window, read off the guards in the order the source
    tests them. *)
Definition false_mate_window (tv r50c : Z) : bool :=
  if tv >=? VALUE_TB_WIN_IN_MAX_PLY then
    ((tv >=? VALUE_MATE_IN_MAX_PLY) && (VALUE_MATE - tv >? 100 - r50c))
    || (VALUE_TB - tv >? 100 - r50c)
  else if tv <=? VALUE_TB_LOSS_IN_MAX_PLY then
    ((tv <=? VALUE_MATED_IN_MAX_PLY) && (VALUE_MATE + tv >? 100 - r50c))
    || (VALUE_TB + tv >? 100 - r50c)
  else false.

End TTValue.

(** ** The classic searcher's score conversion *)

Module Classic.
Section TTValue.
Context `{K : ValueConsts}.

Definition value_to_tt (v ply : Z) : Z :=
  if v >=? VALUE_TB_WIN_IN_MAX_PLY then v + ply
  else if v <=? VALUE_TB_LOSS_IN_MAX_PLY then v - ply
  else v.

(** [template <bool SearchMate> Value value_from_tt(Value, int, int)]. *)
Definition value_from_tt (SearchMate : bool) (v ply r50c : Z) : Z :=
  if v =? VALUE_NONE then VALUE_NONE
  else if negb SearchMate then
    if v >=? VALUE_TB_WIN_IN_MAX_PLY then
      if (v >=? VALUE_MATE_IN_MAX_PLY) && (VALUE_MATE - v >? 99 - r50c)
      then VALUE_MATE_IN_MAX_PLY - 1
      else v - ply
    else if v <=? VALUE_TB_LOSS_IN_MAX_PLY then
      if (v <=? VALUE_MATED_IN_MAX_PLY) && (VALUE_MATE + v >? 99 - r50c)
      then VALUE_MATED_IN_MAX_PLY + 1
      else v + ply
    else v
  else
    if v >=? VALUE_TB_WIN_IN_MAX_PLY then v - ply
    else if v <=? VALUE_TB_LOSS_IN_MAX_PLY then v + ply
    else v.

(** Whether a downgrade branch of the classic [value_from_tt] fires on
    a stored score [tv] (none exists when [SearchMate]). *)
Definition false_mate_window (SearchMate : bool) (tv r50c : Z) : bool :=
  if SearchMate then false
  else if tv >=? VALUE_TB_WIN_IN_MAX_PLY then
    (tv >=? VALUE_MATE_IN_MAX_PLY) && (VALUE_MATE - tv >? 99 - r50c)
  else if tv <=? VALUE_TB_LOSS_IN_MAX_PLY then
    (tv <=? VALUE_MATED_IN_MAX_PLY) && (VALUE_MATE + tv >? 99 - r50c)
  else false.

End TTValue.
End Classic.

(** ** Board primitives

    Modelled from the spec: [types.h] and [bitboard.h] are missing, so the
    enumerations follow the spec's data model (Square in [0,63], Color,
    PieceType, Piece = (Color, PieceType) or empty, Move = (from, to,
    promotion piece, type) with two sentinels, Bitboard = 64-bit set of
    squares). *)

Inductive Color : Type := WHITE | BLACK.

(** Index 0 of the piece-type enumeration doubles as [ALL_PIECES] when it
    indexes [byTypeBB]. *)
Inductive PieceType : Type :=
  NO_PIECE_TYPE | PAWN | KNIGHT | BISHOP | ROOK | QUEEN | KING.

Definition ALL_PIECES : PieceType := NO_PIECE_TYPE.

Inductive Piece : Type :=
  | NO_PIECE
  | make_piece (c : Color) (pt : PieceType).

Inductive MoveType : Type := NORMAL | PROMOTION | EN_PASSANT | CASTLING.

Definition Color_eqb (a b : Color) : bool :=
  match a, b with
  | WHITE, WHITE | BLACK, BLACK => true
  | _, _ => false
  end.

Definition PieceType_to_Z (pt : PieceType) : Z :=
  match pt with
  | NO_PIECE_TYPE => 0 | PAWN => 1 | KNIGHT => 2 | BISHOP => 3
  | ROOK => 4 | QUEEN => 5 | KING => 6
  end.

Definition PieceType_eqb (a b : PieceType) : bool :=
  PieceType_to_Z a =? PieceType_to_Z b.

Definition MoveType_eqb (a b : MoveType) : bool :=
  match a, b with
  | NORMAL, NORMAL | PROMOTION, PROMOTION
  | EN_PASSANT, EN_PASSANT | CASTLING, CASTLING => true
  | _, _ => false
  end.

Definition flip_color (c : Color) : Color :=
  match c with WHITE => BLACK | BLACK => WHITE end.

Definition type_of_piece (pc : Piece) : PieceType :=
  match pc with NO_PIECE => NO_PIECE_TYPE | make_piece _ pt => pt end.

(** The source asserts [pc != NO_PIECE] in [color_of]. *)
Definition color_of (pc : Piece) : Color :=
  match pc with NO_PIECE => WHITE | make_piece c _ => c end.

Definition Piece_eqb (a b : Piece) : bool :=
  match a, b with
  | NO_PIECE, NO_PIECE => true
  | make_piece c1 p1, make_piece c2 p2 => Color_eqb c1 c2 && PieceType_eqb p1 p2
  | _, _ => false
  end.

(** A piece that can stand on the board. *)
Definition is_board_piece (pc : Piece) : bool :=
  match pc with
  | NO_PIECE => false
  | make_piece _ pt => negb (PieceType_eqb pt NO_PIECE_TYPE)
  end.

(** Squares are [0 .. 63], a1 = 0, h8 = 63; files a-h are [0 .. 7]. *)
Definition FILE_C : Z := 2.
Definition FILE_G : Z := 6.
Definition SQ_NONE : Z := 64.

Definition file_of (s : Z) : Z := Z.land s 7.
Definition rank_of (s : Z) : Z := Z.shiftr s 3.
Definition make_square (f r : Z) : Z := Z.shiftl r 3 + f.
Definition is_ok_square (s : Z) : bool := (0 <=? s) && (s <=? 63).

Record Move : Type := mkMove {
  from_sq : Z;
  to_sq : Z;
  promotion_type : PieceType;
  type_of : MoveType
}.

(** [Move::make<T>(from, to, pt = KNIGHT)]. *)
Definition Move_make (T : MoveType) (from to : Z) (pt : PieceType) : Move :=
  mkMove from to pt T.

Definition Move_none : Move := mkMove 0 0 KNIGHT NORMAL.
Definition Move_null : Move := mkMove 1 1 KNIGHT NORMAL.

Definition Move_eqb (a b : Move) : bool :=
  (from_sq a =? from_sq b) && (to_sq a =? to_sq b)
  && PieceType_eqb (promotion_type a) (promotion_type b)
  && MoveType_eqb (type_of a) (type_of b).

(** [explicit operator bool]: a move is true unless it is [Move::none()]. *)
Definition Move_to_bool (m : Move) : bool := negb (Move_eqb m Move_none).

(** [Move::is_ok]: neither of the two sentinels. *)
Definition Move_is_ok (m : Move) : bool :=
  negb (Move_eqb m Move_none) && negb (Move_eqb m Move_null).

(** Bitboards: bit [s] stands for square [s]. *)
Definition square_bb (s : Z) : Z := Z.shiftl 1 s.

(** ** Control flow inside a node

    [search] and [qsearch] leave through many early [return]s.  A step of
    the function either returns a score or hands its updated locals to the
    next step. *)

Inductive Flow (A : Type) : Type :=
  | Return (v : Z)
  | Next (a : A).

Arguments Return {A} v.
Arguments Next {A} a.

Definition flow_bind {A B : Type} (m : Flow A) (k : A -> Flow B) : Flow B :=
  match m with
  | Return v => Return v
  | Next a => k a
  end.

Notation "x <- m ;; k" := (flow_bind m (fun x => k))
  (at level 61, m at next level, right associativity).

Inductive NodeType : Type := NonPV | PV | Root.

Definition is_PvNode (nt : NodeType) : bool :=
  match nt with NonPV => false | _ => true end.

Definition is_rootNode (nt : NodeType) : bool :=
  match nt with Root => true | _ => false end.

Inductive Bound : Type := BOUND_NONE | BOUND_UPPER | BOUND_LOWER | BOUND_EXACT.

(** [b & mask] as a truth value, for [mask] one of [BOUND_LOWER],
    [BOUND_UPPER]: [BOUND_EXACT] is the union of the two. *)
Definition bound_and (b mask : Bound) : bool :=
  match b, mask with
  | BOUND_EXACT, (BOUND_UPPER | BOUND_LOWER | BOUND_EXACT) => true
  | BOUND_UPPER, (BOUND_UPPER | BOUND_EXACT) => true
  | BOUND_LOWER, (BOUND_LOWER | BOUND_EXACT) => true
  | _, _ => false
  end.

(** What the first steps of [search] read from the position, the search
    stack, the thread and the pool.  [pos_has_game_cycle] and
    [pos_is_draw] are the results of [Position::has_game_cycle(ss->ply)]
    and [Position::is_draw(ss->ply)], whose bodies ([position.cpp]) are not
    among the sources; [evaluate_pos] is the evaluator's answer. *)
Record NodeObs : Type := {
  ss_ply : Z;
  pos_has_game_cycle : bool;
  pos_rule50_count : Z;
  pos_is_draw : bool;
  pos_checkers : bool;
  thread_nodes : Z;
  threads_stop : bool;
  evaluate_pos : Z
}.

Section SearchEntry.
Context `{K : ValueConsts}.

(** [Value value_draw(const Thread* thisThread)]. *)
Definition value_draw (nodes : Z) : Z := VALUE_DRAW - 1 + Z.land nodes 2.

(** The game-cycle block at the head of [search<nodeType, Shashin>]
    ([search.cpp]).  It yields the possibly lifted alpha and the
    [gameCycle] flag; the flag is declared but never written when
    [Shashin] is off, where it is not read either: [false] stands for it. *)
Definition game_cycle_step (Shashin rootNode : bool) (o : NodeObs)
    (alpha beta : Z) : Flow (Z * bool) :=
  if negb Shashin then
    if negb rootNode && (alpha <? VALUE_DRAW) && pos_has_game_cycle o then
      let alpha' := value_draw (thread_nodes o) in
      if alpha' >=? beta then Return alpha' else Next (alpha', false)
    else Next (alpha, false)
  else
    if negb rootNode then
      if pos_has_game_cycle o then
        if (pos_rule50_count o >=? 3) && (alpha <? VALUE_DRAW) then
          let alpha' := value_draw (thread_nodes o) in
          if alpha' >=? beta then Return alpha' else Next (alpha', true)
        else Next (alpha, true)
      else Next (alpha, false)
    else Next (alpha, false).

(** Step 2 (aborted search, immediate draw, maximum ply) and Step 3 (mate
    distance pruning), both under [if (!rootNode)]. *)
Definition abort_and_mate_distance_step (rootNode : bool) (o : NodeObs)
    (alpha beta : Z) : Flow (Z * Z) :=
  if negb rootNode then
    if threads_stop o || pos_is_draw o || (ss_ply o >=? MAX_PLY) then
      Return (if (ss_ply o >=? MAX_PLY) && negb (pos_checkers o)
              then evaluate_pos o
              else value_draw (thread_nodes o))
    else
      let alpha' := Z.max (mated_in (ss_ply o)) alpha in
      let beta' := Z.min (mate_in (ss_ply o + 1)) beta in
      if alpha' >=? beta' then Return alpha' else Next (alpha', beta')
  else Next (alpha, beta).

(** [search] from its first line to the end of Step 3.  [qs alpha beta]
    is the value of the [qsearch] call made when [depth <= 0]. *)
Definition search_entry (nt : NodeType) (Shashin : bool) (o : NodeObs)
    (qs : Z -> Z -> Z) (alpha beta depth : Z) : Flow (Z * Z * bool) :=
  if depth <=? 0 then Return (qs alpha beta)
  else
    ag <- game_cycle_step Shashin (is_rootNode nt) o alpha beta ;;
    ab <- abort_and_mate_distance_step (is_rootNode nt) o (fst ag) beta ;;
    Next (fst ab, snd ab, snd ag).

End SearchEntry.

Module ClassicEntry.
Section SearchEntry.
Context `{K : ValueConsts}.

(** The game-cycle block of the classic [search<nodeType, false>]; it
    comes before the dive into [qsearch]. *)
Definition game_cycle_step (rootNode : bool) (o : NodeObs)
    (alpha beta : Z) : Flow Z :=
  if negb rootNode && (pos_rule50_count o >=? 3) && (alpha <? VALUE_DRAW)
     && pos_has_game_cycle o then
    let alpha' := value_draw (thread_nodes o) in
    if alpha' >=? beta then Return alpha' else Next alpha'
  else Next alpha.

Definition search_entry (nt : NodeType) (o : NodeObs)
    (qs : Z -> Z -> Z) (alpha beta depth : Z) : Flow (Z * Z) :=
  a <- game_cycle_step (is_rootNode nt) o alpha beta ;;
  if depth <=? 0 then Return (qs a beta)
  else abort_and_mate_distance_step (is_rootNode nt) o a beta.

End SearchEntry.
End ClassicEntry.

(** The head of the classic [search<nodeType, true>], the body the
    classic searcher runs under [go mate].  It has no game-cycle block;
    its Step 2 has a rule-50 test of its own, and returns [VALUE_ZERO]
    for a stopped search; its Step 3 only cuts on alpha and leaves the
    window as it is. *)
Module ClassicMateEntry.
Section SearchEntry.
Context `{K : ValueConsts}.

(** [VALUE_ZERO] of the missing [types.h]. *)
Variable VALUE_ZERO : Z.

(** [TB::UseRule50], and the size of [MoveList<LEGAL>(pos)]. *)
Variable UseRule50 : bool.
Variable legal_moves : Z.

(** Step 2, under [if (!rootNode)]. *)
Definition abort_step (o : NodeObs) : Flow unit :=
  if UseRule50 && (pos_rule50_count o >? 99)
     && (negb (pos_checkers o) || negb (legal_moves =? 0))
  then Return (value_draw (thread_nodes o))
  else if pos_is_draw o then Return (value_draw (thread_nodes o))
  else if threads_stop o || (ss_ply o >=? MAX_PLY) then
    Return (if (ss_ply o >=? MAX_PLY) && negb (pos_checkers o)
            then evaluate_pos o
            else VALUE_ZERO)
  else Next tt.

(** Step 3, under the same [if]. *)
Definition mate_distance_step (o : NodeObs) (alpha : Z) : Flow unit :=
  if alpha >=? mate_in (ss_ply o + 1) then Return alpha else Next tt.

(** The function from its first line to the end of Step 3: the window
    that goes on to the transposition-table probe. *)
Definition search_entry (nt : NodeType) (o : NodeObs)
    (qs : Z -> Z -> Z) (alpha beta depth : Z) : Flow (Z * Z) :=
  if depth <=? 0 then Return (qs alpha beta)
  else if negb (is_rootNode nt) then
    _ <- abort_step o ;;
    _ <- mate_distance_step o alpha ;;
    Next (alpha, beta)
  else Next (alpha, beta).

End SearchEntry.
End ClassicMateEntry.

(** ** Step 5 of [search]: the tablebase probe

    [Tablebases::probe_wdl] is an external collaborator; its answer is an
    input.  The [tte->save] that precedes the early return leaves the
    returned score alone and is not written out. *)

Record TBObs : Type := {
  tb_Cardinality : Z;
  tb_ProbeDepth : Z;
  tb_UseRule50 : bool;
  tb_piecesCount : Z;
  tb_can_castle : bool;
  tb_probe_failed : bool;
  tb_wdl : Z
}.

Section Tablebase.
Context `{K : ValueConsts}.

(** It yields the locals [(alpha, bestValue, maxValue)] it may write. *)
Definition tablebase_step (nt : NodeType) (tb : TBObs) (excludedMove : Move)
    (rule50 ply depth alpha beta bestValue maxValue : Z) : Flow (Z * Z * Z) :=
  if negb (is_rootNode nt) && negb (Move_to_bool excludedMove)
     && negb (tb_Cardinality tb =? 0) then
    if (tb_piecesCount tb <=? tb_Cardinality tb)
       && ((tb_piecesCount tb <? tb_Cardinality tb) || (depth >=? tb_ProbeDepth tb))
       && (rule50 =? 0) && negb (tb_can_castle tb) then
      if negb (tb_probe_failed tb) then
        let drawScore := if tb_UseRule50 tb then 1 else 0 in
        let tbValue := VALUE_TB - ply in
        let value :=
          if tb_wdl tb <? - drawScore then - tbValue
          else if tb_wdl tb >? drawScore then tbValue
          else VALUE_DRAW + 2 * tb_wdl tb * drawScore in
        let b :=
          if tb_wdl tb <? - drawScore then BOUND_UPPER
          else if tb_wdl tb >? drawScore then BOUND_LOWER
          else BOUND_EXACT in
        if match b with
           | BOUND_EXACT => true
           | BOUND_LOWER => value >=? beta
           | _ => value <=? alpha
           end
        then Return value
        else if is_PvNode nt then
          match b with
          | BOUND_LOWER => Next (Z.max alpha value, value, maxValue)
          | _ => Next (alpha, bestValue, value)
          end
        else Next (alpha, bestValue, maxValue)
      else Next (alpha, bestValue, maxValue)
    else Next (alpha, bestValue, maxValue)
  else Next (alpha, bestValue, maxValue).

End Tablebase.

(** Step 5 of the classic [search<nodeType, SearchMate>].  Wins and
    losses are scored from [VALUE_MATE_IN_MAX_PLY] and
    [VALUE_MATED_IN_MAX_PLY]; the body for [SearchMate = false] probes in
    a singular verification search as well (its guard has no
    [!excludedMove]). *)
Module ClassicTablebase.
Section Tablebase.
Context `{K : ValueConsts}.

Definition tablebase_step (SearchMate : bool) (nt : NodeType) (tb : TBObs)
    (excludedMove : Move)
    (rule50 ply depth alpha beta bestValue maxValue : Z) : Flow (Z * Z * Z) :=
  if (if SearchMate
      then negb (is_rootNode nt) && negb (Move_to_bool excludedMove)
           && negb (tb_Cardinality tb =? 0)
      else negb (is_rootNode nt) && negb (tb_Cardinality tb =? 0)) then
    if (tb_piecesCount tb <=? tb_Cardinality tb)
       && ((tb_piecesCount tb <? tb_Cardinality tb) || (depth >=? tb_ProbeDepth tb))
       && (rule50 =? 0) && negb (tb_can_castle tb) then
      if negb (tb_probe_failed tb) then
        let drawScore := if tb_UseRule50 tb then 1 else 0 in
        let value :=
          if tb_wdl tb <? - drawScore then VALUE_MATED_IN_MAX_PLY + ply + 1
          else if tb_wdl tb >? drawScore then VALUE_MATE_IN_MAX_PLY - ply - 1
          else VALUE_DRAW + 2 * tb_wdl tb * drawScore in
        let b :=
          if tb_wdl tb <? - drawScore then BOUND_UPPER
          else if tb_wdl tb >? drawScore then BOUND_LOWER
          else BOUND_EXACT in
        if match b with
           | BOUND_EXACT => true
           | BOUND_LOWER => value >=? beta
           | _ => value <=? alpha
           end
        then Return value
        else if is_PvNode nt then
          match b with
          | BOUND_LOWER => Next (Z.max alpha value, value, maxValue)
          | _ => Next (alpha, bestValue, value)
          end
        else Next (alpha, bestValue, maxValue)
      else Next (alpha, bestValue, maxValue)
    else Next (alpha, bestValue, maxValue)
  else Next (alpha, bestValue, maxValue).

End Tablebase.
End ClassicTablebase.

(** ** Step 9 of [search]: the null-move search *)

(** What the guard of Step 9 reads.  The style layer's position
    classifiers ([isShashinHighMiddle], [isShashinPositionTal]) are
    collaborators; their answers are inputs.  [nm_previousScore] is
    [rootMoves[pvIdx].previousScore], which the classic
    [search<nodeType, true>] reads. *)
Record NullMoveObs : Type := {
  nm_prev_is_null : bool;
  nm_prev_statScore : Z;
  nm_eval : Z;
  nm_staticEval : Z;
  nm_excludedMove : Move;
  nm_non_pawn_material : Z;
  nm_ply : Z;
  nm_nmpMinPly : Z;
  nm_high_middle : bool;
  nm_position_tal : bool;
  nm_nmpGuard : bool;
  nm_gameCycle : bool;
  nm_kingDanger : bool;
  nm_rootDepth : Z;
  nm_ourMove : bool;
  nm_legal_moves : Z;
  nm_improvement : Z;
  nm_complexity : Z;
  nm_us_is_nmpColor : bool;
  nm_previousScore : Z
}.

(** The arguments of a recursive [search] call. *)
Record SearchCall : Type := {
  call_alpha : Z;
  call_beta : Z;
  call_depth : Z;
  call_cutNode : bool
}.

Section NullMove.
Context `{K : ValueConsts}.

(** The guard of Step 9 in [search<nodeType, Shashin>]. *)
Definition null_move_guard (Shashin PvNode : bool) (o : NullMoveObs)
    (beta depth : Z) : bool :=
  (negb Shashin
   && (negb PvNode
       && negb (nm_prev_is_null o)
       && (nm_prev_statScore o <? 17496)
       && (nm_eval o >=? beta)
       && (nm_eval o >=? nm_staticEval o)
       && (nm_staticEval o >=? beta - 23 * depth + 304)
       && negb (Move_to_bool (nm_excludedMove o))
       && negb (nm_non_pawn_material o =? 0)
       && (nm_ply o >=? nm_nmpMinPly o)
       && (beta >? VALUE_TB_LOSS_IN_MAX_PLY)))
  || (Shashin
      && ((nm_prev_statScore o <? 17496)
          && (nm_eval o >=? beta)
          && (nm_eval o >=? nm_staticEval o)
          && (nm_staticEval o >=? beta - 23 * depth + 304)
          && negb (nm_non_pawn_material o =? 0)
          && (((nm_high_middle o || negb (nm_position_tal o))
               && negb PvNode
               && negb (nm_prev_is_null o)
               && negb (Move_to_bool (nm_excludedMove o))
               && (nm_ply o >=? nm_nmpMinPly o))
              || ((negb (nm_high_middle o) && nm_position_tal o)
                  && negb (nm_nmpGuard o)
                  && negb (nm_gameCycle o)
                  && (beta <? VALUE_MATE_IN_MAX_PLY)
                  && negb (nm_kingDanger o)
                  && ((nm_rootDepth o <? 11) || nm_ourMove o
                      || (nm_legal_moves o >? 5)))))).

(** [Depth R = std::min(int(eval - beta) / 144, 6) + depth / 3 + 4]. *)
Definition null_move_R (eval beta depth : Z) : Z :=
  Z.min (Z.quot (eval - beta) 144) 6 + Z.quot depth 3 + 4.

(** The reduced search made after [do_null_move], when the guard holds:
    [search<NonPV>(pos, ss + 1, -beta, -beta + 1, depth - R, !cutNode)]. *)
Definition null_move_search (Shashin PvNode : bool) (o : NullMoveObs)
    (beta depth : Z) (cutNode : bool) : option SearchCall :=
  if null_move_guard Shashin PvNode o beta depth then
    let R := null_move_R (nm_eval o) beta depth in
    Some {| call_alpha := - beta; call_beta := - beta + 1;
            call_depth := depth - R; call_cutNode := negb cutNode |}
  else None.

End NullMove.

Module ClassicNullMove.

(** The guard of Step 9 in the classic [search<nodeType, false>]. *)
Definition null_move_guard (PvNode : bool) (o : NullMoveObs)
    (beta depth : Z) : bool :=
  negb PvNode
  && negb (nm_prev_is_null o)
  && (nm_prev_statScore o <? 17139)
  && (nm_eval o >=? beta)
  && (nm_eval o >=? nm_staticEval o)
  && (nm_staticEval o >=?
        beta - 20 * depth - Z.quot (nm_improvement o) 13 + 233
        + Z.quot (nm_complexity o) 25)
  && negb (Move_to_bool (nm_excludedMove o))
  && negb (nm_non_pawn_material o =? 0)
  && ((nm_ply o >=? nm_nmpMinPly o) || negb (nm_us_is_nmpColor o)).

(** [Depth R = std::min(int(eval - beta) / 168, 7) + depth / 3 + 4
              - (complexity > 861)]. *)
Definition null_move_R (eval beta depth complexity : Z) : Z :=
  Z.min (Z.quot (eval - beta) 168) 7 + Z.quot depth 3 + 4
  - (if complexity >? 861 then 1 else 0).

Definition null_move_search (PvNode : bool) (o : NullMoveObs)
    (beta depth : Z) (cutNode : bool) : option SearchCall :=
  if null_move_guard PvNode o beta depth then
    let R := null_move_R (nm_eval o) beta depth (nm_complexity o) in
    Some {| call_alpha := - beta; call_beta := - beta + 1;
            call_depth := depth - R; call_cutNode := negb cutNode |}
  else None.

End ClassicNullMove.

(** Step 9 of the classic [search<nodeType, true>].  It stands inside
    the early-pruning block
    [if (!PvNode && rootDepth > 4 && previousScore < VALUE_MATE_IN_MAX_PLY)]. *)
Module ClassicMateNullMove.
Section NullMove.
Context `{K : ValueConsts}.

(** [VALUE_KNOWN_WIN] of the missing [types.h]. *)
Variable VALUE_KNOWN_WIN : Z.

Definition early_pruning_guard (PvNode : bool) (o : NullMoveObs) : bool :=
  negb PvNode
  && (nm_rootDepth o >? 4)
  && (nm_previousScore o <? VALUE_MATE_IN_MAX_PLY).

Definition null_move_guard (PvNode : bool) (o : NullMoveObs)
    (beta depth : Z) : bool :=
  early_pruning_guard PvNode o
  && (negb (Move_to_bool (nm_excludedMove o))
      && negb (nm_prev_is_null o)
      && (nm_prev_statScore o <? 17329)
      && (beta >? - VALUE_KNOWN_WIN)
      && (nm_eval o >=? beta)
      && (nm_eval o >=? nm_staticEval o)
      && (nm_staticEval o >=?
            beta - 21 * depth - Z.quot (nm_improvement o) 13 + 258)
      && negb (nm_non_pawn_material o =? 0)
      && (nm_ply o >=? nm_nmpMinPly o)).

(** [Depth R = std::min(int(eval - beta) / 173, 6) + depth / 3 + 4]. *)
Definition null_move_R (eval beta depth : Z) : Z :=
  Z.min (Z.quot (eval - beta) 173) 6 + Z.quot depth 3 + 4.

Definition null_move_search (PvNode : bool) (o : NullMoveObs)
    (beta depth : Z) (cutNode : bool) : option SearchCall :=
  if null_move_guard PvNode o beta depth then
    let R := null_move_R (nm_eval o) beta depth in
    Some {| call_alpha := - beta; call_beta := - beta + 1;
            call_depth := depth - R; call_cutNode := negb cutNode |}
  else None.

End NullMove.
End ClassicMateNullMove.

(** ** Step 21 of [search] and what follows it

    The locals of [search] when the move loop is left, and the end of the
    function: mate/stalemate detection, statistics, the tablebase cap, the
    transposition-table store, and the returned score.  Writes to tables
    other than the returned score are recorded as a trace of effects. *)

Record LoopExit : Type := {
  le_moveCount : Z;
  le_excludedMove : Move;
  le_inCheck : bool;
  le_ply : Z;
  le_alpha : Z;
  le_beta : Z;
  le_bestValue : Z;
  le_bestMove : Move;
  le_bestMove_captures : bool;
  le_maxValue : Z;
  le_depth : Z;
  le_cutNode : bool;
  le_priorCapture : bool;
  le_prevSq : Z;
  le_prev_statScore : Z;
  le_prev_moveCount : Z;
  le_ttPv : bool;
  le_prev_ttPv : bool;
  le_pvIdx : Z;
  le_staticEval : Z;
  le_unadjustedStaticEval : Z;
  le_capablanca : bool
}.

Inductive Effect : Type :=
  | UpdateAllStats (bestMove : Move) (bestValue beta depth : Z)
  | PriorCountermoveBonus (bonus : Z)
  | TTSave (v : Z) (ttPv : bool) (b : Bound) (depth : Z) (m : Move) (ev : Z)
  | CorrectionHistoryUpdate (bonus : Z).

Definition b2z (b : bool) : Z := if b then 1 else 0.

(** [std::clamp(v, lo, hi)]. *)
Definition clamp (v lo hi : Z) : Z :=
  if v <? lo then lo else if hi <? v then hi else v.

Section SearchEnd.
Context `{K : ValueConsts}.

(** [CORRECTION_HISTORY_LIMIT] of the missing [movepick.h]. *)
Variable CORRECTION_HISTORY_LIMIT : Z.

(** [int stat_bonus(Depth d)]. *)
Definition stat_bonus (d : Z) : Z := Z.min (268 * d - 352) 1153.

(** Step 21 proper: the score after the mate and stalemate test. *)
Definition mate_stalemate_value (x : LoopExit) : Z :=
  if le_moveCount x =? 0 then
    if Move_to_bool (le_excludedMove x) then le_alpha x
    else if le_inCheck x then mated_in (le_ply x)
    else VALUE_DRAW
  else le_bestValue x.

(** The statistics branch of the same [if] chain. *)
Definition end_statistics (nt : NodeType) (x : LoopExit) : list Effect :=
  if le_moveCount x =? 0 then []
  else if Move_to_bool (le_bestMove x) then
    [UpdateAllStats (le_bestMove x) (le_bestValue x) (le_beta x) (le_depth x)]
  else if negb (le_priorCapture x) && negb (le_prevSq x =? SQ_NONE) then
    let bonus := b2z (le_depth x >? 6) + b2z (is_PvNode nt || le_cutNode x)
                 + b2z (le_prev_statScore x <? -18782)
                 + b2z (le_prev_moveCount x >? 10) in
    [PriorCountermoveBonus (stat_bonus (le_depth x) * bonus)]
  else [].

(** The end of [search<nodeType, Shashin>], from Step 21 to [return]. *)
Definition search_end (nt : NodeType) (Shashin : bool) (x : LoopExit)
    : list Effect * Z :=
  let bestValue := mate_stalemate_value x in
  let stats := end_statistics nt x in
  let bestValue :=
    if is_PvNode nt && (negb Shashin || negb (le_capablanca x))
    then Z.min bestValue (le_maxValue x) else bestValue in
  let ttPv :=
    if bestValue <=? le_alpha x
    then le_ttPv x || (le_prev_ttPv x && (le_depth x >? 3))
    else le_ttPv x in
  let save :=
    if negb (Move_to_bool (le_excludedMove x))
       && negb (is_rootNode nt && negb (le_pvIdx x =? 0))
    then [TTSave (value_to_tt bestValue (le_ply x)) ttPv
            (if bestValue >=? le_beta x then BOUND_LOWER
             else if is_PvNode nt && Move_to_bool (le_bestMove x)
                  then BOUND_EXACT else BOUND_UPPER)
            (le_depth x) (le_bestMove x) (le_unadjustedStaticEval x)]
    else [] in
  let corr :=
    if negb (le_inCheck x)
       && (negb (Move_to_bool (le_bestMove x)) || negb (le_bestMove_captures x))
       && negb ((bestValue >=? le_beta x) && (bestValue <=? le_staticEval x))
       && negb (negb (Move_to_bool (le_bestMove x))
                && (bestValue >=? le_staticEval x))
    then [CorrectionHistoryUpdate
            (clamp (Z.quot ((bestValue - le_staticEval x) * le_depth x) 8)
               (Z.quot (- CORRECTION_HISTORY_LIMIT) 4)
               (Z.quot CORRECTION_HISTORY_LIMIT 4))]
    else [] in
  (stats ++ save ++ corr, bestValue).

End SearchEnd.

Module ClassicEnd.
Section SearchEnd.
Context `{K : ValueConsts}.

(** [stat_bonus<true>(Depth d)] of the classic searcher. *)
Definition stat_bonus (d : Z) : Z := Z.min (336 * d - 547) 1561.

Definition end_statistics (nt : NodeType) (x : LoopExit) : list Effect :=
  if le_moveCount x =? 0 then []
  else if Move_to_bool (le_bestMove x) then
    [UpdateAllStats (le_bestMove x) (le_bestValue x) (le_beta x) (le_depth x)]
  else if negb (le_priorCapture x) && negb (le_prevSq x =? SQ_NONE) then
    let bonus := b2z (le_depth x >? 5) + b2z (is_PvNode nt || le_cutNode x)
                 + b2z (le_bestValue x <? le_alpha x - 113 * le_depth x)
                 + b2z (le_prev_moveCount x >? 12) in
    [PriorCountermoveBonus (stat_bonus (le_depth x) * bonus)]
  else [].

(** The end of the classic [search<nodeType, true>], Step 21 to
    [return]. *)
Definition search_end (nt : NodeType) (x : LoopExit) : list Effect * Z :=
  let bestValue := mate_stalemate_value x in
  let stats := end_statistics nt x in
  let bestValue :=
    if is_PvNode nt then Z.min bestValue (le_maxValue x) else bestValue in
  let ttPv :=
    if bestValue <=? le_alpha x
    then le_ttPv x || (le_prev_ttPv x && (le_depth x >? 3))
    else le_ttPv x in
  let save :=
    if negb (Move_to_bool (le_excludedMove x))
       && negb (is_rootNode nt && negb (le_pvIdx x =? 0))
    then [TTSave (Classic.value_to_tt bestValue (le_ply x)) ttPv
            (if bestValue >=? le_beta x then BOUND_LOWER
             else if is_PvNode nt && Move_to_bool (le_bestMove x)
                  then BOUND_EXACT else BOUND_UPPER)
            (le_depth x) (le_bestMove x) (le_staticEval x)]
    else [] in
  (stats ++ save, bestValue).

End SearchEnd.
End ClassicEnd.

(** The end of the classic [search<nodeType, false>]. *)
Module ClassicPlainEnd.
Section SearchEnd.
Context `{K : ValueConsts}.

(** [stat_bonus<false>(Depth d)] of the classic searcher. *)
Definition stat_bonus (d : Z) : Z := Z.min ((12 * d + 282) * d - 349) 1594.

Definition end_statistics (nt : NodeType) (x : LoopExit) : list Effect :=
  if le_moveCount x =? 0 then []
  else if Move_to_bool (le_bestMove x) then
    [UpdateAllStats (le_bestMove x) (le_bestValue x) (le_beta x) (le_depth x)]
  else if ((le_depth x >=? 5) || is_PvNode nt)
          && negb (le_priorCapture x) && negb (le_prevSq x =? SQ_NONE) then
    let extraBonus := is_PvNode nt || le_cutNode x
                      || (le_bestValue x <? le_alpha x - 62 * le_depth x) in
    [PriorCountermoveBonus (stat_bonus (le_depth x) * (1 + b2z extraBonus))]
  else [].

Definition search_end (nt : NodeType) (x : LoopExit) : list Effect * Z :=
  let bestValue := mate_stalemate_value x in
  let stats := end_statistics nt x in
  let bestValue :=
    if is_PvNode nt then Z.min bestValue (le_maxValue x) else bestValue in
  let ttPv :=
    if bestValue <=? le_alpha x
    then le_ttPv x || (le_prev_ttPv x && (le_depth x >? 3))
    else le_ttPv x in
  let save :=
    if negb (Move_to_bool (le_excludedMove x))
       && negb (is_rootNode nt && negb (le_pvIdx x =? 0))
    then [TTSave (Classic.value_to_tt bestValue (le_ply x)) ttPv
            (if bestValue >=? le_beta x then BOUND_LOWER
             else if is_PvNode nt && Move_to_bool (le_bestMove x)
                  then BOUND_EXACT else BOUND_UPPER)
            (le_depth x) (le_bestMove x) (le_staticEval x)]
    else [] in
  (stats ++ save, bestValue).

End SearchEnd.
End ClassicPlainEnd.

(** ** The four bodies of [search] side by side

    [search<nodeType, Shashin>] of [search.cpp] with the style layer off
    or on, and the classic [search<nodeType, SearchMate>], whose two
    bodies stand in the two branches of one [if constexpr]. *)

Inductive SearchInstance : Type :=
  | ModernSearch (Shashin : bool)
  | ClassicSearch (SearchMate : bool).

Section SearchInstances.
Context `{K : ValueConsts}.
Variable CORRECTION_HISTORY_LIMIT : Z.

Definition tablebase_step_of (i : SearchInstance) (nt : NodeType)
    (tb : TBObs) (excludedMove : Move)
    (rule50 ply depth alpha beta bestValue maxValue : Z) : Flow (Z * Z * Z) :=
  match i with
  | ModernSearch _ =>
      tablebase_step nt tb excludedMove rule50 ply depth alpha beta
        bestValue maxValue
  | ClassicSearch SearchMate =>
      ClassicTablebase.tablebase_step SearchMate nt tb excludedMove rule50
        ply depth alpha beta bestValue maxValue
  end.

Definition search_end_of (i : SearchInstance) (nt : NodeType) (x : LoopExit)
    : list Effect * Z :=
  match i with
  | ModernSearch Shashin => search_end CORRECTION_HISTORY_LIMIT nt Shashin x
  | ClassicSearch true => ClassicEnd.search_end nt x
  | ClassicSearch false => ClassicPlainEnd.search_end nt x
  end.

End SearchInstances.

(** ** Quiescence search ([qsearch<nodeType, Shashin>], [search.cpp])

    The node is described by what the function reads from the position,
    the transposition table, the search stack and the thread; the moves the
    [MovePicker] yields come as a list, each with the answers the loop asks
    about it ([qm_capture] is [pos.capture(move)], [qm_capture_stage] is
    [pos.capture_stage(move)]).  [qm_child a b] is the value of the
    recursive call [qsearch(pos, ss + 1, a, b, depth - 1)] after the move
    is made.  The transposition-table stores do not change the returned
    score and are not written out. *)

Record QNodeObs : Type := {
  q_ply : Z;
  q_has_game_cycle : bool;
  q_nodes : Z;
  q_is_draw : bool;
  q_inCheck : bool;
  q_evaluate : Z;
  q_high_tal : bool;
  q_ttHit : bool;
  q_tte_value : Z;
  q_tte_eval : Z;
  q_tte_bound : Bound;
  q_tte_depth : Z;
  q_rule50 : Z;
  q_correction : Z;
  q_prev_is_null : bool;
  q_prev_staticEval : Z;
  q_non_pawn_material : Z
}.

Record QMove : Type := {
  qm_move : Move;
  qm_legal : bool;
  qm_givesCheck : bool;
  qm_capture : bool;
  qm_capture_stage : bool;
  qm_to_is_prevSq : bool;
  qm_victim_value : Z;
  qm_see_ge : Z -> bool;
  qm_contHist0 : Z;
  qm_contHist1 : Z;
  qm_child : Z -> Z -> Z
}.

(** The locals the move loop of [qsearch] carries. *)
Record QLoop : Type := {
  ql_alpha : Z;
  ql_bestValue : Z;
  ql_bestMove : Move;
  ql_moveCount : Z;
  ql_quietCheckEvasions : Z
}.

Section QSearch.
Context `{K : ValueConsts}.

(** [DEPTH_QS_CHECKS] and [DEPTH_QS_NO_CHECKS] of the missing [types.h]. *)
Variables DEPTH_QS_CHECKS DEPTH_QS_NO_CHECKS : Z.

Variables (PvNode Shashin : bool).

(** [constexpr Value to_static_eval(int v)]. *)
Definition to_static_eval (v : Z) : Z :=
  clamp v (VALUE_TB_LOSS_IN_MAX_PLY + 1) (VALUE_TB_WIN_IN_MAX_PLY - 1).

(** The game-cycle block at the head of [qsearch]: the possibly lifted
    alpha and the [gameCycle] flag (see [game_cycle_step] for the flag
    when [Shashin] is off). *)
Definition q_game_cycle_step (o : QNodeObs) (alpha beta : Z) : Flow (Z * bool) :=
  if negb Shashin then
    if (alpha <? VALUE_DRAW) && q_has_game_cycle o then
      let alpha' := value_draw (q_nodes o) in
      if alpha' >=? beta then Return alpha' else Next (alpha', false)
    else Next (alpha, false)
  else
    if q_has_game_cycle o then
      if alpha <? VALUE_DRAW then
        let alpha' := value_draw (q_nodes o) in
        if alpha' >=? beta then Return alpha' else Next (alpha', true)
      else Next (alpha, true)
    else Next (alpha, false).

(** Step 2. *)
Definition q_draw_step (o : QNodeObs) : Flow unit :=
  if q_is_draw o || (q_ply o >=? MAX_PLY) then
    Return (if (q_ply o >=? MAX_PLY) && negb (q_inCheck o)
            then q_evaluate o else VALUE_DRAW)
  else Next tt.

(** Step 3: [ttValue] and the early cutoff at non-PV nodes. *)
Definition q_ttValue (o : QNodeObs) : Z :=
  if q_ttHit o then value_from_tt (q_tte_value o) (q_ply o) (q_rule50 o)
  else VALUE_NONE.

Definition q_tt_step (o : QNodeObs) (gameCycle : bool) (beta depth : Z)
    : Flow unit :=
  let ttDepth := if q_inCheck o || (depth >=? DEPTH_QS_CHECKS)
                 then DEPTH_QS_CHECKS else DEPTH_QS_NO_CHECKS in
  let ttValue := q_ttValue o in
  if negb PvNode
     && (negb Shashin
         || (negb (q_high_tal o)
             || (negb gameCycle
                 && (Z.odd (q_ply o) || (beta <? VALUE_MATE_IN_MAX_PLY))
                 && (negb (ttValue =? VALUE_DRAW) || (VALUE_DRAW >=? beta)))))
     && (q_tte_depth o >=? ttDepth)
     && negb (ttValue =? VALUE_NONE)
     && bound_and (q_tte_bound o)
          (if ttValue >=? beta then BOUND_LOWER else BOUND_UPPER)
  then Return ttValue
  else Next tt.

(** Step 4 when not in check: [ss->staticEval] and the initial
    [bestValue], the stand-pat score. *)
Definition q_static_eval (o : QNodeObs) : Z :=
  if q_ttHit o then
    let e := if q_tte_eval o =? VALUE_NONE then q_evaluate o
             else q_tte_eval o in
    to_static_eval (e + Z.quot (q_correction o) 32)
  else
    let e := if negb (q_prev_is_null o) then q_evaluate o
             else - q_prev_staticEval o in
    to_static_eval (e + Z.quot (q_correction o) 32).

Definition stand_pat (o : QNodeObs) : Z :=
  let bestValue := q_static_eval o in
  if q_ttHit o then
    let ttValue := q_ttValue o in
    if negb (ttValue =? VALUE_NONE)
       && bound_and (q_tte_bound o)
            (if ttValue >? bestValue then BOUND_LOWER else BOUND_UPPER)
    then ttValue else bestValue
  else bestValue.

(** One turn of the move loop (Steps 5 to 8).  The boolean tells whether
    the loop is left by [break]. *)
Definition q_move_step (o : QNodeObs) (beta futilityBase : Z) (m : QMove)
    (l : QLoop) : QLoop * bool :=
  if negb (qm_legal m) then (l, false)
  else
    let moveCount := ql_moveCount l + 1 in
    let l := {| ql_alpha := ql_alpha l; ql_bestValue := ql_bestValue l;
                ql_bestMove := ql_bestMove l; ql_moveCount := moveCount;
                ql_quietCheckEvasions := ql_quietCheckEvasions l |} in
    let set_best (v : Z) : QLoop :=
      {| ql_alpha := ql_alpha l; ql_bestValue := v;
         ql_bestMove := ql_bestMove l; ql_moveCount := moveCount;
         ql_quietCheckEvasions := ql_quietCheckEvasions l |} in
    let alpha := ql_alpha l in
    let bestValue := ql_bestValue l in
    let search_it : QLoop * bool :=
      let qce := ql_quietCheckEvasions l
                 + b2z (negb (qm_capture_stage m) && q_inCheck o) in
      let value := - qm_child m (- beta) (- alpha) in
      if value >? bestValue then
        if value >? alpha then
          if value >=? beta then
            ({| ql_alpha := alpha; ql_bestValue := value;
                ql_bestMove := qm_move m; ql_moveCount := moveCount;
                ql_quietCheckEvasions := qce |}, true)
          else
            ({| ql_alpha := value; ql_bestValue := value;
                ql_bestMove := qm_move m; ql_moveCount := moveCount;
                ql_quietCheckEvasions := qce |}, false)
        else
          ({| ql_alpha := alpha; ql_bestValue := value;
              ql_bestMove := ql_bestMove l; ql_moveCount := moveCount;
              ql_quietCheckEvasions := qce |}, false)
      else
        ({| ql_alpha := alpha; ql_bestValue := bestValue;
            ql_bestMove := ql_bestMove l; ql_moveCount := moveCount;
            ql_quietCheckEvasions := qce |}, false) in
    let after_futility : QLoop * bool :=
      if ql_quietCheckEvasions l >? 1 then (l, true)
      else if negb (qm_capture_stage m)
              && (qm_contHist0 m <? 0) && (qm_contHist1 m <? 0)
      then (l, false)
      else if negb (qm_see_ge m (-77)) then (l, false)
      else search_it in
    if (bestValue >? VALUE_TB_LOSS_IN_MAX_PLY)
       && negb (q_non_pawn_material o =? 0) then
      if negb (qm_givesCheck m) && negb (qm_to_is_prevSq m)
         && (futilityBase >? VALUE_TB_LOSS_IN_MAX_PLY)
         && negb (MoveType_eqb (type_of (qm_move m)) PROMOTION) then
        if (negb Shashin && (moveCount >? 2))
           || (Shashin
               && (moveCount >? 2 + (if negb (q_high_tal o) then 0
                                      else b2z PvNode)))
        then (l, false)
        else
          let futilityValue := futilityBase + qm_victim_value m in
          if futilityValue <=? alpha then
            (set_best (Z.max bestValue futilityValue), false)
          else if (futilityBase <=? alpha) && negb (qm_see_ge m 1) then
            (set_best (Z.max bestValue futilityBase), false)
          else if (futilityBase >? alpha)
                  && negb (qm_see_ge m ((alpha - futilityBase) * 4)) then
            (set_best alpha, false)
          else after_futility
      else after_futility
    else search_it.

Fixpoint q_move_loop (o : QNodeObs) (beta futilityBase : Z)
    (ms : list QMove) (l : QLoop) : QLoop :=
  match ms with
  | [] => l
  | m :: rest =>
      let (l', brk) := q_move_step o beta futilityBase m l in
      if brk then l' else q_move_loop o beta futilityBase rest l'
  end.

(** Step 9 and the return: mate detection and the smoothed fail-high. *)
Definition q_finish (o : QNodeObs) (beta : Z) (l : QLoop) : Z :=
  let bestValue := ql_bestValue l in
  if q_inCheck o && (bestValue =? - VALUE_INFINITE) then mated_in (q_ply o)
  else if (Z.abs bestValue <? VALUE_TB_WIN_IN_MAX_PLY) && (bestValue >=? beta)
  then Z.quot (3 * bestValue + beta) 4
  else bestValue.

(** Steps 4 to 9. *)
Definition q_from_static_eval (o : QNodeObs) (ms : list QMove)
    (alpha beta : Z) : Z :=
  if q_inCheck o then
    q_finish o beta
      (q_move_loop o beta (- VALUE_INFINITE) ms
         {| ql_alpha := alpha; ql_bestValue := - VALUE_INFINITE;
            ql_bestMove := Move_none; ql_moveCount := 0;
            ql_quietCheckEvasions := 0 |})
  else
    let bestValue := stand_pat o in
    if bestValue >=? beta then bestValue
    else
      let alpha' := if bestValue >? alpha then bestValue else alpha in
      q_finish o beta
        (q_move_loop o beta (q_static_eval o + 182) ms
           {| ql_alpha := alpha'; ql_bestValue := bestValue;
              ql_bestMove := Move_none; ql_moveCount := 0;
              ql_quietCheckEvasions := 0 |}).

(** Steps 1 to 3: what can make [qsearch] return before the static
    evaluation is looked at. *)
Definition q_entry (o : QNodeObs) (alpha beta depth : Z) : Flow Z :=
  ag <- q_game_cycle_step o alpha beta ;;
  _ <- q_draw_step o ;;
  _ <- q_tt_step o (snd ag) beta depth ;;
  Next (fst ag).

(** [Value qsearch(Position& pos, Stack* ss, Value alpha, Value beta,
    Depth depth)]. *)
Definition qsearch (o : QNodeObs) (ms : list QMove) (alpha beta depth : Z) : Z :=
  match q_entry o alpha beta depth with
  | Return v => v
  | Next alpha' => q_from_static_eval o ms alpha' beta
  end.

End QSearch.

(** ** Quiescence search of the classic searcher
    ([Search::Classic::qsearch<nodeType, false>]) *)

Module ClassicQ.
Section QSearch.
Context `{K : ValueConsts}.

(** [DEPTH_QS_CHECKS], [DEPTH_QS_NO_CHECKS] and [VALUE_KNOWN_WIN] of the
    missing [types.h]. *)
Variables DEPTH_QS_CHECKS DEPTH_QS_NO_CHECKS VALUE_KNOWN_WIN : Z.

Variable PvNode : bool.

(** Step 3. *)
Definition q_ttValue (o : QNodeObs) : Z :=
  if q_ttHit o
  then Classic.value_from_tt false (q_tte_value o) (q_ply o) (q_rule50 o)
  else VALUE_NONE.

Definition q_tt_step (o : QNodeObs) (beta depth : Z) : Flow unit :=
  let ttDepth := if q_inCheck o || (depth >=? DEPTH_QS_CHECKS)
                 then DEPTH_QS_CHECKS else DEPTH_QS_NO_CHECKS in
  let ttValue := q_ttValue o in
  if negb PvNode
     && q_ttHit o
     && (q_tte_depth o >=? ttDepth)
     && negb (ttValue =? VALUE_NONE)
     && bound_and (q_tte_bound o)
          (if ttValue >=? beta then BOUND_LOWER else BOUND_UPPER)
  then Return ttValue
  else Next tt.

(** Step 4 when not in check: [ss->staticEval] and the stand-pat score. *)
Definition q_static_eval (o : QNodeObs) : Z :=
  if q_ttHit o then
    if q_tte_eval o =? VALUE_NONE then q_evaluate o else q_tte_eval o
  else
    if negb (q_prev_is_null o) then q_evaluate o else - q_prev_staticEval o.

Definition stand_pat (o : QNodeObs) : Z :=
  let bestValue := q_static_eval o in
  if q_ttHit o then
    let ttValue := q_ttValue o in
    if negb (ttValue =? VALUE_NONE)
       && bound_and (q_tte_bound o)
            (if ttValue >? bestValue then BOUND_LOWER else BOUND_UPPER)
    then ttValue else bestValue
  else bestValue.

(** One turn of the move loop; the boolean tells whether the loop is left
    by [break]. *)
Definition q_move_step (o : QNodeObs) (beta futilityBase : Z) (m : QMove)
    (l : QLoop) : QLoop * bool :=
  if negb (qm_legal m) then (l, false)
  else
    let moveCount := ql_moveCount l + 1 in
    let l := {| ql_alpha := ql_alpha l; ql_bestValue := ql_bestValue l;
                ql_bestMove := ql_bestMove l; ql_moveCount := moveCount;
                ql_quietCheckEvasions := ql_quietCheckEvasions l |} in
    let set_best (v : Z) : QLoop :=
      {| ql_alpha := ql_alpha l; ql_bestValue := v;
         ql_bestMove := ql_bestMove l; ql_moveCount := moveCount;
         ql_quietCheckEvasions := ql_quietCheckEvasions l |} in
    let alpha := ql_alpha l in
    let bestValue := ql_bestValue l in
    let search_it : QLoop * bool :=
      let qce := ql_quietCheckEvasions l
                 + b2z (negb (qm_capture m) && q_inCheck o) in
      let value := - qm_child m (- beta) (- alpha) in
      if value >? bestValue then
        if value >? alpha then
          if PvNode && (value <? beta) then
            ({| ql_alpha := value; ql_bestValue := value;
                ql_bestMove := qm_move m; ql_moveCount := moveCount;
                ql_quietCheckEvasions := qce |}, false)
          else
            ({| ql_alpha := alpha; ql_bestValue := value;
                ql_bestMove := qm_move m; ql_moveCount := moveCount;
                ql_quietCheckEvasions := qce |}, true)
        else
          ({| ql_alpha := alpha; ql_bestValue := value;
              ql_bestMove := ql_bestMove l; ql_moveCount := moveCount;
              ql_quietCheckEvasions := qce |}, false)
      else
        ({| ql_alpha := alpha; ql_bestValue := bestValue;
            ql_bestMove := ql_bestMove l; ql_moveCount := moveCount;
            ql_quietCheckEvasions := qce |}, false) in
    let after_futility : QLoop * bool :=
      if (bestValue >? VALUE_TB_LOSS_IN_MAX_PLY) && negb (qm_see_ge m 0)
      then (l, false)
      else if negb (qm_capture m)
              && (bestValue >? VALUE_TB_LOSS_IN_MAX_PLY)
              && (qm_contHist0 m <? 0) && (qm_contHist1 m <? 0)
      then (l, false)
      else if (bestValue >? VALUE_TB_LOSS_IN_MAX_PLY)
              && (ql_quietCheckEvasions l >? 1)
      then (l, true)
      else search_it in
    if (bestValue >? VALUE_TB_LOSS_IN_MAX_PLY)
       && negb (qm_givesCheck m) && negb (qm_to_is_prevSq m)
       && (futilityBase >? - VALUE_KNOWN_WIN)
       && negb (MoveType_eqb (type_of (qm_move m)) PROMOTION) then
      if moveCount >? 2 then (l, false)
      else
        let futilityValue := futilityBase + qm_victim_value m in
        if futilityValue <=? alpha then
          (set_best (Z.max bestValue futilityValue), false)
        else if (futilityBase <=? alpha) && negb (qm_see_ge m 1) then
          (set_best (Z.max bestValue futilityBase), false)
        else after_futility
    else after_futility.

Fixpoint q_move_loop (o : QNodeObs) (beta futilityBase : Z)
    (ms : list QMove) (l : QLoop) : QLoop :=
  match ms with
  | [] => l
  | m :: rest =>
      let (l', brk) := q_move_step o beta futilityBase m l in
      if brk then l' else q_move_loop o beta futilityBase rest l'
  end.

(** Step 9 and the return: mate detection; the score is returned as it
    is. *)
Definition q_finish (o : QNodeObs) (l : QLoop) : Z :=
  if q_inCheck o && (ql_bestValue l =? - VALUE_INFINITE)
  then mated_in (q_ply o)
  else ql_bestValue l.

Definition q_from_static_eval (o : QNodeObs) (ms : list QMove)
    (alpha beta : Z) : Z :=
  if q_inCheck o then
    q_finish o
      (q_move_loop o beta (- VALUE_INFINITE) ms
         {| ql_alpha := alpha; ql_bestValue := - VALUE_INFINITE;
            ql_bestMove := Move_none; ql_moveCount := 0;
            ql_quietCheckEvasions := 0 |})
  else
    let bestValue := stand_pat o in
    if bestValue >=? beta then bestValue
    else
      let alpha' := if PvNode && (bestValue >? alpha) then bestValue
                    else alpha in
      q_finish o
        (q_move_loop o beta (bestValue + 153) ms
           {| ql_alpha := alpha'; ql_bestValue := bestValue;
              ql_bestMove := Move_none; ql_moveCount := 0;
              ql_quietCheckEvasions := 0 |}).

(** Steps 2 and 3 (the classic [qsearch] has no game-cycle block). *)
Definition q_entry (o : QNodeObs) (alpha beta depth : Z) : Flow Z :=
  _ <- q_draw_step o ;;
  _ <- q_tt_step o beta depth ;;
  Next alpha.

Definition qsearch (o : QNodeObs) (ms : list QMove) (alpha beta depth : Z) : Z :=
  match q_entry o alpha beta depth with
  | Return v => v
  | Next alpha' => q_from_static_eval o ms alpha' beta
  end.

End QSearch.
End ClassicQ.

(** ** The two quiescence searches side by side *)

Inductive QVariant : Type :=
  | ModernQ (PvNode Shashin : bool)
  | ClassicQ (PvNode : bool).

Section QVariants.
Context `{K : ValueConsts}.
Variables DEPTH_QS_CHECKS DEPTH_QS_NO_CHECKS VALUE_KNOWN_WIN : Z.

Definition q_entry_of (v : QVariant) (o : QNodeObs) (alpha beta depth : Z)
    : Flow Z :=
  match v with
  | ModernQ pv sh =>
      q_entry DEPTH_QS_CHECKS DEPTH_QS_NO_CHECKS pv sh o alpha beta depth
  | ClassicQ pv =>
      ClassicQ.q_entry DEPTH_QS_CHECKS DEPTH_QS_NO_CHECKS pv o alpha beta depth
  end.

Definition qsearch_of (v : QVariant) (o : QNodeObs) (ms : list QMove)
    (alpha beta depth : Z) : Z :=
  match v with
  | ModernQ pv sh =>
      qsearch DEPTH_QS_CHECKS DEPTH_QS_NO_CHECKS pv sh o ms alpha beta depth
  | ClassicQ pv =>
      ClassicQ.qsearch DEPTH_QS_CHECKS DEPTH_QS_NO_CHECKS VALUE_KNOWN_WIN pv
        o ms alpha beta depth
  end.

Definition stand_pat_of (v : QVariant) (o : QNodeObs) : Z :=
  match v with
  | ModernQ _ _ => stand_pat o
  | ClassicQ _ => ClassicQ.stand_pat o
  end.



End QVariants.

(** ** Position: piece placement ([position.h]) *)

Record Position : Type := {
  board : Z -> Piece;
  byTypeBB : PieceType -> Z;
  byColorBB : Color -> Z;
  pieceCount : Piece -> Z;
  psq : Z
}.

Definition upd_square {A : Type} (f : Z -> A) (s : Z) (v : A) : Z -> A :=
  fun x => if x =? s then v else f x.

Definition upd_type (f : PieceType -> Z) (pt : PieceType) (v : Z)
    : PieceType -> Z :=
  fun x => if PieceType_eqb x pt then v else f x.

Definition upd_color (f : Color -> Z) (c : Color) (v : Z) : Color -> Z :=
  fun x => if Color_eqb x c then v else f x.

Definition upd_piece (f : Piece -> Z) (pc : Piece) (v : Z) : Piece -> Z :=
  fun x => if Piece_eqb x pc then v else f x.

Definition piece_on (pos : Position) (s : Z) : Piece := board pos s.

Definition empty (pos : Position) (s : Z) : bool :=
  Piece_eqb (piece_on pos s) NO_PIECE.

(** [Position::pieces(PieceType pt = ALL_PIECES)]. *)
Definition pieces (pos : Position) : Z := byTypeBB pos ALL_PIECES.

Section PiecePlacement.

(** The piece-square table [PSQT::psq] of the missing [psqt.h]. *)
Variable PSQT_psq : Piece -> Z -> Z.

(** [void Position::put_piece(Piece pc, Square s)]. *)
Definition put_piece (pc : Piece) (s : Z) (pos : Position) : Position :=
  let byType1 :=
    upd_type (byTypeBB pos) (type_of_piece pc)
      (Z.lor (byTypeBB pos (type_of_piece pc)) (square_bb s)) in
  let byType2 :=
    upd_type byType1 ALL_PIECES
      (Z.lor (byType1 ALL_PIECES) (byType1 (type_of_piece pc))) in
  let count1 := upd_piece (pieceCount pos) pc (pieceCount pos pc + 1) in
  let all := make_piece (color_of pc) ALL_PIECES in
  {| board := upd_square (board pos) s pc;
     byTypeBB := byType2;
     byColorBB := upd_color (byColorBB pos) (color_of pc)
                    (Z.lor (byColorBB pos (color_of pc)) (square_bb s));
     pieceCount := upd_piece count1 all (count1 all + 1);
     psq := psq pos + PSQT_psq pc s |}.

(** [void Position::remove_piece(Square s)]. *)
Definition remove_piece (s : Z) (pos : Position) : Position :=
  let pc := board pos s in
  let byType1 :=
    upd_type (byTypeBB pos) ALL_PIECES
      (Z.lxor (byTypeBB pos ALL_PIECES) (square_bb s)) in
  let byType2 :=
    upd_type byType1 (type_of_piece pc)
      (Z.lxor (byType1 (type_of_piece pc)) (square_bb s)) in
  let count1 := upd_piece (pieceCount pos) pc (pieceCount pos pc - 1) in
  let all := make_piece (color_of pc) ALL_PIECES in
  {| board := upd_square (board pos) s NO_PIECE;
     byTypeBB := byType2;
     byColorBB := upd_color (byColorBB pos) (color_of pc)
                    (Z.lxor (byColorBB pos (color_of pc)) (square_bb s));
     pieceCount := upd_piece count1 all (count1 all - 1);
     psq := psq pos - PSQT_psq pc s |}.

(** [void Position::move_piece(Square from, Square to)]. *)
Definition move_piece (from to : Z) (pos : Position) : Position :=
  let pc := board pos from in
  let fromTo := Z.lor (square_bb from) (square_bb to) in
  let byType1 :=
    upd_type (byTypeBB pos) ALL_PIECES
      (Z.lxor (byTypeBB pos ALL_PIECES) fromTo) in
  let byType2 :=
    upd_type byType1 (type_of_piece pc)
      (Z.lxor (byType1 (type_of_piece pc)) fromTo) in
  {| board := upd_square (upd_square (board pos) from NO_PIECE) to pc;
     byTypeBB := byType2;
     byColorBB := upd_color (byColorBB pos) (color_of pc)
                    (Z.lxor (byColorBB pos (color_of pc)) fromTo);
     pieceCount := pieceCount pos;
     psq := psq pos + (PSQT_psq pc to - PSQT_psq pc from) |}.

End PiecePlacement.

(** The six piece types that index a bitboard of their own. *)
Definition piece_types : list PieceType :=
  [PAWN; KNIGHT; BISHOP; ROOK; QUEEN; KING].

(** The bitboard invariant of the spec: the occupancy is the union of the
    two colour boards, the per-piece-type boards are pairwise disjoint, and
    their union is the occupancy. *)
Definition bb_invariant (pos : Position) : Prop :=
  byTypeBB pos ALL_PIECES = Z.lor (byColorBB pos WHITE) (byColorBB pos BLACK)
  /\ (forall p q, In p piece_types -> In q piece_types -> p <> q ->
        Z.land (byTypeBB pos p) (byTypeBB pos q) = 0)
  /\ fold_right (fun p acc => Z.lor (byTypeBB pos p) acc) 0 piece_types
     = byTypeBB pos ALL_PIECES.

(** Square [s] is empty: no piece on it in the board array, and the
    occupancy bitboard agrees. *)
Definition empty_square (pos : Position) (s : Z) : Prop :=
  empty pos s = true /\ Z.testbit (pieces pos) s = false.

(** Square [s] is occupied: the board array holds a piece there, and the
    bitboards of that piece's type and colour (and only that colour) have
    the square. *)
Definition occupied_square (pos : Position) (s : Z) : Prop :=
  is_board_piece (piece_on pos s) = true
  /\ Z.testbit (byTypeBB pos (type_of_piece (piece_on pos s))) s = true
  /\ Z.testbit (byColorBB pos (color_of (piece_on pos s))) s = true
  /\ Z.testbit (byColorBB pos (flip_color (color_of (piece_on pos s)))) s = false.

(** ** Properties of moves ([position.h]) *)



(** ** Move rendering ([uci.cpp]) *)

Local Open Scope string_scope.

Definition char_of_Z (z : Z) : ascii := ascii_of_N (Z.to_N (Z.modulo z 256)).

(** [std::string UCI::square(Square s)]: ['a' + file], ['1' + rank]. *)
Definition UCI_square (s : Z) : string :=
  String (char_of_Z (97 + file_of s))
    (String (char_of_Z (49 + rank_of s)) EmptyString).

(** The character [" pnbrqk"[pt]]. *)
Definition promotion_letter (pt : PieceType) : ascii :=
  match String.get (Z.to_nat (PieceType_to_Z pt)) " pnbrqk" with
  | Some c => c
  | None => " "%char
  end.

(** [std::string UCI::move(Move m, bool chess960)]. *)
Definition UCI_move (m : Move) (chess960 : bool) : string :=
  if Move_eqb m Move_none then "(none)"
  else if Move_eqb m Move_null then "0000"
  else
    let from := from_sq m in
    let to := to_sq m in
    let to :=
      if MoveType_eqb (type_of m) CASTLING && negb chess960
      then make_square (if (to >? from)%Z then FILE_G else FILE_C) (rank_of from)
      else to in
    let move := UCI_square from ++ UCI_square to in
    if MoveType_eqb (type_of m) PROMOTION
    then move ++ String (promotion_letter (promotion_type m)) EmptyString
    else move.

Local Close Scope string_scope.

(** ** Continuation histories ([search.cpp])

    The search stack is an array of frames addressed relative to [ss]; a
    frame's [continuationHistory] points to one [PieceToHistory] table of
    the thread.  Tables are named by their address, so that two frames
    pointing to the same table share its entries. *)

Record StackFrame : Type := {
  sf_currentMove : Move;
  sf_continuationHistory : Z;
  sf_inCheck : bool
}.

(** A write [table[pc][to] << amount] made through the frame at [ss - i]. *)
Record HistoryWrite : Type := {
  hw_offset : Z;
  hw_table : Z;
  hw_piece : Piece;
  hw_to : Z;
  hw_amount : Z
}.

Definition ContinuationHistories : Type := Z -> Piece -> Z -> Z.

Section ContinuationHistory.

(** The saturation limit of a [PieceToHistory] entry ([movepick.h]). *)
Variable D : Z.

(** Modelled from the spec: the entry update [<<] of the missing
    [movepick.h], a saturating add of the form
    [v += bonus - v * |bonus| / limit]. *)
Definition stats_update (v bonus : Z) : Z :=
  v + (bonus - Z.quot (v * Z.abs bonus) D).

Definition apply_write (h : ContinuationHistories) (w : HistoryWrite)
    : ContinuationHistories :=
  fun t pc to =>
    if (t =? hw_table w) && Piece_eqb pc (hw_piece w) && (to =? hw_to w)
    then stats_update (h t pc to) (hw_amount w)
    else h t pc to.

(** The body of the range-for of [update_continuation_histories], over
    the offsets still to visit. *)
Fixpoint continuation_writes (stack : Z -> StackFrame) (ss : Z) (pc : Piece)
    (to bonus : Z) (offsets : list Z) : list HistoryWrite :=
  match offsets with
  | [] => []
  | i :: rest =>
      if sf_inCheck (stack ss) && (i >? 2) then []
      else
        let w := {| hw_offset := i;
                    hw_table := sf_continuationHistory (stack (ss - i));
                    hw_piece := pc; hw_to := to;
                    hw_amount := Z.quot bonus (1 + 3 * b2z (i =? 3)) |} in
        if Move_is_ok (sf_currentMove (stack (ss - i)))
        then w :: continuation_writes stack ss pc to bonus rest
        else continuation_writes stack ss pc to bonus rest
  end.

(** [void update_continuation_histories(Stack* ss, Piece pc, Square to,
    int bonus)]: the writes it makes, in order, and their effect. *)
Definition update_continuation_writes (stack : Z -> StackFrame) (ss : Z)
    (pc : Piece) (to bonus : Z) : list HistoryWrite :=
  continuation_writes stack ss pc to bonus [1; 2; 3; 4; 6].

Definition update_continuation_histories (stack : Z -> StackFrame) (ss : Z)
    (pc : Piece) (to bonus : Z) (h : ContinuationHistories)
    : ContinuationHistories :=
  fold_left apply_write (update_continuation_writes stack ss pc to bonus) h.

End ContinuationHistory.

(** ** The three score conversions side by side

    The repository holds three instances of the conversion pair: the
    modern one and the classic one at [SearchMate = false] and
    [SearchMate = true]. *)

Inductive Searcher : Type :=
  | Modern
  | ClassicSearcher (SearchMate : bool).

Section TTInstances.
Context `{K : ValueConsts}.

Definition tt_store (s : Searcher) (v ply : Z) : Z :=
  match s with
  | Modern => value_to_tt v ply
  | ClassicSearcher _ => Classic.value_to_tt v ply
  end.

Definition tt_load (s : Searcher) (tv ply r50c : Z) : Z :=
  match s with
  | Modern => value_from_tt tv ply r50c
  | ClassicSearcher sm => Classic.value_from_tt sm tv ply r50c
  end.

Definition tt_window (s : Searcher) (tv r50c : Z) : bool :=
  match s with
  | Modern => false_mate_window tv r50c
  | ClassicSearcher sm => Classic.false_mate_window sm tv r50c
  end.

End TTInstances.

(** ** The null-move reduction as formulas

    [claimed_null_move_R] follows the spec's words,
    [R = min((eval - beta)/168, 6) + depth/3 + 4], with the mathematical
    (floor) division; [modern_null_move_formula],
    [classic_null_move_formula] and [classic_mate_null_move_formula] are
    the three reductions the sources compute (the modern searcher, the
    classic [search<nodeType, false>] and the classic
    [search<nodeType, true>]), written the same way. *)

Definition claimed_null_move_R (eval beta depth : Z) : Z :=
  Z.min ((eval - beta) / 168) 6 + depth / 3 + 4.

Definition modern_null_move_formula (eval beta depth : Z) : Z :=
  Z.min ((eval - beta) / 144) 6 + depth / 3 + 4.

Definition classic_null_move_formula (eval beta depth complexity : Z) : Z :=
  Z.min ((eval - beta) / 168) 7 + depth / 3 + 4
  - (if complexity >? 861 then 1 else 0).

Definition classic_mate_null_move_formula (eval beta depth : Z) : Z :=
  Z.min ((eval - beta) / 173) 6 + depth / 3 + 4.

(** The null-move step of the modern searcher (either instance) and of
    the classic [search<nodeType, false>]. *)
Inductive NullMoveVariant : Type :=
  | ModernNull (Shashin : bool)
  | ClassicNull.

Section NullMoveVariants.
Context `{K : ValueConsts}.

Definition null_guard_of (v : NullMoveVariant) (PvNode : bool)
    (o : NullMoveObs) (beta depth : Z) : bool :=
  match v with
  | ModernNull Shashin => null_move_guard Shashin PvNode o beta depth
  | ClassicNull => ClassicNullMove.null_move_guard PvNode o beta depth
  end.

Definition null_search_of (v : NullMoveVariant) (PvNode : bool)
    (o : NullMoveObs) (beta depth : Z) (cutNode : bool) : option SearchCall :=
  match v with
  | ModernNull Shashin => null_move_search Shashin PvNode o beta depth cutNode
  | ClassicNull => ClassicNullMove.null_move_search PvNode o beta depth cutNode
  end.

Definition null_formula_of (v : NullMoveVariant) (o : NullMoveObs)
    (beta depth : Z) : Z :=
  match v with
  | ModernNull _ => modern_null_move_formula (nm_eval o) beta depth
  | ClassicNull =>
      classic_null_move_formula (nm_eval o) beta depth (nm_complexity o)
  end.

End NullMoveVariants.

(** ** Concrete nodes, used to evaluate the definitions *)

(** A node in a game cycle whose rule-50 counter is still 0. *)
Definition cycle_node : NodeObs :=
  {| ss_ply := 4; pos_has_game_cycle := true; pos_rule50_count := 0;
     pos_is_draw := false; pos_checkers := false; thread_nodes := 0;
     threads_stop := false; evaluate_pos := 57 |}.

(** A node in a game cycle whose rule-50 counter stands at 10. *)
Definition late_cycle_node : NodeObs :=
  {| ss_ply := 4; pos_has_game_cycle := true; pos_rule50_count := 10;
     pos_is_draw := false; pos_checkers := false; thread_nodes := 0;
     threads_stop := false; evaluate_pos := 57 |}.



(** A quiet node whose evaluation [ev] is well above [beta = 100]. *)
Definition null_move_node (ev : Z) : NullMoveObs :=
  {| nm_prev_is_null := false; nm_prev_statScore := 0;
     nm_eval := ev; nm_staticEval := ev;
     nm_excludedMove := Move_none; nm_non_pawn_material := 1000;
     nm_ply := 5; nm_nmpMinPly := 0;
     nm_high_middle := false; nm_position_tal := false;
     nm_nmpGuard := false; nm_gameCycle := false; nm_kingDanger := false;
     nm_rootDepth := 20; nm_ourMove := true; nm_legal_moves := 30;
     nm_improvement := 0; nm_complexity := 0; nm_us_is_nmpColor := false;
     nm_previousScore := 0 |}.

(** A tablebase probe that answers "loss" ([wdl = -2]). *)
Definition losing_probe : TBObs :=
  {| tb_Cardinality := 6; tb_ProbeDepth := 1; tb_UseRule50 := true;
     tb_piecesCount := 5; tb_can_castle := false; tb_probe_failed := false;
     tb_wdl := -2 |}.

(** A tablebase probe that answers "draw" ([wdl = 0]). *)
Definition drawn_probe : TBObs :=
  {| tb_Cardinality := 6; tb_ProbeDepth := 1; tb_UseRule50 := true;
     tb_piecesCount := 5; tb_can_castle := false; tb_probe_failed := false;
     tb_wdl := 0 |}.

(** The locals of a node at ply 3 whose move loop searched no move:
    no excluded move unless [excl] is one, the window [[alpha, 200]] and a
    tablebase cap [maxValue]. *)
Definition no_move_exit (excl : Move) (inCheck : bool) (alpha maxValue : Z)
    : LoopExit :=
  {| le_moveCount := 0; le_excludedMove := excl; le_inCheck := inCheck;
     le_ply := 3; le_alpha := alpha; le_beta := 200;
     le_bestValue := -32001; le_bestMove := Move_none;
     le_bestMove_captures := false; le_maxValue := maxValue;
     le_depth := 4; le_cutNode := false; le_priorCapture := false;
     le_prevSq := 12; le_prev_statScore := 0; le_prev_moveCount := 1;
     le_ttPv := false; le_prev_ttPv := false; le_pvIdx := 0;
     le_staticEval := 0; le_unadjustedStaticEval := 0;
     le_capablanca := false |}.

(** A quiescence node at ply 3, not in check, without a
    transposition-table entry, whose evaluation is [ev]. *)
Definition quiet_qnode (ev : Z) : QNodeObs :=
  {| q_ply := 3; q_has_game_cycle := false; q_nodes := 0;
     q_is_draw := false; q_inCheck := false; q_evaluate := ev;
     q_high_tal := false; q_ttHit := false; q_tte_value := 0;
     q_tte_eval := 0; q_tte_bound := BOUND_NONE; q_tte_depth := -6;
     q_rule50 := 0; q_correction := 0; q_prev_is_null := false;
     q_prev_staticEval := 0; q_non_pawn_material := 1000 |}.


(** ** The three placement operations as one step

    [placement_allowed] is what the claim asks of each operation: squares
    inside the board, [put_piece] of a real piece onto an empty square,
    [remove_piece] of an occupied square, [move_piece] from an occupied
    square to an empty one. *)

Inductive PlacementOp : Type :=
  | PutPiece (pc : Piece) (s : Z)
  | RemovePiece (s : Z)
  | MovePiece (from to : Z).

Definition placement_allowed (pos : Position) (op : PlacementOp) : Prop :=
  match op with
  | PutPiece pc s =>
      is_board_piece pc = true /\ is_ok_square s = true /\ empty_square pos s
  | RemovePiece s =>
      is_ok_square s = true /\ occupied_square pos s
  | MovePiece from to =>
      is_ok_square from = true /\ is_ok_square to = true
      /\ occupied_square pos from /\ empty_square pos to
  end.

Definition apply_placement (PSQT_psq : Piece -> Z -> Z) (op : PlacementOp)
    (pos : Position) : Position :=
  match op with
  | PutPiece pc s => put_piece PSQT_psq pc s pos
  | RemovePiece s => remove_piece PSQT_psq s pos
  | MovePiece from to => move_piece PSQT_psq from to pos
  end.

(** The invariant read at one bit: [T] tells which piece-type boards have
    the bit, [A], [W], [B] whether the occupancy, the white and the black
    board have it. *)
Definition bit_invariant (T : PieceType -> bool) (A W B : bool) : Prop :=
  A = W || B
  /\ (forall p q, In p piece_types -> In q piece_types -> p <> q ->
        T p && T q = false)
  /\ existsb T piece_types = A.

(** The empty board, and a board with the white king on e1 and a white
    rook on h1. *)
Definition empty_position : Position :=
  {| board := fun _ => NO_PIECE; byTypeBB := fun _ => 0;
     byColorBB := fun _ => 0; pieceCount := fun _ => 0; psq := 0 |}.

Definition no_psqt : Piece -> Z -> Z := fun _ _ => 0.

Definition king_and_rook : Position :=
  put_piece no_psqt (make_piece WHITE ROOK) 7
    (put_piece no_psqt (make_piece WHITE KING) 4 empty_position).

(** A quiet move, a search stack whose frames all hold it (frame [i]
    pointing to table [i]), and all-zero history tables. *)
Definition e2e4 : Move := mkMove 12 28 KNIGHT NORMAL.

Definition busy_stack (inCheck : bool) : Z -> StackFrame :=
  fun i => {| sf_currentMove := e2e4; sf_continuationHistory := i;
              sf_inCheck := inCheck |}.

Definition zero_histories : ContinuationHistories := fun _ _ _ => 0.

(** Castling e1-h1 ("king takes rook"), as [Move::make<CASTLING>] builds
    it, and the same move with the promotion field set to queen. *)
Definition castle_short : Move := Move_make CASTLING 4 7 KNIGHT.


(** The promotions a7-a8 to a queen and g7xh8 to a knight. *)
Definition a7a8q : Move := Move_make PROMOTION 48 56 QUEEN.

Definition g7h8n : Move := Move_make PROMOTION 54 63 KNIGHT.

(** ** Further concrete nodes *)

(** [quiet_qnode] with the side to move in check. *)
Definition check_qnode : QNodeObs :=
  {| q_ply := 3; q_has_game_cycle := false; q_nodes := 0;
     q_is_draw := false; q_inCheck := true; q_evaluate := 0;
     q_high_tal := false; q_ttHit := false; q_tte_value := 0;
     q_tte_eval := 0; q_tte_bound := BOUND_NONE; q_tte_depth := -6;
     q_rule50 := 0; q_correction := 0; q_prev_is_null := false;
     q_prev_staticEval := 0; q_non_pawn_material := 1000 |}.

(** A pseudo-legal move that leaves the own king in check. *)
Definition illegal_move : QMove :=
  {| qm_move := mkMove 12 28 KNIGHT NORMAL; qm_legal := false;
     qm_givesCheck := false; qm_capture := false; qm_capture_stage := false;
     qm_to_is_prevSq := false; qm_victim_value := 0;
     qm_see_ge := fun _ => true; qm_contHist0 := 0; qm_contHist1 := 0;
     qm_child := fun _ _ => 0 |}.

(** The locals of a node at ply 3 whose move loop failed high on a quiet
    move with the score 250 against [beta = 200]. *)
Definition fail_high_exit : LoopExit :=
  {| le_moveCount := 3; le_excludedMove := Move_none; le_inCheck := false;
     le_ply := 3; le_alpha := -200; le_beta := 200;
     le_bestValue := 250; le_bestMove := mkMove 12 28 KNIGHT NORMAL;
     le_bestMove_captures := false; le_maxValue := 32001;
     le_depth := 4; le_cutNode := false; le_priorCapture := false;
     le_prevSq := 12; le_prev_statScore := 0; le_prev_moveCount := 1;
     le_ttPv := false; le_prev_ttPv := false; le_pvIdx := 0;
     le_staticEval := 40; le_unadjustedStaticEval := 40;
     le_capablanca := false |}.

(** Two positions hold the same placement data: the board array, the
    bitboards, the piece counts and the piece-square score agree entry
    by entry. *)
Definition same_position (p q : Position) : Prop :=
  (forall s, board p s = board q s)
  /\ (forall pt, byTypeBB p pt = byTypeBB q pt)
  /\ (forall c, byColorBB p c = byColorBB q c)
  /\ (forall pc, pieceCount p pc = pieceCount q pc)
  /\ psq p = psq q.

(** ** Steps 4 and 7 to 11 of [search]: the early cutoffs

    What these steps read from the search stack, the thread, the
    transposition-table entry and the style layer.  [po_ttValue] is the
    local [ttValue] ([VALUE_NONE] without a hit); [po_high_tal] and
    [po_capablanca] tell whether [shashinWinProbabilityRange] is
    [SHASHIN_POSITION_HIGH_TAL], [SHASHIN_POSITION_CAPABLANCA];
    [po_high_middle] and [po_position_tal] are the answers of
    [isShashinHighMiddle] and [isShashinPositionTal]. *)

Record PruningObs : Type := {
  po_excludedMove : Move;
  po_eval : Z;
  po_improving : bool;
  po_ttPv : bool;
  po_ttHit : bool;
  po_ttMove : Move;
  po_ttCapture : bool;
  po_ttValue : Z;
  po_tte_depth : Z;
  po_tte_bound : Bound;
  po_rule50 : Z;
  po_prev_statScore : Z;
  po_prev_moveCount : Z;
  po_next_cutoffCnt : Z;
  po_ourMove : bool;
  po_gameCycle : bool;
  po_kingDanger : bool;
  po_nmpGuard : bool;
  po_nullParity : bool;
  po_high_tal : bool;
  po_capablanca : bool;
  po_high_middle : bool;
  po_position_tal : bool
}.

(** A capture the ProbCut loop tries: [pm_qsearch a b] and [pm_search c]
    are the values of the calls [qsearch<NonPV>(pos, ss + 1, a, b)] and
    [search<NonPV>(pos, ss + 1, ...)] after the move is made. *)
Record ProbCutMove : Type := {
  pm_move : Move;
  pm_legal : bool;
  pm_qsearch : Z -> Z -> Z;
  pm_search : SearchCall -> Z
}.

Section EarlyCutoffs.
Context `{K : ValueConsts}.

(** [VALUE_KNOWN_WIN] of the missing [types.h]. *)
Variable VALUE_KNOWN_WIN : Z.

Variables (Shashin PvNode : bool).

(** The early transposition-table cutoff of Step 4.  The history updates
    made on the way leave the returned score alone and are not written
    out. *)
Definition tt_cutoff_step (o : PruningObs) (beta depth : Z) : Flow unit :=
  if negb PvNode
     && negb (Move_to_bool (po_excludedMove o))
     && (negb Shashin
         || ((negb (po_gameCycle o)
              && (negb (po_ourMove o) || (beta <? VALUE_MATE_IN_MAX_PLY))
              && (negb (po_ttValue o =? VALUE_DRAW) || (VALUE_DRAW >=? beta)))
             || (negb (po_high_tal o) && negb (po_capablanca o))))
     && (po_tte_depth o >? depth)
     && negb (po_ttValue o =? VALUE_NONE)
     && bound_and (po_tte_bound o)
          (if po_ttValue o >=? beta then BOUND_LOWER else BOUND_UPPER)
  then
    if po_rule50 o <? 90 then
      Return (if (po_ttValue o >=? beta)
                 && (Z.abs (po_ttValue o) <? VALUE_TB_WIN_IN_MAX_PLY)
              then Z.quot (po_ttValue o * 3 + beta) 4
              else po_ttValue o)
    else Next tt
  else Next tt.

(** Step 7, razoring.  [qs a b] is the value of the call
    [qsearch<NonPV>(pos, ss, a, b)]. *)
Definition razoring_step (o : PruningObs) (qs : Z -> Z -> Z)
    (alpha depth : Z) : Flow unit :=
  if negb Shashin
     || (negb (po_ourMove o)
         || (negb (po_high_tal o) && negb (po_capablanca o))) then
    if po_eval o <?
       alpha - 472 - (284 - 165 * b2z (po_next_cutoffCnt o >? 3)) * depth * depth
    then
      let value := qs (alpha - 1) alpha in
      if value <? alpha then Return value else Next tt
    else Next tt
  else Next tt.

(** [Value futility_margin(Depth d, bool noTtCutNode, bool improving)]. *)
Definition futility_margin (d : Z) (noTtCutNode improving : bool) : Z :=
  (116 - 44 * b2z noTtCutNode) * (d - b2z improving).

(** Step 8, futility pruning of the child node. *)
Definition futility_step (o : PruningObs) (alpha beta depth : Z)
    (cutNode : bool) : Flow unit :=
  let common :=
    negb (po_ttPv o)
    && (depth <? 9)
    && (po_eval o
        - futility_margin depth (cutNode && negb (po_ttHit o)) (po_improving o)
        - Z.quot (po_prev_statScore o) 337 >=? beta)
    && (po_eval o >=? beta) in
  if (negb Shashin
      && (common
          && (po_eval o <? 29008)
          && (negb (Move_to_bool (po_ttMove o)) || po_ttCapture o)))
     || (Shashin
         && (common
             && (((negb (po_kingDanger o) && negb (po_gameCycle o)
                   && negb (po_nmpGuard o && po_nullParity o)
                   && (Z.abs alpha <? VALUE_KNOWN_WIN))
                  && (negb (po_high_middle o) && po_position_tal o))
                 || ((po_eval o <? 29008)
                     && (po_high_middle o || negb (po_position_tal o))))))
  then Return (if beta >? VALUE_TB_LOSS_IN_MAX_PLY
               then Z.quot (po_eval o + beta) 2 else po_eval o)
  else Next tt.

(** Step 9 in full: the null-move search of [null_move_search], the test
    of its value and the verification search at high depths.  The thread's
    [nmpMinPly] is threaded through: [null_child c n] and
    [verify_child c n] are the value and the [nmpMinPly] left behind by
    the two recursive calls, started with [nmpMinPly = n].  The style
    layer's flags [nmpSide], [nmpGuard] and [nmpGuardV], written around the
    calls, are not written out. *)
Definition null_move_step (o : NullMoveObs) (capablanca high_tal : bool)
    (null_child verify_child : SearchCall -> Z -> Z * Z)
    (beta depth : Z) (cutNode : bool) : Flow unit * Z :=
  match null_move_search Shashin PvNode o beta depth cutNode with
  | None => (Next tt, nm_nmpMinPly o)
  | Some call =>
      let (cv, minPly1) := null_child call (nm_nmpMinPly o) in
      let nullValue := - cv in
      if (nullValue >=? beta) && (nullValue <? VALUE_TB_WIN_IN_MAX_PLY) then
        if negb (minPly1 =? 0) || (depth <? 15) then (Return nullValue, minPly1)
        else
          let minPly2 :=
            if negb Shashin || negb capablanca
            then nm_ply o + Z.quot (3 * call_depth call) 4
            else minPly1 in
          let (v, minPly3) :=
            verify_child {| call_alpha := beta - 1; call_beta := beta;
                            call_depth := call_depth call;
                            call_cutNode := false |} minPly2 in
          let minPly4 :=
            if negb Shashin || negb high_tal then 0 else minPly3 in
          if v >=? beta then (Return nullValue, minPly4)
          else (Next tt, minPly4)
      else (Next tt, minPly1)
  end.


(** Step 11, ProbCut: the guard, and the loop over the captures the
    [MovePicker] yields. *)
Definition probcut_guard (o : PruningObs) (beta depth probCutBeta : Z) : bool :=
  let tt_refutes :=
    (po_tte_depth o >=? depth - 3)
    && negb (po_ttValue o =? VALUE_NONE)
    && (po_ttValue o <? probCutBeta) in
  (negb Shashin
   && (negb PvNode
       && (depth >? 3)
       && (Z.abs beta <? VALUE_TB_WIN_IN_MAX_PLY)
       && negb tt_refutes))
  || (Shashin
      && ((depth >? 3)
          && ((po_high_tal o
               && (Z.abs beta <? VALUE_MATE_IN_MAX_PLY)
               && (po_ttCapture o || negb (Move_to_bool (po_ttMove o)))
               && (negb (po_ttHit o) || (po_tte_depth o <? depth - 3)))
              || (negb (po_high_tal o)
                  && negb PvNode
                  && (Z.abs beta <? VALUE_TB_WIN_IN_MAX_PLY)
                  && negb tt_refutes)))).

Fixpoint probcut_loop (o : PruningObs) (beta depth probCutBeta : Z)
    (cutNode : bool) (ms : list ProbCutMove) : Flow unit :=
  match ms with
  | [] => Next tt
  | m :: rest =>
      if negb (Move_eqb (pm_move m) (po_excludedMove o)) && pm_legal m then
        let value := - pm_qsearch m (- probCutBeta) (- probCutBeta + 1) in
        let value :=
          if value >=? probCutBeta
          then - pm_search m {| call_alpha := - probCutBeta;
                                call_beta := - probCutBeta + 1;
                                call_depth := depth - 4;
                                call_cutNode := negb cutNode |}
          else value in
        if value >=? probCutBeta then
          Return (if Z.abs value <? VALUE_TB_WIN_IN_MAX_PLY
                  then value - (probCutBeta - beta) else value)
        else probcut_loop o beta depth probCutBeta cutNode rest
      else probcut_loop o beta depth probCutBeta cutNode rest
  end.

Definition probcut_step (o : PruningObs) (beta depth : Z) (cutNode : bool)
    (ms : list ProbCutMove) : Flow unit :=
  let probCutBeta := beta + 163 - 67 * b2z (po_improving o) in
  if probcut_guard o beta depth probCutBeta
  then probcut_loop o beta depth probCutBeta cutNode ms
  else Next tt.

End EarlyCutoffs.

(** A quiet non-PV node seen by the early cutoffs: evaluation [ev], no
    transposition-table entry, the style layer idle. *)
Definition pruning_node (ev : Z) : PruningObs :=
  {| po_excludedMove := Move_none; po_eval := ev; po_improving := false;
     po_ttPv := false; po_ttHit := false; po_ttMove := Move_none;
     po_ttCapture := false; po_ttValue := 32002; po_tte_depth := -6;
     po_tte_bound := BOUND_NONE; po_rule50 := 0; po_prev_statScore := 0;
     po_prev_moveCount := 1; po_next_cutoffCnt := 0; po_ourMove := true;
     po_gameCycle := false; po_kingDanger := false; po_nmpGuard := false;
     po_nullParity := false; po_high_tal := false; po_capablanca := false;
     po_high_middle := false; po_position_tal := false |}.

(** The same node with a transposition-table entry of depth 12 whose
    score [tv] is a lower bound. *)
Definition tt_hit_node (ev tv : Z) : PruningObs :=
  {| po_excludedMove := Move_none; po_eval := ev; po_improving := false;
     po_ttPv := false; po_ttHit := true; po_ttMove := Move_none;
     po_ttCapture := false; po_ttValue := tv; po_tte_depth := 12;
     po_tte_bound := BOUND_LOWER; po_rule50 := 0; po_prev_statScore := 0;
     po_prev_moveCount := 1; po_next_cutoffCnt := 0; po_ourMove := true;
     po_gameCycle := false; po_kingDanger := false; po_nmpGuard := false;
     po_nullParity := false; po_high_tal := false; po_capablanca := false;
     po_high_middle := false; po_position_tal := false |}.

(** A legal capture whose subtree is worth [v] to the mover, seen by the
    ProbCut loop. *)
Definition probcut_capture (v : Z) : ProbCutMove :=
  {| pm_move := mkMove 12 28 KNIGHT NORMAL; pm_legal := true;
     pm_qsearch := fun _ _ => - v; pm_search := fun _ => - v |}.

(** ** The aspiration window of the iterative-deepening loop
    ([Thread::search], [search.cpp]) *)

Record Aspiration : Type := {
  asp_alpha : Z;
  asp_beta : Z;
  asp_delta : Z;
  asp_failedHighCnt : Z
}.

Section AspirationWindow.
Context `{K : ValueConsts}.

(** What the classic searcher sets before the first iteration:
    [delta = alpha = -VALUE_INFINITE; beta = VALUE_INFINITE]. *)
Definition classic_initial_window : Aspiration :=
  {| asp_alpha := - VALUE_INFINITE;
     asp_beta := VALUE_INFINITE;
     asp_delta := - VALUE_INFINITE;
     asp_failedHighCnt := 0 |}.

(** The reset of the window before a PV line is searched, around the
    root move's [averageScore]; [w] is what [alpha], [beta] and [delta]
    hold at that point.  The modern searcher always resets them; the
    classic one only from [rootDepth >= 4] on, with its own constants, and
    leaves them alone below.  [failedHighCnt] starts at 0 in each case. *)
Definition aspiration_start (useClassic : bool) (rootDepth avg : Z)
    (w : Aspiration) : Aspiration :=
  if negb useClassic then
    let delta := 9 + Z.quot (avg * avg) 14847 in
    {| asp_alpha := Z.max (avg - delta) (- VALUE_INFINITE);
       asp_beta := Z.min (avg + delta) VALUE_INFINITE;
       asp_delta := delta;
       asp_failedHighCnt := 0 |}
  else if rootDepth >=? 4 then
    let delta := 10 + Z.quot (avg * avg) 15620 in
    {| asp_alpha := Z.max (avg - delta) (- VALUE_INFINITE);
       asp_beta := Z.min (avg + delta) VALUE_INFINITE;
       asp_delta := delta;
       asp_failedHighCnt := 0 |}
  else
    {| asp_alpha := asp_alpha w;
       asp_beta := asp_beta w;
       asp_delta := asp_delta w;
       asp_failedHighCnt := 0 |}.

(** The depth of the root search of one turn of the aspiration loop;
    [high_tal] tells whether the style layer's range is
    [SHASHIN_POSITION_HIGH_TAL]. *)
Definition adjustedDepth (useClassic useShashin high_tal : bool)
    (rootDepth failedHighCnt searchAgainCounter : Z) : Z :=
  if useClassic || negb useShashin || negb high_tal
  then Z.max 1 (rootDepth - failedHighCnt
                - Z.quot (3 * (searchAgainCounter + 1)) 4)
  else rootDepth.

(** What follows the root search in one turn of the loop: [None] is
    [break] (the search was stopped, or [bestValue] fell inside the
    window), otherwise the window, [delta] and [failedHighCnt] of the
    re-search. *)
Definition aspiration_update (useClassic stop : bool) (bestValue : Z)
    (w : Aspiration) : option Aspiration :=
  let delta' := asp_delta w
                + (if useClassic then Z.quot (asp_delta w) 4 + 2
                   else Z.quot (asp_delta w) 3) in
  if stop then None
  else if bestValue <=? asp_alpha w then
    Some {| asp_alpha := Z.max (bestValue - asp_delta w) (- VALUE_INFINITE);
            asp_beta := Z.quot (asp_alpha w + asp_beta w) 2;
            asp_delta := delta';
            asp_failedHighCnt := 0 |}
  else if bestValue >=? asp_beta w then
    Some {| asp_alpha := asp_alpha w;
            asp_beta := Z.min (bestValue + asp_delta w) VALUE_INFINITE;
            asp_delta := delta';
            asp_failedHighCnt := asp_failedHighCnt w + 1 |}
  else None.

End AspirationWindow.

(** ** The principal variation ([update_pv], [search.cpp])

    A PV is an array of moves ended by [Move::none()].  The array [pv]
    points into and, unless [childPv] is [nullptr], the array [childPv]
    points into are lists; reading or writing beyond an array is
    undefined in C++ and is [None] here. *)

(** [a[i] = v]. *)
Definition store {A : Type} (a : list A) (i : nat) (v : A) : option (list A) :=
  if (i <? List.length a)%nat then Some (firstn i a ++ v :: skipn (S i) a)
  else None.

(** The loop [for (...; *childPv != Move::none();) *pv++ = *childPv++;]
    followed by [*pv = Move::none()], with [pv] at index [i]. *)
Fixpoint update_pv_loop (pv : list Move) (i : nat) (childPv : list Move)
    : option (list Move) :=
  match childPv with
  | [] => None
  | m :: rest =>
      if Move_eqb m Move_none then store pv i Move_none
      else match store pv i m with
           | Some pv' => update_pv_loop pv' (S i) rest
           | None => None
           end
  end.

(** [void update_pv(Move* pv, Move move, const Move* childPv)]. *)
Definition update_pv (pv : list Move) (move : Move)
    (childPv : option (list Move)) : option (list Move) :=
  match store pv 0 move with
  | None => None
  | Some pv1 =>
      match childPv with
      | None => store pv1 1 Move_none
      | Some child => update_pv_loop pv1 1 child
      end
  end.

(** The moves of a PV array, up to the first [Move::none()]. *)
Fixpoint pv_line (a : list Move) : list Move :=
  match a with
  | [] => []
  | m :: rest => if Move_eqb m Move_none then [] else m :: pv_line rest
  end.

(** Whether the array holds a [Move::none()] at all. *)
Definition pv_terminated (a : list Move) : bool :=
  existsb (fun m => Move_eqb m Move_none) a.

(** The line of the child: empty for [nullptr]. *)
Definition child_line (childPv : option (list Move)) : list Move :=
  match childPv with
  | None => []
  | Some child => pv_line child
  end.

Definition child_terminated (childPv : option (list Move)) : bool :=
  match childPv with
  | None => true
  | Some child => pv_terminated child
  end.

(** ** Move-ordering statistics of a quiet move ([update_quiet_stats],
    [search.cpp]) *)

(** The table writes of [update_quiet_stats], in order. *)
Inductive QuietWrite : Type :=
  | MainHistoryWrite (us : Color) (m : Move) (bonus : Z)
  | ContinuationWrite (w : HistoryWrite)
  | CounterMoveWrite (pc : Piece) (prevSq : Z) (m : Move).

(** [Position::moved_piece(Move m)] ([position.h]). *)
Definition moved_piece (pos : Position) (m : Move) : Piece :=
  piece_on pos (from_sq m).

(** The killer update: [ss->killers] as a pair. *)
Definition update_killers (killers : Move * Move) (move : Move) : Move * Move :=
  if negb (Move_eqb (fst killers) move) then (move, fst killers)
  else killers.

(** [void update_quiet_stats(const Position& pos, Stack* ss, Move move,
    int bonus)]: the killers of [ss] afterwards, and the writes made. *)
Definition update_quiet_stats (pos : Position) (us : Color)
    (stack : Z -> StackFrame) (ss : Z) (killers : Move * Move)
    (move : Move) (bonus : Z) : (Move * Move) * list QuietWrite :=
  (update_killers killers move,
   MainHistoryWrite us move bonus
   :: map ContinuationWrite
        (update_continuation_writes stack ss (moved_piece pos move)
           (to_sq move) bonus)
   ++ (if Move_is_ok (sf_currentMove (stack (ss - 1)))
       then let prevSq := to_sq (sf_currentMove (stack (ss - 1))) in
            [CounterMoveWrite (piece_on pos prevSq) prevSq move]
       else [])).

(** ** Polling the clock ([MainThread::check_time], [search.cpp]) *)

(** The machine integers of the function: [callsCnt] is an [int], the
    limits and the clock values ([TimePoint]) are 64-bit signed integers,
    and the node counter is a [uint64_t].  [INT_MIN] is [-2^31]; [to_int]
    is the narrowing [int(x)] of a 64-bit value, which keeps the low 32
    bits; [to_uint64] is the conversion [uint64_t(x)]; [is_int64] tells
    whether a sum or difference of 64-bit signed values can be
    represented. *)
Definition INT_MIN : Z := -2147483648.

Definition to_int (z : Z) : Z := (z + 2147483648) mod 4294967296 - 2147483648.

Definition to_uint64 (z : Z) : Z := z mod 18446744073709551616.

Definition is_int64 (z : Z) : bool :=
  (-9223372036854775808 <=? z) && (z <? 9223372036854775808).

(** What the function keeps between calls: the countdown [callsCnt], the
    pool's stop flag and the function-local static [lastInfoTime]. *)
Record TimeState : Type := {
  ts_callsCnt : Z;
  ts_stop : bool;
  ts_lastInfoTime : Z
}.

(** What it reads: the search limits, the clock and the node counter. *)
Record TimeObs : Type := {
  to_limits_nodes : Z;
  to_limits_movetime : Z;
  to_limits_startTime : Z;
  to_use_time_management : bool;
  to_elapsed : Z;
  to_maximum : Z;
  to_ponder : bool;
  to_stopOnPonderhit : bool;
  to_nodes_searched : Z
}.

(** [void MainThread::check_time()]: the state afterwards, and whether
    [dbg_print] was called.  [None] stands for a call whose behaviour the
    language leaves undefined, a signed overflow: of [--callsCnt] at
    [INT_MIN], of [Limits.startTime + elapsed], or of
    [tick - lastInfoTime]. *)
Definition check_time (o : TimeObs) (s : TimeState)
    : option (TimeState * bool) :=
  if ts_callsCnt s =? INT_MIN then None
  else
    let cnt := ts_callsCnt s - 1 in
    if cnt >? 0 then
      Some ({| ts_callsCnt := cnt; ts_stop := ts_stop s;
               ts_lastInfoTime := ts_lastInfoTime s |}, false)
    else
      let cnt' := if negb (to_limits_nodes o =? 0)
                  then Z.min 512 (to_int (Z.quot (to_limits_nodes o) 1024))
                  else 512 in
      let tick := to_limits_startTime o + to_elapsed o in
      if negb (is_int64 tick && is_int64 (tick - ts_lastInfoTime s)) then None
      else
        let info := tick - ts_lastInfoTime s >=? 1000 in
        let last' := if info then tick else ts_lastInfoTime s in
        if to_ponder o then
          Some ({| ts_callsCnt := cnt'; ts_stop := ts_stop s;
                   ts_lastInfoTime := last' |}, info)
        else if (to_use_time_management o
                 && ((to_elapsed o >? to_maximum o) || to_stopOnPonderhit o))
                || (negb (to_limits_movetime o =? 0)
                    && (to_elapsed o >=? to_limits_movetime o))
                || (negb (to_limits_nodes o =? 0)
                    && (to_nodes_searched o
                        >=? to_uint64 (to_limits_nodes o)))
        then Some ({| ts_callsCnt := cnt'; ts_stop := true;
                      ts_lastInfoTime := last' |}, info)
        else Some ({| ts_callsCnt := cnt'; ts_stop := ts_stop s;
                      ts_lastInfoTime := last' |}, info).

(** [n] calls in a row, each seeing its own clock and counters. *)
Fixpoint check_time_calls (os : list TimeObs) (s : TimeState)
    : option TimeState :=
  match os with
  | [] => Some s
  | o :: rest =>
      match check_time o s with
      | Some (s', _) => check_time_calls rest s'
      | None => None
      end
  end.

(** ** The rule-50 part of the position key ([position.h]) *)

Section Key50.

(** [make_key] of the missing [misc.h]. *)
Variable make_key : Z -> Z.

(** [template<bool AfterMove> Key Position::adjust_key50(Key k)], with
    [st->rule50] as an argument. *)
Definition adjust_key50 (AfterMove : bool) (rule50 k : Z) : Z :=
  if rule50 <? 14 - b2z AfterMove then k
  else Z.lxor k (make_key (Z.quot (rule50 - (14 - b2z AfterMove)) 8)).

End Key50.

(** A time control of one second per move, 400 ms into the search. *)
Definition movetime_obs (elapsed : Z) : TimeObs :=
  {| to_limits_nodes := 0; to_limits_movetime := 1000;
     to_limits_startTime := 0; to_use_time_management := false;
     to_elapsed := elapsed; to_maximum := 0; to_ponder := false;
     to_stopOnPonderhit := false; to_nodes_searched := 0 |}.

(** A second quiet move, and a PV buffer of six entries. *)
Definition d2d4 : Move := mkMove 11 27 KNIGHT NORMAL.

Definition pv_buffer : list Move :=
  [Move_none; Move_none; Move_none; Move_none; Move_none; Move_none].

(** ** Scores on the wire ([UCI::to_cp], [UCI::value], [uci.cpp]) *)

(** [UCI::NormalizeToPawnValue] and [UCI::Classic::NormalizeToPawnValue]
    are declared in the missing [uci.h]; [uci.cpp] pins each of them with
    [static_assert(NormalizeToPawnValue == int(as[0] + as[1] + as[2] +
    as[3]))], the sums being 328.1067... and 361.8462... *)
Definition NormalizeToPawnValue (useClassic : bool) : Z :=
  if useClassic then 361 else 328.

(** [int UCI::to_cp(Value v)] and [int UCI::Classic::to_cp(Value v)]. *)
Definition to_cp (useClassic : bool) (v : Z) : Z :=
  Z.quot (100 * v) (NormalizeToPawnValue useClassic).

(** [ss << n] for an [int n]: its decimal digits, with a minus sign when
    negative. *)
Definition string_of_Z (z : Z) : string := NilZero.string_of_int (Z.to_int z).

Local Open Scope string_scope.

(** [std::string UCI::value(Value v)]; the source asserts
    [-VALUE_INFINITE < v < VALUE_INFINITE]. *)
Definition UCI_value `{ValueConsts} (useClassic : bool) (v : Z) : string :=
  if (Z.abs v <? VALUE_TB_WIN_IN_MAX_PLY)%Z then
    "cp " ++ string_of_Z (to_cp useClassic v)
  else if (Z.abs v <=? VALUE_TB)%Z then
    let ply := (VALUE_TB - 1 - Z.abs v)%Z in
    "cp " ++ string_of_Z (if (v >? 0)%Z then (20000 - ply)%Z
                          else (-20000 + ply)%Z)
  else
    "mate " ++ string_of_Z (Z.quot (if (v >? 0)%Z then (VALUE_MATE - v + 1)%Z
                                    else (- VALUE_MATE - v)%Z) 2).

Local Close Scope string_scope.

(** ** Step 15 of [search]: extensions

    What the step reads about the move at hand, the transposition-table
    entry, the search stack and the history tables ([ex_contHist0] and
    [ex_captureHistory] are the two table entries it looks up). *)

Record ExtensionObs : Type := {
  ex_ply : Z;
  ex_rootDepth : Z;
  ex_move_is_ttMove : bool;
  ex_excludedMove : Move;
  ex_completedDepth : Z;
  ex_tte_is_pv : bool;
  ex_ttValue : Z;
  ex_tte_bound : Bound;
  ex_tte_depth : Z;
  ex_ttPv : bool;
  ex_ttCapture : bool;
  ex_doubleExtensions : Z;
  ex_prev_doubleExtensions : Z;
  ex_givesCheck : bool;
  ex_move_is_killer0 : bool;
  ex_contHist0 : Z;
  ex_to_is_prevSq : bool;
  ex_captureHistory : Z
}.

(** The locals the step leaves behind: [extension], the node's [depth]
    (a double extension may raise it), [newDepth], [singularQuietLMR] and
    the frame's [doubleExtensions]. *)
Record ExtensionResult : Type := {
  er_extension : Z;
  er_depth : Z;
  er_newDepth : Z;
  er_singularQuietLMR : bool;
  er_doubleExtensions : Z
}.

Section Extensions.
Context `{K : ValueConsts}.

(** [singular_search c] is the value of the singular verification
    search [search<NonPV>(pos, ss, c.alpha, c.beta, c.depth, c.cutNode)]
    made with the [ttMove] excluded.  The early return is the multi-cut. *)
Definition extension_step (nt : NodeType) (o : ExtensionObs)
    (singular_search : SearchCall -> Z) (beta depth newDepth : Z)
    (cutNode singularQuietLMR : bool) : Flow ExtensionResult :=
  let PvNode := is_PvNode nt in
  let finish (extension depth' : Z) (sq : bool) : Flow ExtensionResult :=
    Next {| er_extension := extension; er_depth := depth';
            er_newDepth := newDepth + extension;
            er_singularQuietLMR := sq;
            er_doubleExtensions :=
              ex_prev_doubleExtensions o + b2z (extension =? 2) |} in
  if ex_ply o <? ex_rootDepth o * 2 then
    if negb (is_rootNode nt)
       && ex_move_is_ttMove o
       && negb (Move_to_bool (ex_excludedMove o))
       && (depth >=? 4 - b2z (ex_completedDepth o >? 27)
                     + 2 * b2z (PvNode && ex_tte_is_pv o))
       && (Z.abs (ex_ttValue o) <? VALUE_TB_WIN_IN_MAX_PLY)
       && bound_and (ex_tte_bound o) BOUND_LOWER
       && (ex_tte_depth o >=? depth - 3)
    then
      let singularBeta :=
        ex_ttValue o
        - Z.quot ((66 + 58 * b2z (ex_ttPv o && negb PvNode)) * depth) 64 in
      let singularDepth := Z.quot newDepth 2 in
      let value :=
        singular_search {| call_alpha := singularBeta - 1;
                           call_beta := singularBeta;
                           call_depth := singularDepth;
                           call_cutNode := cutNode |} in
      if value <? singularBeta then
        if negb PvNode && (value <? singularBeta - 17)
           && (ex_doubleExtensions o <=? 11)
        then finish 2 (depth + b2z (depth <? 15)) (negb (ex_ttCapture o))
        else finish 1 depth (negb (ex_ttCapture o))
      else if singularBeta >=? beta then Return singularBeta
      else if ex_ttValue o >=? beta
      then finish (-2 - b2z (negb PvNode)) depth singularQuietLMR
      else if cutNode
      then finish (if depth <? 19 then -2 else -1) depth singularQuietLMR
      else if ex_ttValue o <=? value then finish (-1) depth singularQuietLMR
      else finish 0 depth singularQuietLMR
    else if ex_givesCheck o && (depth >? 10)
    then finish 1 depth singularQuietLMR
    else if PvNode && ex_move_is_ttMove o && ex_move_is_killer0 o
            && (ex_contHist0 o >=? 4325)
    then finish 1 depth singularQuietLMR
    else if PvNode && ex_move_is_ttMove o && ex_to_is_prevSq o
            && (ex_captureHistory o >? 4146)
    then finish 1 depth singularQuietLMR
    else finish 0 depth singularQuietLMR
  else finish 0 depth singularQuietLMR.

End Extensions.

(** * Theorems *)

(** ** Transposition-table scores *)

Ltac bool_arith :=
  repeat match goal with
  | H : _ && _ = true |- _ => apply andb_true_iff in H; destruct H
  | H : _ && _ = false |- _ => apply andb_false_iff in H
  | H : _ || _ = true |- _ => apply orb_true_iff in H
  | H : _ || _ = false |- _ => apply orb_false_iff in H; destruct H
  | H : negb _ = true |- _ => apply negb_true_iff in H
  | H : negb _ = false |- _ => apply negb_false_iff in H
  | H : (_ >=? _) = true |- _ => apply Z.geb_le in H
  | H : (_ >=? _) = false |- _ => rewrite Z.geb_leb in H; apply Z.leb_gt in H
  | H : (_ >? _) = true |- _ => rewrite Z.gtb_ltb in H; apply Z.ltb_lt in H
  | H : (_ >? _) = false |- _ => rewrite Z.gtb_ltb in H; apply Z.ltb_ge in H
  | H : (_ <=? _) = true |- _ => apply Z.leb_le in H
  | H : (_ <=? _) = false |- _ => apply Z.leb_gt in H
  | H : (_ <? _) = true |- _ => apply Z.ltb_lt in H
  | H : (_ <? _) = false |- _ => apply Z.ltb_ge in H
  | H : (_ =? _) = true |- _ => apply Z.eqb_eq in H
  | H : (_ =? _) = false |- _ => apply Z.eqb_neq in H
  end.

Ltac case_cond :=
  match goal with
  | |- context [if ?c then _ else _] =>
      let E := fresh "E" in destruct c eqn:E
  end.

Lemma Return_inj (A : Type) (a b : Z) : @Return A a = Return b -> a = b.
Proof. congruence. Qed.

Lemma Next_inj (A : Type) (a b : A) : Next a = Next b -> a = b.
Proof. congruence. Qed.

Section TTValueFacts.
Context `{K : ValueConsts}.

(** Outside the window, [value_from_tt] only undoes the ply shift. *)
Lemma value_from_tt_outside_window (tv ply r50c : Z) :
  tv <> VALUE_NONE ->
  false_mate_window tv r50c = false ->
  value_from_tt tv ply r50c =
    if tv >=? VALUE_TB_WIN_IN_MAX_PLY then tv - ply
    else if tv <=? VALUE_TB_LOSS_IN_MAX_PLY then tv + ply
    else tv.
Proof.
  intros Hnone Hwin. unfold value_from_tt, false_mate_window in *.
  apply Z.eqb_neq in Hnone. rewrite Hnone.
  destruct (tv >=? VALUE_TB_WIN_IN_MAX_PLY).
  - apply orb_false_iff in Hwin. destruct Hwin as [H1 H2].
    now rewrite H1, H2.
  - destruct (tv <=? VALUE_TB_LOSS_IN_MAX_PLY); [|reflexivity].
    apply orb_false_iff in Hwin. destruct Hwin as [H1 H2].
    now rewrite H1, H2.
Qed.

(** Inside the window the stored score is replaced by a bound next to the
    tablebase range, whatever the ply. *)
Lemma value_from_tt_inside_window (tv ply r50c : Z) :
  tv <> VALUE_NONE ->
  false_mate_window tv r50c = true ->
  value_from_tt tv ply r50c = VALUE_TB_WIN_IN_MAX_PLY - 1
  \/ value_from_tt tv ply r50c = VALUE_TB_LOSS_IN_MAX_PLY + 1.
Proof.
  intros Hnone Hwin. unfold value_from_tt, false_mate_window in *.
  apply Z.eqb_neq in Hnone. rewrite Hnone.
  destruct (tv >=? VALUE_TB_WIN_IN_MAX_PLY).
  - left. apply orb_true_iff in Hwin. destruct Hwin as [H1 | H2].
    + now rewrite H1.
    + rewrite H2. now destruct (_ && _).
  - destruct (tv <=? VALUE_TB_LOSS_IN_MAX_PLY); [|discriminate].
    right. apply orb_true_iff in Hwin. destruct Hwin as [H1 | H2].
    + now rewrite H1.
    + rewrite H2. now destruct (_ && _).
Qed.

(** The shift of [value_to_tt] never moves a score across the two
    tablebase thresholds. *)
Lemma value_to_tt_side (v ply : Z) :
  0 <= ply ->
  (value_to_tt v ply >=? VALUE_TB_WIN_IN_MAX_PLY) = (v >=? VALUE_TB_WIN_IN_MAX_PLY)
  /\ ((v >=? VALUE_TB_WIN_IN_MAX_PLY) = false ->
      (value_to_tt v ply <=? VALUE_TB_LOSS_IN_MAX_PLY)
      = (v <=? VALUE_TB_LOSS_IN_MAX_PLY)).
Proof.
  intros Hply. unfold value_to_tt.
  destruct (v >=? VALUE_TB_WIN_IN_MAX_PLY) eqn:E1.
  - split; [|discriminate]. bool_arith. apply Z.geb_le. lia.
  - destruct (v <=? VALUE_TB_LOSS_IN_MAX_PLY) eqn:E2.
    + bool_arith. split.
      * rewrite Z.geb_leb. apply Z.leb_gt. lia.
      * intros _. apply Z.leb_le. lia.
    + split; [exact E1 | intros _; exact E2].
Qed.

Lemma classic_value_to_tt_eq (v ply : Z) :
  Classic.value_to_tt v ply = value_to_tt v ply.
Proof. reflexivity. Qed.

Lemma classic_value_from_tt_outside_window (sm : bool) (tv ply r50c : Z) :
  tv <> VALUE_NONE ->
  Classic.false_mate_window sm tv r50c = false ->
  Classic.value_from_tt sm tv ply r50c =
    if tv >=? VALUE_TB_WIN_IN_MAX_PLY then tv - ply
    else if tv <=? VALUE_TB_LOSS_IN_MAX_PLY then tv + ply
    else tv.
Proof.
  intros Hnone Hwin.
  unfold Classic.value_from_tt, Classic.false_mate_window in *.
  apply Z.eqb_neq in Hnone. rewrite Hnone.
  destruct sm; cbn [negb]; [reflexivity|].
  destruct (tv >=? VALUE_TB_WIN_IN_MAX_PLY).
  - now rewrite Hwin.
  - destruct (tv <=? VALUE_TB_LOSS_IN_MAX_PLY); [|reflexivity].
    now rewrite Hwin.
Qed.

(** C1 (as amended).  Mate-score law: for every score [v] and every ply
    [0 <= ply], if the stored score [value_to_tt v ply] is not the
    sentinel [VALUE_NONE] and lies outside the "false mate under rule 50"
    window for [r50c] (no downgrade branch of [value_from_tt] fires on
    it), then [value_from_tt (value_to_tt v ply) ply r50c] is [v] again.
    The same holds for the classic searcher's pair, at both values of
    [SearchMate]. *)
Theorem value_tt_roundtrip (s : Searcher) (v ply r50c : Z) :
  0 <= ply ->
  tt_store s v ply <> VALUE_NONE ->
  tt_window s (tt_store s v ply) r50c = false ->
  tt_load s (tt_store s v ply) ply r50c = v.
Proof.
  intros Hply Hnone Hwin.
  assert (Hshift :
    (if value_to_tt v ply >=? VALUE_TB_WIN_IN_MAX_PLY
     then value_to_tt v ply - ply
     else if value_to_tt v ply <=? VALUE_TB_LOSS_IN_MAX_PLY
          then value_to_tt v ply + ply else value_to_tt v ply) = v).
  { destruct (value_to_tt_side v ply Hply) as [Hw Hl]. rewrite Hw.
    destruct (v >=? VALUE_TB_WIN_IN_MAX_PLY) eqn:E1.
    - unfold value_to_tt. rewrite E1. lia.
    - rewrite (Hl eq_refl). unfold value_to_tt. rewrite E1.
      destruct (v <=? VALUE_TB_LOSS_IN_MAX_PLY); lia. }
  destruct s as [|sm]; cbn [tt_store tt_load tt_window] in *.
  - rewrite value_from_tt_outside_window by assumption. exact Hshift.
  - rewrite classic_value_to_tt_eq in *.
    rewrite classic_value_from_tt_outside_window by assumption.
    exact Hshift.
Qed.

(** The extra proviso of [value_tt_roundtrip] holds for every score the
    search can store at [ply]: a score between [mated_in ply] and
    [mate_in ply] never lands on [VALUE_NONE], as soon as [VALUE_NONE]
    lies above [VALUE_MATE]. *)
Lemma value_to_tt_not_none (v ply : Z) :
  VALUE_MATE < VALUE_NONE ->
  0 <= ply ->
  mated_in ply <= v <= mate_in ply ->
  value_to_tt v ply <> VALUE_NONE.
Proof.
  unfold mated_in, mate_in, value_to_tt. intros Hlay Hply Hv.
  repeat case_cond; lia.
Qed.

(** Whatever the constants, as long as [VALUE_NONE] lies above the
    tablebase-win threshold: the score just below [VALUE_NONE] is stored
    at ply 1 as [VALUE_NONE], and is lost. *)
Lemma value_tt_roundtrip_lost_at_none (r50c : Z) :
  VALUE_TB_WIN_IN_MAX_PLY < VALUE_NONE ->
  value_to_tt (VALUE_NONE - 1) 1 = VALUE_NONE
  /\ value_from_tt (value_to_tt (VALUE_NONE - 1) 1) 1 r50c <> VALUE_NONE - 1.
Proof.
  intros Hlay.
  assert (H : value_to_tt (VALUE_NONE - 1) 1 = VALUE_NONE).
  { unfold value_to_tt.
    assert (E : (VALUE_NONE - 1 >=? VALUE_TB_WIN_IN_MAX_PLY) = true)
      by (apply Z.geb_le; lia).
    rewrite E. lia. }
  split; [exact H|]. rewrite H. unfold value_from_tt.
  rewrite Z.eqb_refl. lia.
Qed.

End TTValueFacts.

Lemma value_tt_roundtrip_witness :
  0 <= 5
  /\ tt_store Modern 31900 5 <> VALUE_NONE
  /\ tt_window Modern (tt_store Modern 31900 5) 0 = false
  /\ tt_load Modern (tt_store Modern 31900 5) 5 0 = 31900.
Proof.
  assert (H0 : 0 <= 5) by lia.
  assert (H1 : tt_store Modern 31900 5 <> VALUE_NONE)
    by (vm_compute; discriminate).
  assert (H2 : tt_window Modern (tt_store Modern 31900 5) 0 = false)
    by reflexivity.
  split; [exact H0|]. split; [exact H1|]. split; [exact H2|].
  exact (value_tt_roundtrip Modern 31900 5 0 H0 H1 H2).
Defined.

(** C1 as stated fails: the mate score [VALUE_MATE] at ply 2 is not
    [VALUE_NONE], and no downgrade branch fires for it at [r50c = 0]; yet
    it is stored as [VALUE_NONE] and read back as [VALUE_NONE], in the
    modern and in the classic searcher alike. *)
Lemma value_tt_roundtrip_counterexample :
  VALUE_MATE <> VALUE_NONE
  /\ 0 <= 2 < MAX_PLY
  /\ false_mate_window (value_to_tt VALUE_MATE 2) 0 = false
  /\ Classic.false_mate_window false (Classic.value_to_tt VALUE_MATE 2) 0
     = false
  /\ value_to_tt VALUE_MATE 2 = VALUE_NONE
  /\ value_from_tt (value_to_tt VALUE_MATE 2) 2 0 = VALUE_NONE
  /\ value_from_tt (value_to_tt VALUE_MATE 2) 2 0 <> VALUE_MATE
  /\ Classic.value_from_tt false (Classic.value_to_tt VALUE_MATE 2) 2 0
     <> VALUE_MATE.
Proof.
  split; [vm_compute; discriminate|].
  split; [vm_compute; split; [discriminate | reflexivity]|].
  repeat (split; [reflexivity|]).
  split; vm_compute; discriminate.
Qed.

(** The conversions on concrete scores: an ordinary score is stored as
    it is, a mate score is shifted by the ply and shifted back, and a mate
    too far away for the rule-50 counter is downgraded. *)
Example value_tt_examples :
  value_to_tt 150 7 = 150
  /\ value_from_tt 150 7 40 = 150
  /\ value_to_tt (mate_in 9) 5 = mate_in 4
  /\ value_from_tt (mate_in 4) 5 0 = mate_in 9
  /\ value_to_tt (mated_in 9) 5 = mated_in 4
  /\ value_from_tt (mated_in 4) 5 0 = mated_in 9
  /\ false_mate_window (mate_in 4) 97 = true
  /\ value_from_tt (mate_in 4) 5 97 = VALUE_TB_WIN_IN_MAX_PLY - 1
  /\ Classic.value_from_tt false (mate_in 4) 5 97 = VALUE_MATE_IN_MAX_PLY - 1
  /\ Classic.value_from_tt true (mate_in 4) 5 97 = mate_in 9.
Proof. repeat (split; [reflexivity|]). reflexivity. Qed.

(** ** The head of [search]: game cycles, aborts, draws *)

Lemma land_2_cases (n : Z) : Z.land n 2 = 0 \/ Z.land n 2 = 2.
Proof.
  destruct (Z.testbit n 1) eqn:E; [right | left];
    apply Z.bits_inj'; intros i Hi;
    rewrite Z.land_spec; change 2 with (2 ^ 1);
    rewrite Z.pow2_bits_eqb by lia;
    destruct (Z.eqb_spec 1 i) as [<- | Hne];
    rewrite ?E, ?andb_false_r, ?Z.bits_0; try reflexivity.
Qed.

Section SearchEntryFacts.
Context `{K : ValueConsts}.

(** The jittered draw score takes one of two values. *)
Lemma value_draw_cases (nodes : Z) :
  value_draw nodes = VALUE_DRAW - 1 \/ value_draw nodes = VALUE_DRAW + 1.
Proof.
  unfold value_draw. destruct (land_2_cases nodes) as [-> | ->]; lia.
Qed.

(** When the game-cycle block returns, it returns the jittered draw
    score. *)
Lemma game_cycle_step_return (Shashin rootNode : bool) (o : NodeObs)
    (alpha beta v : Z) :
  game_cycle_step Shashin rootNode o alpha beta = Return v ->
  v = value_draw (thread_nodes o).
Proof.
  unfold game_cycle_step. repeat case_cond; congruence.
Qed.

Lemma classic_game_cycle_step_return (rootNode : bool) (o : NodeObs)
    (alpha beta v : Z) :
  ClassicEntry.game_cycle_step rootNode o alpha beta = Return v ->
  v = value_draw (thread_nodes o).
Proof.
  unfold ClassicEntry.game_cycle_step. repeat case_cond; congruence.
Qed.

(** At the root alpha is never lifted. *)
Lemma game_cycle_step_root (Shashin : bool) (o : NodeObs) (alpha beta : Z) :
  game_cycle_step Shashin true o alpha beta = Next (alpha, false)
  /\ ClassicEntry.game_cycle_step true o alpha beta = Next alpha.
Proof.
  unfold game_cycle_step, ClassicEntry.game_cycle_step.
  destruct Shashin; split; reflexivity.
Qed.

(** The head of the classic [search<nodeType, true>] hands on the window
    it was called with. *)
Lemma classic_mate_entry_window (VALUE_ZERO : Z) (UseRule50 : bool)
    (legal_moves : Z) (nt : NodeType) (o : NodeObs) (qs : Z -> Z -> Z)
    (alpha beta depth a b : Z) :
  ClassicMateEntry.search_entry VALUE_ZERO UseRule50 legal_moves nt o qs
    alpha beta depth = Next (a, b) ->
  a = alpha /\ b = beta.
Proof.
  unfold ClassicMateEntry.search_entry, ClassicMateEntry.abort_step,
    ClassicMateEntry.mate_distance_step.
  repeat case_cond; cbn [flow_bind]; intros H; try discriminate;
    apply Next_inj in H; now inversion H.
Qed.

(** C3 (as amended).  At a non-root node, before the
    transposition-table probe.  The style-modulated ([Shashin]) instance
    of the modern searcher and the classic [search<nodeType, false>] lift
    alpha to the jittered draw score ([VALUE_DRAW - 1] or
    [VALUE_DRAW + 1]) exactly when [rule50 >= 3], [alpha < VALUE_DRAW] and
    [has_game_cycle(ss->ply)] hold.  The plain modern instance tests
    [alpha < VALUE_DRAW] and [has_game_cycle(ss->ply)] only; it lifts
    under the same condition wherever [has_game_cycle] implies
    [rule50 >= 3].  When the lifted alpha is at least beta, it is returned
    at once.  The classic [search<nodeType, true>] has no such block: the
    alpha it takes to the probe is the alpha it was called with, and a
    node of positive depth that is neither aborted nor drawn and whose
    alpha is below [mate_in(ss->ply + 1)] gets there with its window
    untouched, whatever [rule50] and [has_game_cycle] are. *)
Theorem game_cycle_lift (Shashin UseRule50 : bool)
    (VALUE_ZERO legal_moves : Z) (nt : NodeType) (o : NodeObs)
    (qs : Z -> Z -> Z) (alpha beta depth : Z) :
  game_cycle_step Shashin false o alpha beta =
    (if (negb Shashin || (pos_rule50_count o >=? 3))
        && (alpha <? VALUE_DRAW) && pos_has_game_cycle o
     then if value_draw (thread_nodes o) >=? beta
          then Return (value_draw (thread_nodes o))
          else Next (value_draw (thread_nodes o), Shashin)
     else Next (alpha, Shashin && pos_has_game_cycle o))
  /\ ((pos_has_game_cycle o = true -> 3 <= pos_rule50_count o) ->
      (negb Shashin || (pos_rule50_count o >=? 3))
      && (alpha <? VALUE_DRAW) && pos_has_game_cycle o
      = (pos_rule50_count o >=? 3)
        && (alpha <? VALUE_DRAW) && pos_has_game_cycle o)
  /\ ClassicEntry.game_cycle_step false o alpha beta =
    (if (pos_rule50_count o >=? 3)
        && (alpha <? VALUE_DRAW) && pos_has_game_cycle o
     then if value_draw (thread_nodes o) >=? beta
          then Return (value_draw (thread_nodes o))
          else Next (value_draw (thread_nodes o))
     else Next alpha)
  /\ (forall a b,
       ClassicMateEntry.search_entry VALUE_ZERO UseRule50 legal_moves nt o qs
         alpha beta depth = Next (a, b) ->
       a = alpha /\ b = beta)
  /\ (0 < depth ->
      UseRule50 && (pos_rule50_count o >? 99)
      && (negb (pos_checkers o) || negb (legal_moves =? 0)) = false ->
      threads_stop o || pos_is_draw o || (ss_ply o >=? MAX_PLY) = false ->
      alpha < mate_in (ss_ply o + 1) ->
      ClassicMateEntry.search_entry VALUE_ZERO UseRule50 legal_moves nt o qs
        alpha beta depth = Next (alpha, beta))
  /\ (value_draw (thread_nodes o) = VALUE_DRAW - 1
      \/ value_draw (thread_nodes o) = VALUE_DRAW + 1).
Proof.
  split; [|split; [|split; [|split; [|split]]]].
  - unfold game_cycle_step.
    destruct Shashin, (pos_rule50_count o >=? 3), (alpha <? VALUE_DRAW),
      (pos_has_game_cycle o); cbn [negb andb orb];
      try reflexivity; now destruct (_ >=? beta).
  - intros Hcycle.
    destruct (pos_has_game_cycle o) eqn:Ec;
      [|now rewrite !andb_false_r].
    assert (E : (pos_rule50_count o >=? 3) = true)
      by (apply Z.geb_le; specialize (Hcycle eq_refl); lia).
    rewrite E. now rewrite orb_true_r.
  - unfold ClassicEntry.game_cycle_step.
    destruct (pos_rule50_count o >=? 3), (alpha <? VALUE_DRAW),
      (pos_has_game_cycle o); cbn [negb andb orb];
      try reflexivity; now destruct (_ >=? beta).
  - intros a b. apply classic_mate_entry_window.
  - intros Hdepth Hr50 Habort Hmate.
    unfold ClassicMateEntry.search_entry, ClassicMateEntry.abort_step,
      ClassicMateEntry.mate_distance_step.
    assert (Hd : (depth <=? 0) = false) by (apply Z.leb_gt; lia).
    assert (Hm : (alpha >=? mate_in (ss_ply o + 1)) = false)
      by (rewrite Z.geb_leb; apply Z.leb_gt; lia).
    apply orb_false_iff in Habort as [Habort Hply].
    apply orb_false_iff in Habort as [Hstop Hdraw].
    rewrite Hd, Hr50, Hdraw, Hstop, Hply, Hm.
    now destruct (is_rootNode nt).
  - apply value_draw_cases.
Qed.


End SearchEntryFacts.

(** C3 as stated fails in the classic [search<nodeType, true>]: at a
    non-root node in a game cycle, with the rule-50 counter at 10 and
    [alpha = -100] below [VALUE_DRAW], alpha is not lifted; the node goes
    on to the transposition-table probe with [alpha = -100].  The classic
    [search<nodeType, false>] lifts alpha to the draw score -1 at the same
    node, and returns it since it is not below [beta = -99]. *)
Lemma game_cycle_lift_counterexample :
  is_rootNode NonPV = false
  /\ 3 <= pos_rule50_count late_cycle_node
  /\ pos_has_game_cycle late_cycle_node = true
  /\ -100 < VALUE_DRAW
  /\ ClassicMateEntry.search_entry 0 true 20 NonPV late_cycle_node
       (fun _ _ => 0) (-100) (-99) 1 = Next (-100, -99)
  /\ ClassicEntry.search_entry NonPV late_cycle_node (fun _ _ => 0)
       (-100) (-99) 1 = Return (-1)
  /\ search_entry NonPV true late_cycle_node (fun _ _ => 0) (-100) (-99) 1
     = Return (-1).
Proof.
  split; [reflexivity|]. split; [discriminate|].
  repeat (split; [reflexivity|]). reflexivity.
Qed.



(** ** Null-move reduction *)

Section NullMoveFacts.
Context `{K : ValueConsts}.

(** Every guard of Step 9 has [eval >= beta] among its conjuncts (the
    source asserts [eval - beta >= 0] right after it). *)
Lemma null_guard_eval_ge_beta (v : NullMoveVariant) (PvNode : bool)
    (o : NullMoveObs) (beta depth : Z) :
  null_guard_of v PvNode o beta depth = true -> beta <= nm_eval o.
Proof.
  destruct v as [Shashin|]; cbn [null_guard_of];
    unfold null_move_guard, ClassicNullMove.null_move_guard; intros H.
  - destruct Shashin; cbn [negb andb orb] in H;
      rewrite ?orb_false_r in H; bool_arith; lia.
  - bool_arith; lia.
Qed.

(** The same for the classic [search<nodeType, true>]. *)
Lemma classic_mate_null_guard_eval_ge_beta (VALUE_KNOWN_WIN : Z)
    (PvNode : bool) (o : NullMoveObs) (beta depth : Z) :
  ClassicMateNullMove.null_move_guard VALUE_KNOWN_WIN PvNode o beta depth
    = true ->
  beta <= nm_eval o.
Proof.
  unfold ClassicMateNullMove.null_move_guard. intros H. bool_arith. lia.
Qed.

(** C4 (as amended).  Whenever the null-move preconditions hold at a
    node of positive depth, the reduced search made after
    [do_null_move] is [search(-beta, -beta + 1, depth - R, !cutNode)] with
    [R = min((eval - beta)/144, 6) + depth/3 + 4] in the modern searcher
    (both instances),
    [R = min((eval - beta)/168, 7) + depth/3 + 4 - (complexity > 861)]
    in the classic [search<nodeType, false>], and
    [R = min((eval - beta)/173, 6) + depth/3 + 4] in the classic
    [search<nodeType, true>]. *)
Theorem null_move_reduction (VALUE_KNOWN_WIN : Z) (v : NullMoveVariant)
    (PvNode : bool) (o : NullMoveObs) (beta depth : Z) (cutNode : bool) :
  0 < depth ->
  (null_guard_of v PvNode o beta depth = true ->
   null_search_of v PvNode o beta depth cutNode =
     Some {| call_alpha := - beta; call_beta := - beta + 1;
             call_depth := depth - null_formula_of v o beta depth;
             call_cutNode := negb cutNode |})
  /\ (ClassicMateNullMove.null_move_guard VALUE_KNOWN_WIN PvNode o beta depth
      = true ->
      ClassicMateNullMove.null_move_search VALUE_KNOWN_WIN PvNode o beta depth
        cutNode =
        Some {| call_alpha := - beta; call_beta := - beta + 1;
                call_depth :=
                  depth - classic_mate_null_move_formula (nm_eval o) beta depth;
                call_cutNode := negb cutNode |}).
Proof.
  intros Hdepth. split; intros Hguard.
  - pose proof (null_guard_eval_ge_beta v PvNode o beta depth Hguard) as Hev.
    destruct v as [Shashin|];
      cbn [null_guard_of null_search_of null_formula_of] in *;
      unfold null_move_search, ClassicNullMove.null_move_search;
      rewrite Hguard;
      unfold null_move_R, ClassicNullMove.null_move_R,
        modern_null_move_formula, classic_null_move_formula;
      rewrite !Z.quot_div_nonneg by lia; reflexivity.
  - pose proof (classic_mate_null_guard_eval_ge_beta _ _ _ _ _ Hguard) as Hev.
    unfold ClassicMateNullMove.null_move_search. rewrite Hguard.
    unfold ClassicMateNullMove.null_move_R, classic_mate_null_move_formula.
    rewrite !Z.quot_div_nonneg by lia. reflexivity.
Qed.

End NullMoveFacts.

Lemma null_move_reduction_witness :
  0 < 20
  /\ null_guard_of (ModernNull false) false (null_move_node 244) 100 20 = true
  /\ null_guard_of ClassicNull false (null_move_node 1276) 100 20 = true
  /\ ClassicMateNullMove.null_move_guard 10000 false (null_move_node 273)
       100 20 = true
  /\ null_search_of (ModernNull false) false (null_move_node 244) 100 20 false
     = Some {| call_alpha := -100; call_beta := -99; call_depth := 9;
               call_cutNode := true |}
  /\ null_search_of ClassicNull false (null_move_node 1276) 100 20 false
     = Some {| call_alpha := -100; call_beta := -99; call_depth := 3;
               call_cutNode := true |}
  /\ ClassicMateNullMove.null_move_search 10000 false (null_move_node 273)
       100 20 false
     = Some {| call_alpha := -100; call_beta := -99; call_depth := 9;
               call_cutNode := true |}.
Proof.
  assert (H1 : 0 < 20) by lia.
  assert (H2 : null_guard_of (ModernNull false) false (null_move_node 244)
                 100 20 = true) by reflexivity.
  assert (H3 : null_guard_of ClassicNull false (null_move_node 1276)
                 100 20 = true) by reflexivity.
  assert (H4 : ClassicMateNullMove.null_move_guard 10000 false
                 (null_move_node 273) 100 20 = true) by reflexivity.
  split; [exact H1|]. split; [exact H2|]. split; [exact H3|].
  split; [exact H4|].
  destruct (null_move_reduction 10000 (ModernNull false) false
              (null_move_node 244) 100 20 false H1) as [Hm _].
  destruct (null_move_reduction 10000 ClassicNull false
              (null_move_node 1276) 100 20 false H1) as [Hc _].
  destruct (null_move_reduction 10000 (ModernNull false) false
              (null_move_node 273) 100 20 false H1) as [_ Ht].
  split; [exact (Hm H2)|]. split; [exact (Hc H3)|]. exact (Ht H4).
Defined.

(** C4 as stated fails in every body of [search].  Modern: with
    [eval - beta = 144] at depth 20 the child is searched at depth 9
    ([R = 11]), where the claimed formula gives [R = 10].  Classic
    [search<nodeType, false>]: with [eval - beta = 1176] the child is
    searched at depth 3 ([R = 17]), where the claimed formula gives
    [R = 16].  Classic [search<nodeType, true>]: with [eval - beta = 168]
    the child is searched at depth 10 ([R = 10]), where the claimed
    formula gives [R = 11]. *)
Lemma null_move_reduction_counterexample :
  null_move_guard false false (null_move_node 244) 100 20 = true
  /\ option_map call_depth
       (null_move_search false false (null_move_node 244) 100 20 false)
     = Some 9
  /\ 20 - claimed_null_move_R 244 100 20 = 10
  /\ ClassicNullMove.null_move_guard false (null_move_node 1276) 100 20 = true
  /\ option_map call_depth
       (ClassicNullMove.null_move_search false (null_move_node 1276) 100 20 false)
     = Some 3
  /\ 20 - claimed_null_move_R 1276 100 20 = 4
  /\ ClassicMateNullMove.null_move_guard 10000 false (null_move_node 268)
       100 20 = true
  /\ option_map call_depth
       (ClassicMateNullMove.null_move_search 10000 false (null_move_node 268)
          100 20 false)
     = Some 10
  /\ 20 - claimed_null_move_R 268 100 20 = 9.
Proof.
  repeat (split; [reflexivity|]). reflexivity.
Qed.

(** ** The end of [search]: no legal move *)

Section SearchEndFacts.
Context `{K : ValueConsts}.
Variable CORRECTION_HISTORY_LIMIT : Z.

(** Step 21 and the cap that follows it.  With [moveCount = 0] the
    score of Step 21 is returned as it is at non-PV nodes (and at PV
    nodes of the style layer's Capablanca range); at the other PV nodes
    the returned score is its minimum with the tablebase cap [maxValue].
    The classic searcher caps at every PV node. *)
Lemma search_end_no_moves_capped (i : SearchInstance) (nt : NodeType)
    (x : LoopExit) :
  le_moveCount x = 0 ->
  mate_stalemate_value x =
    (if Move_to_bool (le_excludedMove x) then le_alpha x
     else if le_inCheck x then mated_in (le_ply x)
     else VALUE_DRAW)
  /\ snd (search_end_of CORRECTION_HISTORY_LIMIT i nt x) =
       (if is_PvNode nt
           && match i with
              | ModernSearch Shashin => negb Shashin || negb (le_capablanca x)
              | ClassicSearch _ => true
              end
        then Z.min (mate_stalemate_value x) (le_maxValue x)
        else mate_stalemate_value x).
Proof.
  intros H0. split.
  - unfold mate_stalemate_value. now rewrite H0.
  - destruct i as [Shashin | [|]]; cbn [search_end_of];
      unfold search_end, ClassicEnd.search_end, ClassicPlainEnd.search_end;
      cbn [snd]; rewrite ?andb_true_r; reflexivity.
Qed.

(** Without a tablebase cap below it, the Step 21 score is the returned
    score. *)
Lemma search_end_no_moves_uncapped (i : SearchInstance) (nt : NodeType)
    (x : LoopExit) :
  le_moveCount x = 0 ->
  mate_stalemate_value x <= le_maxValue x ->
  snd (search_end_of CORRECTION_HISTORY_LIMIT i nt x)
    = mate_stalemate_value x.
Proof.
  intros H0 Hle.
  destruct (search_end_no_moves_capped i nt x H0) as [_ ->].
  case_cond; lia.
Qed.

(** What Step 5 leaves in [maxValue] when it started from
    [VALUE_INFINITE] and went on: [VALUE_INFINITE] still, or, at a PV
    node whose probe said "loss", the loss score, which is above the
    alpha the step was entered with and has left alone.  The modern
    searcher and the classic [search<nodeType, true>] do not probe in a
    singular verification search. *)
Lemma tablebase_step_cap (i : SearchInstance) (nt : NodeType) (tb : TBObs)
    (excl : Move) (rule50 ply depth alpha beta bestValue a bv mv : Z) :
  tablebase_step_of i nt tb excl rule50 ply depth alpha beta bestValue
    VALUE_INFINITE = Next (a, bv, mv) ->
  mv = VALUE_INFINITE
  \/ (a = alpha /\ alpha < mv
      /\ tb_wdl tb < - b2z (tb_UseRule50 tb)
      /\ match i with
         | ModernSearch _ =>
             Move_to_bool excl = false /\ mv = - (VALUE_TB - ply)
         | ClassicSearch SearchMate =>
             (SearchMate = true -> Move_to_bool excl = false)
             /\ mv = VALUE_MATED_IN_MAX_PLY + ply + 1
         end).
Proof.
  destruct i as [Shashin | SearchMate]; cbn [tablebase_step_of];
    unfold tablebase_step, ClassicTablebase.tablebase_step; cbv zeta;
    fold (b2z (tb_UseRule50 tb)).
  - destruct (negb (is_rootNode nt) && negb (Move_to_bool excl)
              && negb (tb_Cardinality tb =? 0)) eqn:Eg;
      [|intros H; apply Next_inj in H; inversion H; now left].
    apply andb_true_iff in Eg as [Eg _].
    apply andb_true_iff in Eg as [_ Eex]. apply negb_true_iff in Eex.
    case_cond; [|intros H; apply Next_inj in H; inversion H; now left].
    case_cond; [|intros H; apply Next_inj in H; inversion H; now left].
    destruct (tb_wdl tb <? - b2z (tb_UseRule50 tb)) eqn:El.
    + case_cond; [discriminate|].
      destruct (is_PvNode nt);
        intros H; apply Next_inj in H; inversion H; subst;
        [right | now left].
      bool_arith. repeat split; try assumption; lia.
    + destruct (tb_wdl tb >? b2z (tb_UseRule50 tb)); [|discriminate].
      case_cond; [discriminate|].
      destruct (is_PvNode nt);
        intros H; apply Next_inj in H; inversion H; now left.
  - destruct (if SearchMate
              then negb (is_rootNode nt) && negb (Move_to_bool excl)
                   && negb (tb_Cardinality tb =? 0)
              else negb (is_rootNode nt) && negb (tb_Cardinality tb =? 0))
      eqn:Eg;
      [|intros H; apply Next_inj in H; inversion H; now left].
    assert (Eex : SearchMate = true -> Move_to_bool excl = false).
    { intros ->. apply andb_true_iff in Eg as [Eg _].
      apply andb_true_iff in Eg as [_ Eex]. now apply negb_true_iff in Eex. }
    case_cond; [|intros H; apply Next_inj in H; inversion H; now left].
    case_cond; [|intros H; apply Next_inj in H; inversion H; now left].
    destruct (tb_wdl tb <? - b2z (tb_UseRule50 tb)) eqn:El.
    + case_cond; [discriminate|].
      destruct (is_PvNode nt);
        intros H; apply Next_inj in H; inversion H; subst;
        [right | now left].
      bool_arith. repeat split; try assumption; lia.
    + destruct (tb_wdl tb >? b2z (tb_UseRule50 tb)); [|discriminate].
      case_cond; [discriminate|].
      destruct (is_PvNode nt);
        intros H; apply Next_inj in H; inversion H; now left.
Qed.

(** C2.  In every body of [search] (the modern searcher with the style
    layer off or on, the classic [search<nodeType, false>] and
    [search<nodeType, true>]), when the move loop ends with
    [moveCount = 0] the returned score is [alpha] if an excluded move is
    set, [mated_in(ss->ply)] if the side to move is in check, and
    [VALUE_DRAW] otherwise.  Between Step 21 and the return the score is
    capped by [maxValue] at PV nodes; [alpha] and [maxValue] are written
    by no step between the tablebase probe and the move loop, so at such a
    node they are what Step 5 left, started from
    [maxValue = VALUE_INFINITE], and the cap then does not bite: a probe
    that says "draw" returns at Step 5, a loss cap is above the alpha it
    did not cut and above every mate score, and a position without a
    legal move and out of check is a stalemate, which the tablebases do
    not call lost.  The score constants are taken in their order
    ([VALUE_TB <= VALUE_MATE], [-VALUE_MATE <= VALUE_MATED_IN_MAX_PLY + 1],
    and scores at most [VALUE_INFINITE]). *)
Theorem search_end_no_moves (i : SearchInstance) (nt : NodeType) (tb : TBObs)
    (rule50 alpha0 bestValue0 bv : Z) (x : LoopExit) :
  le_moveCount x = 0 ->
  tablebase_step_of i nt tb (le_excludedMove x) rule50 (le_ply x) (le_depth x)
    alpha0 (le_beta x) bestValue0 VALUE_INFINITE
    = Next (le_alpha x, bv, le_maxValue x) ->
  (Move_to_bool (le_excludedMove x) = false -> le_inCheck x = false ->
   - b2z (tb_UseRule50 tb) <= tb_wdl tb) ->
  VALUE_TB <= VALUE_MATE ->
  - VALUE_MATE <= VALUE_MATED_IN_MAX_PLY + 1 ->
  le_alpha x <= VALUE_INFINITE ->
  mated_in (le_ply x) <= VALUE_INFINITE ->
  VALUE_DRAW <= VALUE_INFINITE ->
  snd (search_end_of CORRECTION_HISTORY_LIMIT i nt x) =
    (if Move_to_bool (le_excludedMove x) then le_alpha x
     else if le_inCheck x then mated_in (le_ply x)
     else VALUE_DRAW).
Proof.
  intros H0 Htb Hsound Htbm Hmated Ha Hm Hd.
  destruct (search_end_no_moves_capped i nt x H0) as [Hs Hret].
  rewrite <- Hs. apply search_end_no_moves_uncapped; [exact H0|].
  rewrite Hs.
  destruct (tablebase_step_cap _ _ _ _ _ _ _ _ _ _ _ _ _ Htb)
    as [-> | [Halpha [Hlt [Hloss Hi]]]].
  - repeat case_cond; assumption.
  - destruct (Move_to_bool (le_excludedMove x)) eqn:Eex; [lia|].
    destruct (le_inCheck x) eqn:Ec.
    + unfold mated_in.
      destruct i as [Shashin | SearchMate]; destruct Hi as [_ ->]; lia.
    + specialize (Hsound eq_refl eq_refl). lia.
Qed.

End SearchEndFacts.

Lemma search_end_no_moves_witness :
  le_moveCount (no_move_exit Move_none true (-31997) (-31750)) = 0
  /\ tablebase_step_of (ModernSearch false) PV losing_probe
       (le_excludedMove (no_move_exit Move_none true (-31997) (-31750)))
       0 (le_ply (no_move_exit Move_none true (-31997) (-31750)))
       (le_depth (no_move_exit Move_none true (-31997) (-31750)))
       (-31997) (le_beta (no_move_exit Move_none true (-31997) (-31750)))
       (-32001) VALUE_INFINITE
     = Next (le_alpha (no_move_exit Move_none true (-31997) (-31750)),
             -32001,
             le_maxValue (no_move_exit Move_none true (-31997) (-31750)))
  /\ le_maxValue (no_move_exit Move_none true (-31997) (-31750)) = -31750
  /\ snd (search_end_of 1024 (ModernSearch false) PV
            (no_move_exit Move_none true (-31997) (-31750)))
     = -31997
  /\ mated_in 3 = -31997
  /\ tablebase_step_of (ClassicSearch false) PV drawn_probe
       (le_excludedMove (no_move_exit Move_none false (-200) 32001))
       5 (le_ply (no_move_exit Move_none false (-200) 32001))
       (le_depth (no_move_exit Move_none false (-200) 32001))
       (-200) (le_beta (no_move_exit Move_none false (-200) 32001))
       (-32001) VALUE_INFINITE
     = Next (le_alpha (no_move_exit Move_none false (-200) 32001),
             -32001,
             le_maxValue (no_move_exit Move_none false (-200) 32001))
  /\ - b2z (tb_UseRule50 drawn_probe) <= tb_wdl drawn_probe
  /\ snd (search_end_of 1024 (ClassicSearch false) PV
            (no_move_exit Move_none false (-200) 32001))
     = VALUE_DRAW.
Proof.
  assert (H0 : le_moveCount (no_move_exit Move_none true (-31997) (-31750))
               = 0) by reflexivity.
  assert (H1 : tablebase_step_of (ModernSearch false) PV losing_probe
       (le_excludedMove (no_move_exit Move_none true (-31997) (-31750)))
       0 (le_ply (no_move_exit Move_none true (-31997) (-31750)))
       (le_depth (no_move_exit Move_none true (-31997) (-31750)))
       (-31997) (le_beta (no_move_exit Move_none true (-31997) (-31750)))
       (-32001) VALUE_INFINITE
     = Next (le_alpha (no_move_exit Move_none true (-31997) (-31750)),
             -32001,
             le_maxValue (no_move_exit Move_none true (-31997) (-31750))))
    by reflexivity.
  assert (H2 : Move_to_bool
                 (le_excludedMove
                    (no_move_exit Move_none true (-31997) (-31750))) = false ->
               le_inCheck (no_move_exit Move_none true (-31997) (-31750))
                 = false ->
               - b2z (tb_UseRule50 losing_probe) <= tb_wdl losing_probe)
    by (intros _ H; discriminate H).
  assert (H3 : VALUE_TB <= VALUE_MATE) by discriminate.
  assert (H4 : - VALUE_MATE <= VALUE_MATED_IN_MAX_PLY + 1) by discriminate.
  assert (H5 : le_alpha (no_move_exit Move_none true (-31997) (-31750))
               <= VALUE_INFINITE) by discriminate.
  assert (H6 : mated_in
                 (le_ply (no_move_exit Move_none true (-31997) (-31750)))
               <= VALUE_INFINITE) by discriminate.
  assert (H7 : VALUE_DRAW <= VALUE_INFINITE) by discriminate.
  assert (G0 : le_moveCount (no_move_exit Move_none false (-200) 32001) = 0)
    by reflexivity.
  assert (G1 : tablebase_step_of (ClassicSearch false) PV drawn_probe
       (le_excludedMove (no_move_exit Move_none false (-200) 32001))
       5 (le_ply (no_move_exit Move_none false (-200) 32001))
       (le_depth (no_move_exit Move_none false (-200) 32001))
       (-200) (le_beta (no_move_exit Move_none false (-200) 32001))
       (-32001) VALUE_INFINITE
     = Next (le_alpha (no_move_exit Move_none false (-200) 32001),
             -32001,
             le_maxValue (no_move_exit Move_none false (-200) 32001)))
    by reflexivity.
  assert (G2 : - b2z (tb_UseRule50 drawn_probe) <= tb_wdl drawn_probe)
    by discriminate.
  assert (G5 : le_alpha (no_move_exit Move_none false (-200) 32001)
               <= VALUE_INFINITE) by discriminate.
  assert (G6 : mated_in (le_ply (no_move_exit Move_none false (-200) 32001))
               <= VALUE_INFINITE) by discriminate.
  split; [exact H0|]. split; [exact H1|]. split; [reflexivity|].
  split; [exact (search_end_no_moves 1024 (ModernSearch false) PV
                   losing_probe 0 (-31997) (-32001) (-32001)
                   (no_move_exit Move_none true (-31997) (-31750))
                   H0 H1 H2 H3 H4 H5 H6 H7)|].
  split; [reflexivity|]. split; [exact G1|]. split; [exact G2|].
  exact (search_end_no_moves 1024 (ClassicSearch false) PV drawn_probe 5
           (-200) (-32001) (-32001)
           (no_move_exit Move_none false (-200) 32001)
           G0 G1 (fun _ _ => G2) H3 H4 G5 G6 H7).
Defined.

(** The same at a stalemate, where the probe says "draw": had the probe
    been made, the node would have returned at Step 5; a node that
    reaches the move loop has the cap at [VALUE_INFINITE] and returns
    [VALUE_DRAW]. *)
Example search_end_stalemate :
  tablebase_step PV drawn_probe Move_none 0 3 4 (-200) 200 (-32001)
    VALUE_INFINITE = Return 0
  /\ snd (search_end_of 1024 (ModernSearch false) PV
            (no_move_exit Move_none false (-200) VALUE_INFINITE))
     = VALUE_DRAW
  /\ snd (search_end_of 1024 (ClassicSearch false) PV
            (no_move_exit e2e4 false (-200) VALUE_INFINITE))
     = -200.
Proof. repeat split; reflexivity. Qed.

(** ** Quiescence search: stand pat and the smoothed fail-high *)


Section QSearchFacts.
Context `{K : ValueConsts}.
Variables DEPTH_QS_CHECKS DEPTH_QS_NO_CHECKS : Z.
Variables (PvNode Shashin : bool).





End QSearchFacts.

Section ClassicQSearchFacts.
Context `{K : ValueConsts}.
Variables DEPTH_QS_CHECKS DEPTH_QS_NO_CHECKS VALUE_KNOWN_WIN : Z.
Variable PvNode : bool.




End ClassicQSearchFacts.

Section QSearchVariants.
Context `{K : ValueConsts}.
Variables DEPTH_QS_CHECKS DEPTH_QS_NO_CHECKS VALUE_KNOWN_WIN : Z.


End QSearchVariants.



(** ** Piece placement keeps the bitboard invariant *)

Lemma PieceType_eqb_eq (a b : PieceType) : PieceType_eqb a b = true <-> a = b.
Proof.
  destruct a, b; cbn; split; intros H; try reflexivity; discriminate.
Qed.

Lemma PieceType_eqb_refl (a : PieceType) : PieceType_eqb a a = true.
Proof. now apply PieceType_eqb_eq. Qed.

Lemma PieceType_eqb_neq (a b : PieceType) : a <> b -> PieceType_eqb a b = false.
Proof.
  intros H. destruct (PieceType_eqb a b) eqn:E; [|reflexivity].
  apply PieceType_eqb_eq in E. contradiction.
Qed.

Lemma square_bb_bit (s i : Z) :
  0 <= s -> Z.testbit (square_bb s) i = (s =? i).
Proof.
  intros Hs. unfold square_bb. rewrite Z.shiftl_mul_pow2 by assumption.
  rewrite Z.mul_1_l. now apply Z.pow2_bits_eqb.
Qed.

Lemma fold_lor_bit (f : PieceType -> Z) (l : list PieceType) (i : Z) :
  Z.testbit (fold_right (fun p acc => Z.lor (f p) acc) 0 l) i
  = existsb (fun p => Z.testbit (f p) i) l.
Proof.
  induction l as [|p l IH]; cbn [fold_right existsb].
  - apply Z.bits_0.
  - now rewrite Z.lor_spec, IH.
Qed.

(** The invariant holds exactly when it holds at every bit. *)
Lemma bb_invariant_bitwise (pos : Position) :
  bb_invariant pos <->
  forall i, 0 <= i ->
    bit_invariant (fun p => Z.testbit (byTypeBB pos p) i)
      (Z.testbit (byTypeBB pos ALL_PIECES) i)
      (Z.testbit (byColorBB pos WHITE) i)
      (Z.testbit (byColorBB pos BLACK) i).
Proof.
  unfold bb_invariant, bit_invariant. split.
  - intros [Hc [Hd Hu]] i Hi. repeat split.
    + now rewrite Hc, Z.lor_spec.
    + intros p q Hp Hq Hpq. rewrite <- Z.land_spec, (Hd p q Hp Hq Hpq).
      apply Z.bits_0.
    + now rewrite <- Hu, fold_lor_bit.
  - intros H. repeat split.
    + apply Z.bits_inj'. intros i Hi. rewrite Z.lor_spec.
      apply (H i Hi).
    + intros p q Hp Hq Hpq. apply Z.bits_inj'. intros i Hi.
      rewrite Z.land_spec, Z.bits_0. now apply (H i Hi).
    + apply Z.bits_inj'. intros i Hi. rewrite fold_lor_bit.
      apply (H i Hi).
Qed.

Section BitInvariant.
Variables (T : PieceType -> bool) (A W B : bool).
Hypothesis Hinv : bit_invariant T A W B.

Lemma bit_invariant_ext (T' : PieceType -> bool) (A' W' B' : bool) :
  (forall q, In q piece_types -> T' q = T q) ->
  A' = A -> W' = W -> B' = B ->
  bit_invariant T' A' W' B'.
Proof.
  intros HT -> -> ->. destruct Hinv as [Hc [Hd Hu]]. repeat split.
  - exact Hc.
  - intros p q Hp Hq Hpq. rewrite (HT p Hp), (HT q Hq). now apply Hd.
  - rewrite <- Hu. clear -HT. induction piece_types as [|p l IH]; [reflexivity|].
    cbn [existsb]. rewrite (HT p (or_introl eq_refl)).
    f_equal. apply IH. intros q Hq. apply HT. now right.
Qed.

(** A bit of a piece-type board is a bit of the occupancy. *)
Lemma bit_invariant_type_in_all (pt : PieceType) :
  In pt piece_types -> T pt = true -> A = true.
Proof.
  intros Hpt Ht. destruct Hinv as [_ [_ Hu]]. rewrite <- Hu.
  apply existsb_exists. now exists pt.
Qed.

Lemma bit_invariant_empty (q : PieceType) :
  A = false -> In q piece_types -> T q = false.
Proof.
  intros Ha Hq. destruct (T q) eqn:E; [|reflexivity].
  rewrite (bit_invariant_type_in_all q Hq E) in Ha. discriminate.
Qed.

Lemma bit_invariant_empty_colors : A = false -> W = false /\ B = false.
Proof.
  intros Ha. destruct Hinv as [Hc _]. rewrite Ha in Hc.
  symmetry in Hc. now apply orb_false_iff in Hc.
Qed.

Lemma bit_invariant_others (pt q : PieceType) :
  In pt piece_types -> In q piece_types -> T pt = true -> q <> pt ->
  T q = false.
Proof.
  intros Hpt Hq Ht Hne. destruct Hinv as [_ [Hd _]].
  specialize (Hd q pt Hq Hpt Hne). rewrite Ht, andb_true_r in Hd. exact Hd.
Qed.

(** Setting an empty bit for a piece of type [pt] and colour [c]. *)
Lemma bit_invariant_set (pt : PieceType) (c : Color) :
  In pt piece_types -> A = false ->
  bit_invariant (fun q => T q || PieceType_eqb q pt) true
    (W || Color_eqb WHITE c) (B || Color_eqb BLACK c).
Proof.
  intros Hpt Ha. destruct (bit_invariant_empty_colors Ha) as [HW HB].
  rewrite HW, HB. repeat split.
  - now destruct c.
  - intros p q Hp Hq Hpq.
    rewrite (bit_invariant_empty p Ha Hp), (bit_invariant_empty q Ha Hq).
    cbn [orb]. destruct (PieceType_eqb p pt) eqn:E1; [|reflexivity].
    apply PieceType_eqb_eq in E1. subst p.
    cbn [andb]. now apply PieceType_eqb_neq, not_eq_sym.
  - apply existsb_exists. exists pt. split; [exact Hpt|].
    now rewrite PieceType_eqb_refl, orb_true_r.
Qed.

(** Clearing the bit of the piece of type [pt] and colour [c] that
    stands there. *)
Lemma bit_invariant_clear (pt : PieceType) (c : Color) :
  In pt piece_types -> T pt = true ->
  (if Color_eqb WHITE c then W else B) = true ->
  (if Color_eqb WHITE c then B else W) = false ->
  bit_invariant (fun q => xorb (T q) (PieceType_eqb q pt)) (xorb A true)
    (xorb W (Color_eqb WHITE c)) (xorb B (Color_eqb BLACK c)).
Proof.
  intros Hpt Ht Hown Hother.
  rewrite (bit_invariant_type_in_all pt Hpt Ht).
  assert (Hall : forall q, In q piece_types ->
                   xorb (T q) (PieceType_eqb q pt) = false).
  { intros q Hq. destruct (PieceType_eqb q pt) eqn:E.
    - apply PieceType_eqb_eq in E. subst q. now rewrite Ht.
    - rewrite xorb_false_r. apply (bit_invariant_others pt q Hpt Hq Ht).
      intros ->. now rewrite PieceType_eqb_refl in E. }
  repeat split.
  - destruct c; cbn in *; now rewrite Hown, Hother.
  - intros p q Hp Hq _. now rewrite (Hall p Hp).
  - cbn [xorb]. clear -Hall. induction piece_types as [|p l IH]; [reflexivity|].
    cbn [existsb]. rewrite (Hall p (or_introl eq_refl)). cbn [orb].
    apply IH. intros q Hq. apply Hall. now right.
Qed.

End BitInvariant.

Lemma piece_type_not_all (q : PieceType) :
  In q piece_types -> PieceType_eqb q ALL_PIECES = false.
Proof.
  unfold piece_types. cbn [In]. intros H.
  repeat (destruct H as [<- | H]; [reflexivity|]). contradiction.
Qed.

Lemma is_board_piece_inv (pc : Piece) :
  is_board_piece pc = true ->
  exists c pt, pc = make_piece c pt /\ In pt piece_types.
Proof.
  destruct pc as [|c pt]; [discriminate|]. intros H. exists c, pt.
  split; [reflexivity|]. destruct pt; cbn in *; try discriminate; tauto.
Qed.

Lemma is_ok_square_nonneg (s : Z) : is_ok_square s = true -> 0 <= s.
Proof. unfold is_ok_square. intros H. bool_arith. lia. Qed.

Section PlacementFacts.
Variable PSQT_psq : Piece -> Z -> Z.
Variable pos : Position.
Hypothesis Hinv : bb_invariant pos.

Lemma put_piece_invariant (pc : Piece) (s : Z) :
  is_board_piece pc = true -> is_ok_square s = true -> empty_square pos s ->
  bb_invariant (put_piece PSQT_psq pc s pos).
Proof.
  intros Hpc Hs [_ Hempty].
  destruct (is_board_piece_inv pc Hpc) as [c [pt [-> Hpt]]].
  apply is_ok_square_nonneg in Hs.
  pose proof (piece_type_not_all pt Hpt) as Hpt0.
  apply bb_invariant_bitwise. intros i Hi.
  pose proof (proj1 (bb_invariant_bitwise pos) Hinv i Hi) as Hbit.
  cbn [put_piece byTypeBB byColorBB type_of_piece color_of].
  unfold pieces in Hempty.
  assert (HT : forall q, In q piece_types ->
            Z.testbit
              (upd_type
                 (upd_type (byTypeBB pos) pt
                    (Z.lor (byTypeBB pos pt) (square_bb s)))
                 ALL_PIECES
                 (Z.lor
                    (upd_type (byTypeBB pos) pt
                       (Z.lor (byTypeBB pos pt) (square_bb s)) ALL_PIECES)
                    (upd_type (byTypeBB pos) pt
                       (Z.lor (byTypeBB pos pt) (square_bb s)) pt)) q) i
            = Z.testbit (byTypeBB pos q) i || (PieceType_eqb q pt && (s =? i))).
  { intros q Hq. unfold upd_type. rewrite (piece_type_not_all q Hq).
    destruct (PieceType_eqb q pt) eqn:E.
    - apply PieceType_eqb_eq in E. subst q.
      now rewrite Z.lor_spec, square_bb_bit.
    - now rewrite orb_false_r. }
  assert (HA : Z.testbit
              (upd_type
                 (upd_type (byTypeBB pos) pt
                    (Z.lor (byTypeBB pos pt) (square_bb s)))
                 ALL_PIECES
                 (Z.lor
                    (upd_type (byTypeBB pos) pt
                       (Z.lor (byTypeBB pos pt) (square_bb s)) ALL_PIECES)
                    (upd_type (byTypeBB pos) pt
                       (Z.lor (byTypeBB pos pt) (square_bb s)) pt))
                 ALL_PIECES) i
            = Z.testbit (byTypeBB pos ALL_PIECES) i
              || (Z.testbit (byTypeBB pos pt) i || (s =? i))).
  { unfold upd_type. rewrite PieceType_eqb_refl.
    assert (Hap : PieceType_eqb ALL_PIECES pt = false)
      by (destruct pt; try reflexivity; discriminate).
    rewrite Hap, PieceType_eqb_refl, !Z.lor_spec.
    now rewrite square_bb_bit. }
  assert (HC : forall c', Z.testbit
              (upd_color (byColorBB pos) c
                 (Z.lor (byColorBB pos c) (square_bb s)) c') i
            = Z.testbit (byColorBB pos c') i || (Color_eqb c' c && (s =? i))).
  { intros c'. unfold upd_color. destruct (Color_eqb c' c) eqn:E.
    - assert (c' = c) by (destruct c', c; try reflexivity; discriminate).
      subst c'. now rewrite Z.lor_spec, square_bb_bit.
    - now rewrite orb_false_r. }
  destruct (Z.eqb_spec s i) as [<- | Hne].
  - apply (bit_invariant_ext _ _ _ _
             (bit_invariant_set _ _ _ _ Hbit pt c Hpt Hempty)).
    + intros q Hq. rewrite (HT q Hq). now rewrite andb_true_r.
    + rewrite HA. now rewrite !orb_true_r.
    + rewrite HC. now rewrite andb_true_r.
    + rewrite HC. now rewrite andb_true_r.
  - apply (bit_invariant_ext _ _ _ _ Hbit).
    + intros q Hq. rewrite (HT q Hq). now rewrite andb_false_r, orb_false_r.
    + rewrite HA, orb_false_r.
      destruct (Z.testbit (byTypeBB pos pt) i) eqn:E.
      * now rewrite (bit_invariant_type_in_all _ _ _ _ Hbit pt Hpt E).
      * now rewrite orb_false_r.
    + rewrite HC. now rewrite andb_false_r, orb_false_r.
    + rewrite HC. now rewrite andb_false_r, orb_false_r.
Qed.

(** [remove_piece] and [move_piece] toggle the bits of a mask in the
    occupancy, in the board of the piece's type and in the board of its
    colour. *)
Lemma toggled_bits (pt : PieceType) (c : Color) (mask i : Z) :
  In pt piece_types ->
  let byType1 := upd_type (byTypeBB pos) ALL_PIECES
                   (Z.lxor (byTypeBB pos ALL_PIECES) mask) in
  let byType2 := upd_type byType1 pt (Z.lxor (byType1 pt) mask) in
  let byColor := upd_color (byColorBB pos) c (Z.lxor (byColorBB pos c) mask) in
  (forall q, In q piece_types ->
     Z.testbit (byType2 q) i
     = xorb (Z.testbit (byTypeBB pos q) i)
         (PieceType_eqb q pt && Z.testbit mask i))
  /\ Z.testbit (byType2 ALL_PIECES) i
     = xorb (Z.testbit (byTypeBB pos ALL_PIECES) i) (Z.testbit mask i)
  /\ (forall c', Z.testbit (byColor c') i
        = xorb (Z.testbit (byColorBB pos c') i)
            (Color_eqb c' c && Z.testbit mask i)).
Proof.
  intros Hpt byType1 byType2 byColor.
  pose proof (piece_type_not_all pt Hpt) as Hpt0.
  assert (Hap : PieceType_eqb ALL_PIECES pt = false)
    by (destruct pt; try reflexivity; discriminate).
  unfold byType2, byType1, byColor, upd_type, upd_color. repeat split.
  - intros q Hq. rewrite (piece_type_not_all q Hq).
    destruct (PieceType_eqb q pt) eqn:E.
    + apply PieceType_eqb_eq in E. subst q.
      now rewrite Hpt0, Z.lxor_spec.
    + now rewrite xorb_false_r.
  - rewrite Hap, PieceType_eqb_refl. now rewrite Z.lxor_spec.
  - intros c'. destruct (Color_eqb c' c) eqn:E.
    + assert (c' = c) by (destruct c', c; try reflexivity; discriminate).
      subst c'. now rewrite Z.lxor_spec.
    + now rewrite xorb_false_r.
Qed.

(** What [occupied_square] says at the bit of its square. *)
Lemma occupied_square_bits (s : Z) :
  occupied_square pos s ->
  exists c pt,
    board pos s = make_piece c pt /\ In pt piece_types
    /\ Z.testbit (byTypeBB pos pt) s = true
    /\ (if Color_eqb WHITE c then Z.testbit (byColorBB pos WHITE) s
        else Z.testbit (byColorBB pos BLACK) s) = true
    /\ (if Color_eqb WHITE c then Z.testbit (byColorBB pos BLACK) s
        else Z.testbit (byColorBB pos WHITE) s) = false.
Proof.
  unfold occupied_square, piece_on. intros [Hpc [Ht [Hc Ho]]].
  destruct (is_board_piece_inv _ Hpc) as [c [pt [E Hpt]]].
  rewrite E in *. cbn [type_of_piece color_of] in *.
  exists c, pt. repeat split; try assumption; now destruct c.
Qed.

(** Toggling the bit of an occupied square clears it; toggling the bit of
    an empty square sets it; other bits stay. *)
Lemma toggle_clears (T : PieceType -> bool) (A W B : bool)
    (T' : PieceType -> bool) (A' W' B' : bool) (pt : PieceType) (c : Color) :
  bit_invariant T A W B ->
  In pt piece_types -> T pt = true ->
  (if Color_eqb WHITE c then W else B) = true ->
  (if Color_eqb WHITE c then B else W) = false ->
  (forall q, In q piece_types -> T' q = xorb (T q) (PieceType_eqb q pt && true)) ->
  A' = xorb A true ->
  W' = xorb W (Color_eqb WHITE c && true) ->
  B' = xorb B (Color_eqb BLACK c && true) ->
  bit_invariant T' A' W' B'.
Proof.
  intros Hbit Hpt Ht Hown Hother HT HA HW' HB'.
  apply (bit_invariant_ext _ _ _ _
           (bit_invariant_clear _ _ _ _ Hbit pt c Hpt Ht Hown Hother)).
  - intros q Hq. rewrite (HT q Hq). now rewrite andb_true_r.
  - exact HA.
  - now rewrite HW', andb_true_r.
  - now rewrite HB', andb_true_r.
Qed.

Lemma toggle_sets (T : PieceType -> bool) (A W B : bool)
    (T' : PieceType -> bool) (A' W' B' : bool) (pt : PieceType) (c : Color) :
  bit_invariant T A W B ->
  In pt piece_types -> A = false ->
  (forall q, In q piece_types -> T' q = xorb (T q) (PieceType_eqb q pt && true)) ->
  A' = xorb A true ->
  W' = xorb W (Color_eqb WHITE c && true) ->
  B' = xorb B (Color_eqb BLACK c && true) ->
  bit_invariant T' A' W' B'.
Proof.
  intros Hbit Hpt Ha HT HA HW' HB'.
  destruct (bit_invariant_empty_colors _ _ _ _ Hbit Ha) as [HW HB].
  apply (bit_invariant_ext _ _ _ _
           (bit_invariant_set _ _ _ _ Hbit pt c Hpt Ha)).
  - intros q Hq. rewrite (HT q Hq), andb_true_r.
    now rewrite (bit_invariant_empty _ _ _ _ Hbit q Ha Hq).
  - now rewrite HA, Ha.
  - now rewrite HW', andb_true_r, HW.
  - now rewrite HB', andb_true_r, HB.
Qed.

Lemma toggle_keeps (T : PieceType -> bool) (A W B : bool)
    (T' : PieceType -> bool) (A' W' B' : bool) (pt : PieceType) (c : Color) :
  bit_invariant T A W B ->
  (forall q, In q piece_types -> T' q = xorb (T q) (PieceType_eqb q pt && false)) ->
  A' = xorb A false ->
  W' = xorb W (Color_eqb WHITE c && false) ->
  B' = xorb B (Color_eqb BLACK c && false) ->
  bit_invariant T' A' W' B'.
Proof.
  intros Hbit HT HA HW' HB'. apply (bit_invariant_ext _ _ _ _ Hbit).
  - intros q Hq. rewrite (HT q Hq). now rewrite andb_false_r, xorb_false_r.
  - now rewrite HA, xorb_false_r.
  - now rewrite HW', andb_false_r, xorb_false_r.
  - now rewrite HB', andb_false_r, xorb_false_r.
Qed.

Lemma remove_piece_invariant (s : Z) :
  is_ok_square s = true -> occupied_square pos s ->
  bb_invariant (remove_piece PSQT_psq s pos).
Proof.
  intros Hs Hocc. apply is_ok_square_nonneg in Hs.
  destruct (occupied_square_bits s Hocc) as [c [pt [E [Hpt [Ht [Hown Hoth]]]]]].
  apply bb_invariant_bitwise. intros i Hi.
  pose proof (proj1 (bb_invariant_bitwise pos) Hinv i Hi) as Hbit.
  cbn [remove_piece byTypeBB byColorBB]. rewrite E.
  cbn [type_of_piece color_of].
  destruct (toggled_bits pt c (square_bb s) i Hpt) as [HT [HA HC]].
  rewrite square_bb_bit in HT, HA, HC by assumption.
  destruct (Z.eqb_spec s i) as [<- | Hne].
  - eapply (toggle_clears _ _ _ _ _ _ _ _ pt c Hbit Hpt Ht Hown Hoth);
      [exact HT | exact HA | exact (HC WHITE) | exact (HC BLACK)].
  - eapply (toggle_keeps _ _ _ _ _ _ _ _ pt c Hbit);
      [exact HT | exact HA | exact (HC WHITE) | exact (HC BLACK)].
Qed.

Lemma move_piece_invariant (from to : Z) :
  is_ok_square from = true -> is_ok_square to = true ->
  occupied_square pos from -> empty_square pos to ->
  bb_invariant (move_piece PSQT_psq from to pos).
Proof.
  intros Hf Ht Hocc [_ Hempty].
  apply is_ok_square_nonneg in Hf. apply is_ok_square_nonneg in Ht.
  destruct (occupied_square_bits from Hocc)
    as [c [pt [E [Hpt [Htf [Hown Hoth]]]]]].
  unfold pieces in Hempty.
  assert (Hneq : from <> to).
  { intros ->.
    pose proof (proj1 (bb_invariant_bitwise pos) Hinv to Ht) as Hbit.
    rewrite (bit_invariant_type_in_all _ _ _ _ Hbit pt Hpt Htf) in Hempty.
    discriminate. }
  apply bb_invariant_bitwise. intros i Hi.
  pose proof (proj1 (bb_invariant_bitwise pos) Hinv i Hi) as Hbit.
  cbn [move_piece byTypeBB byColorBB]. rewrite E.
  cbn [type_of_piece color_of].
  destruct (toggled_bits pt c (Z.lor (square_bb from) (square_bb to)) i Hpt)
    as [HT [HA HC]].
  rewrite Z.lor_spec, !square_bb_bit in HT, HA, HC by assumption.
  destruct (Z.eqb_spec from i) as [<- | Hnf].
  - assert (Hto : (to =? from) = false) by (apply Z.eqb_neq; congruence).
    rewrite Hto in *. cbn [orb] in *.
    eapply (toggle_clears _ _ _ _ _ _ _ _ pt c Hbit Hpt Htf Hown Hoth);
      [exact HT | exact HA | exact (HC WHITE) | exact (HC BLACK)].
  - destruct (Z.eqb_spec to i) as [<- | Hnt]; cbn [orb] in *.
    + eapply (toggle_sets _ _ _ _ _ _ _ _ pt c Hbit Hpt Hempty);
        [exact HT | exact HA | exact (HC WHITE) | exact (HC BLACK)].
    + eapply (toggle_keeps _ _ _ _ _ _ _ _ pt c Hbit);
        [exact HT | exact HA | exact (HC WHITE) | exact (HC BLACK)].
Qed.

(** C6.  The invariant [byTypeBB[ALL_PIECES] == byColorBB[WHITE] |
    byColorBB[BLACK]], with the per-piece-type bitboards pairwise disjoint
    and their union equal to [byTypeBB[ALL_PIECES]], is preserved by every
    [put_piece(pc, s)] onto an empty square, every [remove_piece(s)] of an
    occupied square and every [move_piece(from, to)] from an occupied
    square to an empty square. *)
Theorem placement_preserves_invariant (op : PlacementOp) :
  placement_allowed pos op ->
  bb_invariant (apply_placement PSQT_psq op pos).
Proof.
  destruct op as [pc s | s | from to]; cbn [placement_allowed apply_placement].
  - intros [Hpc [Hs He]]. now apply put_piece_invariant.
  - intros [Hs Ho]. now apply remove_piece_invariant.
  - intros [Hf [Ht [Ho He]]]. now apply move_piece_invariant.
Qed.

End PlacementFacts.

Lemma empty_position_invariant : bb_invariant empty_position.
Proof.
  unfold bb_invariant. repeat split; try reflexivity.
Qed.

Lemma king_and_rook_invariant : bb_invariant king_and_rook.
Proof.
  unfold king_and_rook.
  apply put_piece_invariant; [|reflexivity|reflexivity|now split].
  apply put_piece_invariant; [|reflexivity|reflexivity|now split].
  exact empty_position_invariant.
Qed.

Lemma placement_preserves_invariant_witness :
  bb_invariant king_and_rook
  /\ placement_allowed king_and_rook (MovePiece 7 5)
  /\ bb_invariant (apply_placement no_psqt (MovePiece 7 5) king_and_rook).
Proof.
  pose proof king_and_rook_invariant as H1.
  assert (H2 : placement_allowed king_and_rook (MovePiece 7 5)).
  { cbn [placement_allowed]. unfold occupied_square, empty_square.
    repeat split; reflexivity. }
  split; [exact H1|]. split; [exact H2|].
  exact (placement_preserves_invariant no_psqt king_and_rook H1
           (MovePiece 7 5) H2).
Defined.

(** ** Captures and the capture stage *)

Lemma MoveType_eqb_eq (a b : MoveType) : MoveType_eqb a b = true <-> a = b.
Proof.
  destruct a, b; cbn; split; intros H; try reflexivity; discriminate.
Qed.

(** A castling move built by [Move::make<CASTLING>(from, to)] carries the
    default promotion field, [KNIGHT]. *)
Lemma Move_make_castling_fields (from to : Z) :
  type_of (Move_make CASTLING from to KNIGHT) = CASTLING
  /\ promotion_type (Move_make CASTLING from to KNIGHT) <> QUEEN.
Proof. split; [reflexivity | discriminate]. Qed.




(** ** Continuation histories *)

Section ContinuationFacts.
Variable D : Z.

(** Entries no write is aimed at keep their value. *)
Lemma apply_writes_other (ws : list HistoryWrite) (t : Z) (pc : Piece)
    (to : Z) :
  forall h,
    (forall w, In w ws ->
       (t =? hw_table w) && Piece_eqb pc (hw_piece w) && (to =? hw_to w)
       = false) ->
    fold_left (apply_write D) ws h t pc to = h t pc to.
Proof.
  induction ws as [|w ws IH]; intros h Hno; cbn [fold_left]; [reflexivity|].
  rewrite IH by (intros w' Hw'; apply Hno; now right).
  unfold apply_write. now rewrite (Hno w (or_introl eq_refl)).
Qed.

(** C9 (as amended).  A call [update_continuation_histories(ss, pc, to,
    bonus)] writes, in this order, through the frames [ss - 1] and
    [ss - 2] and, unless [ss->inCheck], through [ss - 3], [ss - 4] and
    [ss - 6] - each only if its current move is a real move - and through
    no other frame ([ss - 5] never).  Each write goes to entry [[pc][to]]
    of the table the frame points to, with [bonus] (a quarter of it at
    offset 3); every entry of another table, piece or square keeps its
    value. *)
Theorem update_continuation_frames (stack : Z -> StackFrame) (ss : Z)
    (pc : Piece) (to bonus : Z) :
  let ws := update_continuation_writes stack ss pc to bonus in
  map hw_offset ws =
    filter (fun i => Move_is_ok (sf_currentMove (stack (ss - i))))
      (if sf_inCheck (stack ss) then [1; 2] else [1; 2; 3; 4; 6])
  /\ ~ In 5 (map hw_offset ws)
  /\ (forall w, In w ws ->
        hw_table w = sf_continuationHistory (stack (ss - hw_offset w))
        /\ hw_piece w = pc /\ hw_to w = to
        /\ hw_amount w = Z.quot bonus (if hw_offset w =? 3 then 4 else 1))
  /\ (forall h t pc' to',
        (forall w, In w ws -> hw_table w <> t)
        \/ Piece_eqb pc' pc = false \/ to' <> to ->
        update_continuation_histories D stack ss pc to bonus h t pc' to'
        = h t pc' to').
Proof.
  intros ws.
  assert (Hoff : map hw_offset ws =
    filter (fun i => Move_is_ok (sf_currentMove (stack (ss - i))))
      (if sf_inCheck (stack ss) then [1; 2] else [1; 2; 3; 4; 6])).
  { unfold ws, update_continuation_writes. cbn [continuation_writes filter].
    destruct (sf_inCheck (stack ss)); cbn [andb Z.gtb Z.compare Pos.compare
      Pos.compare_cont filter];
      repeat (destruct (Move_is_ok _)); reflexivity. }
  assert (Hw : forall w, In w ws ->
        hw_table w = sf_continuationHistory (stack (ss - hw_offset w))
        /\ hw_piece w = pc /\ hw_to w = to
        /\ hw_amount w = Z.quot bonus (if hw_offset w =? 3 then 4 else 1)).
  { unfold ws, update_continuation_writes. cbn [continuation_writes].
    destruct (sf_inCheck (stack ss)); cbn [andb Z.gtb Z.compare Pos.compare
      Pos.compare_cont];
      repeat (destruct (Move_is_ok _)); cbn [In]; intros w Hin;
      repeat (destruct Hin as [<- | Hin]; [repeat split|]);
      contradiction. }
  split; [exact Hoff|]. split; [|split; [exact Hw|]].
  - rewrite Hoff. intros Hin. apply filter_In in Hin. destruct Hin as [Hin _].
    destruct (sf_inCheck (stack ss)); cbn [In] in Hin;
      repeat (destruct Hin as [Hin | Hin]; [discriminate|]); contradiction.
  - intros h t pc' to' Hkey. unfold update_continuation_histories. fold ws.
    apply apply_writes_other. intros w Hin.
    destruct (Hw w Hin) as [_ [Hp [Ht _]]]. rewrite Hp, Ht.
    destruct Hkey as [Hk | [Hk | Hk]].
    + apply Hk in Hin. apply not_eq_sym, Z.eqb_neq in Hin. now rewrite Hin.
    + now rewrite Hk, andb_false_r.
    + apply Z.eqb_neq in Hk. now rewrite Hk, andb_false_r.
Qed.

End ContinuationFacts.

(** C9 as stated fails: when [ss->inCheck], the frames [ss - 3], [ss - 4]
    and [ss - 6] hold real moves but are not written through; the entry of
    the table of [ss - 3], which the same call raises to 25 when not in
    check, keeps its value 0. *)
Lemma update_continuation_frames_counterexample :
  Move_is_ok (sf_currentMove (busy_stack true (10 - 3))) = true
  /\ Move_is_ok (sf_currentMove (busy_stack true (10 - 4))) = true
  /\ Move_is_ok (sf_currentMove (busy_stack true (10 - 6))) = true
  /\ map hw_offset
       (update_continuation_writes (busy_stack true) 10
          (make_piece WHITE KNIGHT) 28 100) = [1; 2]
  /\ update_continuation_histories 29952 (busy_stack true) 10
       (make_piece WHITE KNIGHT) 28 100 zero_histories
       7 (make_piece WHITE KNIGHT) 28 = 0
  /\ update_continuation_histories 29952 (busy_stack false) 10
       (make_piece WHITE KNIGHT) 28 100 zero_histories
       7 (make_piece WHITE KNIGHT) 28 = 25.
Proof. repeat split; reflexivity. Qed.

(** ** Move rendering *)

Lemma file_of_make_square (f r : Z) :
  0 <= f <= 7 -> 0 <= r -> file_of (make_square f r) = f.
Proof.
  intros Hf Hr. unfold file_of, make_square.
  rewrite Z.shiftl_mul_pow2 by lia. change 7 with (Z.ones 3).
  rewrite Z.land_ones by lia. change (2 ^ 3) with 8.
  rewrite Z.add_comm, Z.mod_add by lia. apply Z.mod_small. lia.
Qed.

Lemma rank_of_make_square (f r : Z) :
  0 <= f <= 7 -> 0 <= r -> rank_of (make_square f r) = r.
Proof.
  intros Hf Hr. unfold rank_of, make_square.
  rewrite Z.shiftl_mul_pow2, Z.shiftr_div_pow2 by lia. change (2 ^ 3) with 8.
  rewrite Z.add_comm, Z.div_add by lia. rewrite Z.div_small by lia. lia.
Qed.

Lemma rank_of_nonneg (s : Z) : 0 <= s -> 0 <= rank_of s.
Proof. intros Hs. unfold rank_of. now apply Z.shiftr_nonneg. Qed.

(** A move that is not of type [NORMAL] is neither sentinel. *)
Lemma special_move_not_sentinel (m : Move) :
  type_of m <> NORMAL ->
  Move_eqb m Move_none = false /\ Move_eqb m Move_null = false.
Proof.
  intros Ht. unfold Move_eqb. cbn [type_of Move_none Move_null].
  destruct (type_of m); [contradiction| | |]; cbn [MoveType_eqb];
    now rewrite !andb_false_r.
Qed.

Local Open Scope string_scope.

(** C8.  [UCI::move] prints ["(none)"] for the none sentinel and
    ["0000"] for the null move.  A castling move is printed, when
    [chess960] is false, with the king going to file g (rook square to
    the right of the king) or file c (otherwise) on the king's rank, and,
    when [chess960] is true, with the rook's square as destination.  A
    promotion gets the letter of its promotion piece appended to the
    from-to string: [n] for a knight, [b] for a bishop, [r] for a rook and
    [q] for a queen (the letter at the piece type's index in
    [" pnbrqk"]).  Every other move that is not a sentinel is printed as
    the from-to string alone. *)
Theorem UCI_move_rendering (m : Move) (chess960 : bool) :
  is_ok_square (from_sq m) = true ->
  UCI_move Move_none chess960 = "(none)"
  /\ UCI_move Move_null chess960 = "0000"
  /\ (type_of m = CASTLING ->
      UCI_move m false =
        UCI_square (from_sq m)
        ++ String (if (to_sq m >? from_sq m)%Z then "g" else "c")%char
             (String (char_of_Z (49 + rank_of (from_sq m))) EmptyString)
      /\ UCI_move m true = UCI_square (from_sq m) ++ UCI_square (to_sq m))
  /\ (type_of m = PROMOTION ->
      UCI_move m chess960 =
        (UCI_square (from_sq m) ++ UCI_square (to_sq m))
        ++ match promotion_type m with
           | NO_PIECE_TYPE => " "
           | PAWN => "p"
           | KNIGHT => "n"
           | BISHOP => "b"
           | ROOK => "r"
           | QUEEN => "q"
           | KING => "k"
           end)
  /\ (type_of m = NORMAL \/ type_of m = EN_PASSANT ->
      Move_is_ok m = true ->
      UCI_move m chess960 = UCI_square (from_sq m) ++ UCI_square (to_sq m)).
Proof.
  intros Hfrom. apply is_ok_square_nonneg in Hfrom.
  pose proof (rank_of_nonneg _ Hfrom) as Hrank.
  split; [reflexivity|]. split; [reflexivity|]. split; [|split].
  - intros Ht.
    destruct (special_move_not_sentinel m) as [Hn Hz];
      [rewrite Ht; discriminate|].
    unfold UCI_move. rewrite Hn, Hz, Ht. cbn [MoveType_eqb andb negb].
    split; [|reflexivity]. f_equal. unfold UCI_square.
    destruct (to_sq m >? from_sq m)%Z.
    + rewrite file_of_make_square, rank_of_make_square
        by (unfold FILE_G; lia). reflexivity.
    + rewrite file_of_make_square, rank_of_make_square
        by (unfold FILE_C; lia). reflexivity.
  - intros Ht.
    destruct (special_move_not_sentinel m) as [Hn Hz];
      [rewrite Ht; discriminate|].
    unfold UCI_move. rewrite Hn, Hz, Ht. cbn [MoveType_eqb andb].
    cbv zeta. f_equal. destruct (promotion_type m); reflexivity.
  - intros Ht Hok. unfold Move_is_ok in Hok.
    apply andb_true_iff in Hok as [Hn Hz].
    apply negb_true_iff in Hn. apply negb_true_iff in Hz.
    unfold UCI_move. rewrite Hn, Hz.
    destruct Ht as [-> | ->]; reflexivity.
Qed.

Lemma UCI_move_rendering_witness :
  is_ok_square (from_sq castle_short) = true
  /\ type_of castle_short = CASTLING
  /\ is_ok_square (from_sq a7a8q) = true
  /\ type_of a7a8q = PROMOTION
  /\ is_ok_square (from_sq g7h8n) = true
  /\ is_ok_square (from_sq e2e4) = true
  /\ UCI_move Move_none false = "(none)"
  /\ UCI_move Move_null false = "0000"
  /\ UCI_move castle_short false = "e1g1"
  /\ UCI_move castle_short true = "e1h1"
  /\ UCI_move a7a8q false = "a7a8q"
  /\ UCI_move g7h8n true = "g7h8n"
  /\ UCI_move e2e4 false = "e2e4".
Proof.
  assert (H1 : is_ok_square (from_sq castle_short) = true) by reflexivity.
  assert (H2 : type_of castle_short = CASTLING) by reflexivity.
  assert (H3 : is_ok_square (from_sq a7a8q) = true) by reflexivity.
  assert (H4 : type_of a7a8q = PROMOTION) by reflexivity.
  assert (H5 : is_ok_square (from_sq g7h8n) = true) by reflexivity.
  assert (H6 : is_ok_square (from_sq e2e4) = true) by reflexivity.
  destruct (UCI_move_rendering castle_short false H1) as [Ha [Hb [Hc _]]].
  destruct (Hc H2) as [Hd He].
  destruct (UCI_move_rendering a7a8q false H3) as [_ [_ [_ [Hq _]]]].
  destruct (UCI_move_rendering g7h8n true H5) as [_ [_ [_ [Hn _]]]].
  destruct (UCI_move_rendering e2e4 false H6) as [_ [_ [_ [_ Hp]]]].
  split; [exact H1|]. split; [exact H2|]. split; [exact H3|].
  split; [exact H4|]. split; [exact H5|]. split; [exact H6|].
  split; [exact Ha|]. split; [exact Hb|]. split; [exact Hd|].
  split; [exact He|]. split; [exact (Hq H4)|].
  split; [exact (Hn eq_refl)|].
  exact (Hp (or_introl eq_refl) eq_refl).
Defined.

(** Rendering on concrete moves. *)
Example UCI_move_examples :
  UCI_move (Move_make CASTLING 60 56 KNIGHT) false = "e8c8"
  /\ UCI_move (Move_make CASTLING 60 56 KNIGHT) true = "e8a8"
  /\ UCI_move (Move_make PROMOTION 48 56 QUEEN) false = "a7a8q"
  /\ UCI_move (Move_make PROMOTION 54 63 KNIGHT) true = "g7h8n"
  /\ UCI_move e2e4 false = "e2e4".
Proof. repeat split; reflexivity. Qed.

Local Close Scope string_scope.

(** * Further properties of the code *)

(** ** The head of [search]: mate distance pruning and the tablebase probe *)

Section SearchHeadFacts.
Context `{K : ValueConsts}.

(** X1.  Mate distance pruning (Step 3).  When a non-root node gets past
    Steps 2 and 3, the search is not stopped, the position is not a draw
    and the ply is below [MAX_PLY]; the window that goes on is not empty,
    lies inside the window that came in, and is cut to the scores that can
    still be reached: nothing below "mated at this ply", nothing above
    "mate at the next ply". *)
Theorem mate_distance_window (o : NodeObs) (alpha beta a b : Z) :
  abort_and_mate_distance_step false o alpha beta = Next (a, b) ->
  threads_stop o = false /\ pos_is_draw o = false /\ ss_ply o < MAX_PLY
  /\ alpha <= a /\ a < b /\ b <= beta
  /\ mated_in (ss_ply o) <= a /\ b <= mate_in (ss_ply o + 1).
Proof.
  unfold abort_and_mate_distance_step. cbn [negb].
  destruct (threads_stop o || pos_is_draw o || (ss_ply o >=? MAX_PLY)) eqn:E;
    [discriminate|].
  case_cond; [discriminate|]. intros H. injection H as <- <-.
  bool_arith. repeat split; try assumption; lia.
Qed.

(** X2.  The tablebase probe (Step 5) keeps the window open.  When the
    step goes on with an open window [alpha < beta], alpha has not been
    lowered and is still below beta; alpha moves only to the tablebase
    score, which is then also the new [bestValue]; a new cap [maxValue] is
    above alpha; and outside PV nodes no local is written at all. *)
Theorem tablebase_step_window (nt : NodeType) (tb : TBObs) (excl : Move)
    (rule50 ply depth alpha beta bestValue maxValue a bv mv : Z) :
  alpha < beta ->
  tablebase_step nt tb excl rule50 ply depth alpha beta bestValue maxValue
    = Next (a, bv, mv) ->
  alpha <= a /\ a < beta
  /\ (a <> alpha -> bv = a)
  /\ (mv <> maxValue -> alpha < mv)
  /\ (is_PvNode nt = false ->
      a = alpha /\ bv = bestValue /\ mv = maxValue).
Proof.
  intros Hw. unfold tablebase_step. cbv zeta.
  repeat case_cond; try discriminate;
    intros H; injection H as <- <- <-; bool_arith;
    repeat split; intros; try congruence; try lia.
Qed.

(** X3.  A tablebase cutoff (Step 5) happens only away from the root,
    without an excluded move, with the rule-50 counter at 0 and no
    castling right left, and returns one of three scores: a tablebase win
    [VALUE_TB - ply] that fails high, a tablebase loss [-(VALUE_TB - ply)]
    that fails low, or a draw score within 2 of [VALUE_DRAW]. *)
Theorem tablebase_step_cutoff (nt : NodeType) (tb : TBObs) (excl : Move)
    (rule50 ply depth alpha beta bestValue maxValue v : Z) :
  tablebase_step nt tb excl rule50 ply depth alpha beta bestValue maxValue
    = Return v ->
  is_rootNode nt = false /\ Move_to_bool excl = false /\ rule50 = 0
  /\ tb_can_castle tb = false /\ tb_probe_failed tb = false
  /\ tb_piecesCount tb <= tb_Cardinality tb
  /\ ((v = VALUE_TB - ply /\ beta <= v)
      \/ (v = - (VALUE_TB - ply) /\ v <= alpha)
      \/ (VALUE_DRAW - 2 <= v <= VALUE_DRAW + 2)).
Proof.
  unfold tablebase_step. cbv zeta.
  destruct (negb (is_rootNode nt) && negb (Move_to_bool excl)
            && negb (tb_Cardinality tb =? 0)) eqn:E1; [|discriminate].
  destruct ((tb_piecesCount tb <=? tb_Cardinality tb)
            && ((tb_piecesCount tb <? tb_Cardinality tb)
                || (depth >=? tb_ProbeDepth tb))
            && (rule50 =? 0) && negb (tb_can_castle tb)) eqn:E2;
    [|discriminate].
  destruct (negb (tb_probe_failed tb)) eqn:E3; [|discriminate].
  bool_arith.
  destruct (tb_UseRule50 tb);
    repeat case_cond; try discriminate;
    intros Hret; apply Return_inj in Hret; bool_arith;
    repeat (split; [assumption || lia|]); lia.
Qed.

End SearchHeadFacts.

Lemma mate_distance_window_witness :
  abort_and_mate_distance_step false cycle_node (-32001) 32001
    = Next (-31996, 31995)
  /\ -32001 <= -31996 /\ -31996 < 31995 /\ 31995 <= 32001.
Proof.
  assert (H : abort_and_mate_distance_step false cycle_node (-32001) 32001
              = Next (-31996, 31995)) by reflexivity.
  split; [exact H|].
  destruct (mate_distance_window cycle_node (-32001) 32001 (-31996) 31995 H)
    as [_ [_ [_ [Ha [Hab [Hb _]]]]]].
  split; [exact Ha|]. split; [exact Hab | exact Hb].
Defined.

Lemma tablebase_step_window_witness :
  -32000 < 200
  /\ tablebase_step PV losing_probe Move_none 0 3 4 (-32000) 200 (-32001) 32001
     = Next (-32000, -32001, -31750)
  /\ -32000 <= -32000 /\ -32000 < 200.
Proof.
  assert (H1 : -32000 < 200) by lia.
  assert (H2 : tablebase_step PV losing_probe Move_none 0 3 4 (-32000) 200
                 (-32001) 32001 = Next (-32000, -32001, -31750))
    by reflexivity.
  split; [exact H1|]. split; [exact H2|].
  destruct (tablebase_step_window PV losing_probe Move_none 0 3 4 (-32000) 200
              (-32001) 32001 (-32000) (-32001) (-31750) H1 H2)
    as [Ha [Hb _]].
  split; [exact Ha | exact Hb].
Defined.

Lemma tablebase_step_cutoff_witness :
  tablebase_step NonPV losing_probe Move_none 0 3 4 (-200) 200 (-32001) 32001
    = Return (-31750)
  /\ is_rootNode NonPV = false /\ tb_can_castle losing_probe = false.
Proof.
  assert (H : tablebase_step NonPV losing_probe Move_none 0 3 4 (-200) 200
                (-32001) 32001 = Return (-31750)) by reflexivity.
  split; [exact H|].
  destruct (tablebase_step_cutoff NonPV losing_probe Move_none 0 3 4 (-200) 200
              (-32001) 32001 (-31750) H) as [Hr [_ [_ [Hc _]]]].
  split; [exact Hr | exact Hc].
Defined.

(** ** The null-move search is a shallower zero-window search *)

Section NullMoveCallFacts.
Context `{K : ValueConsts}.

(** X4.  Whenever Step 9 makes its reduced search at a node of depth
    [depth >= 0], the call is a zero-window search just below [beta]
    ([(-beta, -beta + 1)] from the child's side) with the cut-node flag
    flipped, and its depth is at least 4 + depth/3 plies (3 + depth/3 in
    the classic searcher) and at most 10 + depth/3 plies (11 + depth/3)
    below the depth of the node. *)
Theorem null_move_call_shape (v : NullMoveVariant) (PvNode : bool)
    (o : NullMoveObs) (beta depth : Z) (cutNode : bool) (c : SearchCall) :
  0 <= depth ->
  null_search_of v PvNode o beta depth cutNode = Some c ->
  call_alpha c = - beta /\ call_beta c = call_alpha c + 1
  /\ call_cutNode c = negb cutNode
  /\ call_depth c < depth
  /\ match v with
     | ModernNull _ =>
         depth - (Z.quot depth 3 + 10) <= call_depth c
         <= depth - (Z.quot depth 3 + 4)
     | ClassicNull =>
         depth - (Z.quot depth 3 + 11) <= call_depth c
         <= depth - (Z.quot depth 3 + 3)
     end.
Proof.
  intros Hdepth Hcall.
  assert (Hq : 0 <= Z.quot depth 3) by (apply Z.quot_pos; lia).
  assert (Hguard : null_guard_of v PvNode o beta depth = true).
  { destruct v; cbn [null_search_of null_guard_of] in *;
      unfold null_move_search, ClassicNullMove.null_move_search in Hcall;
      now destruct (_ : bool) in Hcall |- *. }
  pose proof (null_guard_eval_ge_beta v PvNode o beta depth Hguard) as Hev.
  destruct v as [Shashin|]; cbn [null_search_of null_guard_of] in *;
    unfold null_move_search, ClassicNullMove.null_move_search in Hcall;
    rewrite Hguard in Hcall;
    assert (Hc : c = _) by (symmetry; exact (f_equal
      (fun r => match r with Some x => x | None => c end) Hcall));
    rewrite Hc; cbn [call_alpha call_beta call_depth call_cutNode];
    unfold null_move_R, ClassicNullMove.null_move_R.
  - assert (Hq1 : 0 <= Z.quot (nm_eval o - beta) 144)
      by (apply Z.quot_pos; lia).
    repeat split; lia.
  - assert (Hq1 : 0 <= Z.quot (nm_eval o - beta) 168)
      by (apply Z.quot_pos; lia).
    destruct (nm_complexity o >? 861); repeat split; lia.
Qed.

End NullMoveCallFacts.

Lemma null_move_call_shape_witness :
  0 <= 20
  /\ null_search_of (ModernNull false) false (null_move_node 244) 100 20 false
     = Some {| call_alpha := -100; call_beta := -99; call_depth := 9;
               call_cutNode := true |}
  /\ 9 < 20.
Proof.
  assert (H1 : 0 <= 20) by lia.
  assert (H2 : null_search_of (ModernNull false) false (null_move_node 244)
                 100 20 false
               = Some {| call_alpha := -100; call_beta := -99;
                         call_depth := 9; call_cutNode := true |})
    by reflexivity.
  split; [exact H1|]. split; [exact H2|].
  destruct (null_move_call_shape (ModernNull false) false (null_move_node 244)
              100 20 false _ H1 H2) as [_ [_ [_ [Hd _]]]].
  exact Hd.
Defined.

(** ** Quiescence search without a legal move *)

Section QSearchNoMoveFacts.
Context `{K : ValueConsts}.
Variables DEPTH_QS_CHECKS DEPTH_QS_NO_CHECKS VALUE_KNOWN_WIN : Z.

(** A move that is not legal is skipped before anything is counted or
    searched. *)
Lemma q_move_loop_no_legal (PvNode Shashin : bool) (o : QNodeObs)
    (beta fb : Z) (ms : list QMove) (l : QLoop) :
  forallb (fun m => negb (qm_legal m)) ms = true ->
  q_move_loop PvNode Shashin o beta fb ms l = l.
Proof.
  induction ms as [|m rest IH]; cbn [forallb q_move_loop]; intros H;
    [reflexivity|].
  apply andb_true_iff in H as [Hm Hr].
  assert (Hs : q_move_step PvNode Shashin o beta fb m l = (l, false))
    by (unfold q_move_step; now rewrite Hm).
  rewrite Hs. now apply IH.
Qed.

Lemma classic_q_move_loop_no_legal (PvNode : bool) (o : QNodeObs)
    (beta fb : Z) (ms : list QMove) (l : QLoop) :
  forallb (fun m => negb (qm_legal m)) ms = true ->
  ClassicQ.q_move_loop VALUE_KNOWN_WIN PvNode o beta fb ms l = l.
Proof.
  induction ms as [|m rest IH]; cbn [forallb ClassicQ.q_move_loop]; intros H;
    [reflexivity|].
  apply andb_true_iff in H as [Hm Hr].
  assert (Hs : ClassicQ.q_move_step VALUE_KNOWN_WIN PvNode o beta fb m l
               = (l, false))
    by (unfold ClassicQ.q_move_step; now rewrite Hm).
  rewrite Hs. now apply IH.
Qed.

(** X5.  Mate detection in [qsearch] (Step 9).  A node in check that gets
    past the early exits and has no legal move among the moves the picker
    yields returns [mated_in(ss->ply)], whatever the window, in the modern
    and in the classic searcher. *)
Theorem qsearch_checkmate (v : QVariant) (o : QNodeObs) (ms : list QMove)
    (alpha beta depth alpha' : Z) :
  q_entry_of DEPTH_QS_CHECKS DEPTH_QS_NO_CHECKS v o alpha beta depth
    = Next alpha' ->
  q_inCheck o = true ->
  forallb (fun m => negb (qm_legal m)) ms = true ->
  qsearch_of DEPTH_QS_CHECKS DEPTH_QS_NO_CHECKS VALUE_KNOWN_WIN
    v o ms alpha beta depth = mated_in (q_ply o).
Proof.
  intros Hentry Hchk Hms.
  destruct v as [pv sh | pv]; cbn [q_entry_of qsearch_of] in *.
  - unfold qsearch. rewrite Hentry. unfold q_from_static_eval.
    rewrite Hchk, (q_move_loop_no_legal pv sh o beta _ ms _ Hms).
    unfold q_finish. cbn [ql_bestValue]. now rewrite Hchk, Z.eqb_refl.
  - unfold ClassicQ.qsearch. rewrite Hentry.
    unfold ClassicQ.q_from_static_eval.
    rewrite Hchk, (classic_q_move_loop_no_legal pv o beta _ ms _ Hms).
    unfold ClassicQ.q_finish. cbn [ql_bestValue].
    now rewrite Hchk, Z.eqb_refl.
Qed.

(** X6.  [qsearch] does not detect stalemate.  A node that is not in
    check, gets past the early exits and has no legal move among the moves
    the picker yields returns its stand-pat score as it is, below or above
    [beta]. *)
Theorem qsearch_no_legal_move (v : QVariant) (o : QNodeObs) (ms : list QMove)
    (alpha beta depth alpha' : Z) :
  q_entry_of DEPTH_QS_CHECKS DEPTH_QS_NO_CHECKS v o alpha beta depth
    = Next alpha' ->
  q_inCheck o = false ->
  forallb (fun m => negb (qm_legal m)) ms = true ->
  qsearch_of DEPTH_QS_CHECKS DEPTH_QS_NO_CHECKS VALUE_KNOWN_WIN
    v o ms alpha beta depth = stand_pat_of v o.
Proof.
  intros Hentry Hchk Hms.
  destruct v as [pv sh | pv]; cbn [q_entry_of qsearch_of stand_pat_of] in *.
  - unfold qsearch. rewrite Hentry. unfold q_from_static_eval.
    rewrite Hchk. case_cond; [reflexivity|].
    rewrite (q_move_loop_no_legal pv sh o beta _ ms _ Hms).
    unfold q_finish. cbn [ql_bestValue]. rewrite Hchk, E.
    now rewrite andb_false_r.
  - unfold ClassicQ.qsearch. rewrite Hentry.
    unfold ClassicQ.q_from_static_eval.
    rewrite Hchk. case_cond; [reflexivity|].
    rewrite (classic_q_move_loop_no_legal pv o beta _ ms _ Hms).
    unfold ClassicQ.q_finish. cbn [ql_bestValue]. now rewrite Hchk.
Qed.

End QSearchNoMoveFacts.

Lemma qsearch_checkmate_witness :
  q_entry_of 0 (-1) (ModernQ false false) check_qnode (-50) 50 0 = Next (-50)
  /\ q_inCheck check_qnode = true
  /\ forallb (fun m => negb (qm_legal m)) [illegal_move; illegal_move] = true
  /\ qsearch_of 0 (-1) 10000 (ModernQ false false) check_qnode
       [illegal_move; illegal_move] (-50) 50 0 = -31997.
Proof.
  assert (H1 : q_entry_of 0 (-1) (ModernQ false false) check_qnode (-50) 50 0
               = Next (-50)) by reflexivity.
  assert (H2 : q_inCheck check_qnode = true) by reflexivity.
  assert (H3 : forallb (fun m => negb (qm_legal m))
                 [illegal_move; illegal_move] = true) by reflexivity.
  split; [exact H1|]. split; [exact H2|]. split; [exact H3|].
  exact (qsearch_checkmate 0 (-1) 10000 (ModernQ false false) check_qnode
           [illegal_move; illegal_move] (-50) 50 0 (-50) H1 H2 H3).
Defined.

Lemma qsearch_no_legal_move_witness :
  q_entry_of 0 (-1) (ClassicQ true) (quiet_qnode 17) (-50) 50 0 = Next (-50)
  /\ q_inCheck (quiet_qnode 17) = false
  /\ forallb (fun m => negb (qm_legal m)) [illegal_move] = true
  /\ qsearch_of 0 (-1) 10000 (ClassicQ true) (quiet_qnode 17)
       [illegal_move] (-50) 50 0 = 17.
Proof.
  assert (H1 : q_entry_of 0 (-1) (ClassicQ true) (quiet_qnode 17) (-50) 50 0
               = Next (-50)) by reflexivity.
  assert (H2 : q_inCheck (quiet_qnode 17) = false) by reflexivity.
  assert (H3 : forallb (fun m => negb (qm_legal m)) [illegal_move] = true)
    by reflexivity.
  split; [exact H1|]. split; [exact H2|]. split; [exact H3|].
  exact (qsearch_no_legal_move 0 (-1) 10000 (ClassicQ true) (quiet_qnode 17)
           [illegal_move] (-50) 50 0 (-50) H1 H2 H3).
Defined.

(** ** What the end of [search] writes *)

Lemma clamp_between (v lo hi : Z) : lo <= hi -> lo <= clamp v lo hi <= hi.
Proof.
  intros H. unfold clamp. repeat case_cond; bool_arith; lia.
Qed.

Section SearchEndWrites.
Context `{K : ValueConsts}.
Variable CORRECTION_HISTORY_LIMIT : Z.

(** The statistics branch never writes to the transposition table or to
    the correction history. *)
Lemma end_statistics_kind (nt : NodeType) (x : LoopExit) (e : Effect) :
  In e (end_statistics nt x) ->
  (exists m bv b d, e = UpdateAllStats m bv b d)
  \/ (exists bonus, e = PriorCountermoveBonus bonus).
Proof.
  unfold end_statistics.
  repeat case_cond; cbn [In]; intros H; try contradiction;
    destruct H as [<- | []]; eauto 6.
Qed.

(** X7.  The transposition-table store at the end of [search].  A store
    is made only without an excluded move and, at the root, only for the
    first PV line.  It stores the returned score shifted by the ply
    ([value_to_tt]), the depth, the best move and the unadjusted static
    evaluation of the node; the bound is [BOUND_LOWER] exactly when the
    returned score is at least [beta], [BOUND_EXACT] exactly when it is
    below [beta] at a PV node with a best move, and never [BOUND_NONE]. *)
Theorem search_end_tt_save (nt : NodeType) (Shashin : bool) (x : LoopExit)
    (v : Z) (ttPv : bool) (b : Bound) (d : Z) (m : Move) (ev : Z) :
  In (TTSave v ttPv b d m ev)
     (fst (search_end CORRECTION_HISTORY_LIMIT nt Shashin x)) ->
  let r := snd (search_end CORRECTION_HISTORY_LIMIT nt Shashin x) in
  Move_to_bool (le_excludedMove x) = false
  /\ (is_rootNode nt = true -> le_pvIdx x = 0)
  /\ v = value_to_tt r (le_ply x)
  /\ d = le_depth x /\ m = le_bestMove x /\ ev = le_unadjustedStaticEval x
  /\ (b = BOUND_LOWER <-> le_beta x <= r)
  /\ (b = BOUND_EXACT <->
      r < le_beta x /\ is_PvNode nt = true
      /\ Move_to_bool (le_bestMove x) = true)
  /\ b <> BOUND_NONE.
Proof.
  unfold search_end. cbn [fst snd]. cbv zeta.
  set (r := if is_PvNode nt && (negb Shashin || negb (le_capablanca x))
            then Z.min (mate_stalemate_value x) (le_maxValue x)
            else mate_stalemate_value x).
  intros H. apply in_app_or in H as [H | H].
  { apply end_statistics_kind in H as [[? [? [? [? H]]]] | [? H]];
      discriminate. }
  apply in_app_or in H as [H | H].
  2:{ revert H. case_cond; cbn [In]; intros H; try contradiction;
      destruct H as [H | []]; discriminate. }
  revert H.
  destruct (negb (Move_to_bool (le_excludedMove x))
            && negb (is_rootNode nt && negb (le_pvIdx x =? 0))) eqn:E;
    cbn [In]; intros H; try contradiction; destruct H as [H | []].
  assert (Hv : v = value_to_tt r (le_ply x)) by congruence.
  assert (Hd : d = le_depth x) by congruence.
  assert (Hm : m = le_bestMove x) by congruence.
  assert (He : ev = le_unadjustedStaticEval x) by congruence.
  assert (Hb : b = if r >=? le_beta x then BOUND_LOWER
                   else if is_PvNode nt && Move_to_bool (le_bestMove x)
                        then BOUND_EXACT else BOUND_UPPER) by congruence.
  clear H. bool_arith.
  split; [assumption|]. split.
  { intros Hroot. rewrite Hroot in *. cbn [andb] in *.
    match goal with Hx : _ \/ _ |- _ => destruct Hx as [Hx | Hx] end;
      [discriminate | bool_arith; assumption]. }
  split; [exact Hv|]. split; [exact Hd|]. split; [exact Hm|].
  split; [exact He|].
  rewrite Hb.
  destruct (r >=? le_beta x) eqn:E1;
    destruct (is_PvNode nt) eqn:E2;
    destruct (Move_to_bool (le_bestMove x)) eqn:E3;
    cbn [andb]; bool_arith;
    (split; [split; intros; try discriminate; try reflexivity; lia|]);
    (split; [split; [intros; try discriminate; repeat split; lia
                    | intros [? [? ?]]; try discriminate; try reflexivity; lia]
            | discriminate]).
Qed.

(** X8.  The correction-history update at the end of [search] is made
    only out of check and never for a capturing best move, and its bonus
    stays within a quarter of [CORRECTION_HISTORY_LIMIT] on either side. *)
Theorem correction_history_bonus_bounded (nt : NodeType) (Shashin : bool)
    (x : LoopExit) (bonus : Z) :
  0 <= CORRECTION_HISTORY_LIMIT ->
  In (CorrectionHistoryUpdate bonus)
     (fst (search_end CORRECTION_HISTORY_LIMIT nt Shashin x)) ->
  - Z.quot CORRECTION_HISTORY_LIMIT 4 <= bonus
    <= Z.quot CORRECTION_HISTORY_LIMIT 4
  /\ le_inCheck x = false
  /\ (Move_to_bool (le_bestMove x) = true -> le_bestMove_captures x = false).
Proof.
  intros HL. unfold search_end. cbn [fst snd]. cbv zeta.
  set (r := if is_PvNode nt && (negb Shashin || negb (le_capablanca x))
            then Z.min (mate_stalemate_value x) (le_maxValue x)
            else mate_stalemate_value x).
  intros H. apply in_app_or in H as [H | H].
  { apply end_statistics_kind in H as [[? [? [? [? H]]]] | [? H]];
      discriminate. }
  apply in_app_or in H as [H | H].
  { revert H. case_cond; cbn [In]; intros H; try contradiction;
      destruct H as [H | []]; discriminate. }
  revert H.
  destruct (negb (le_inCheck x)
            && (negb (Move_to_bool (le_bestMove x))
                || negb (le_bestMove_captures x))
            && negb ((r >=? le_beta x) && (r <=? le_staticEval x))
            && negb (negb (Move_to_bool (le_bestMove x))
                     && (r >=? le_staticEval x))) eqn:E;
    cbn [In]; intros H; try contradiction; destruct H as [H | []].
  assert (Hb : bonus = clamp (Z.quot ((r - le_staticEval x) * le_depth x) 8)
                         (Z.quot (- CORRECTION_HISTORY_LIMIT) 4)
                         (Z.quot CORRECTION_HISTORY_LIMIT 4)) by congruence.
  clear H.
  assert (Hq : 0 <= Z.quot CORRECTION_HISTORY_LIMIT 4)
    by (apply Z.quot_pos; lia).
  rewrite Z.quot_opp_l in Hb by lia.
  pose proof (clamp_between (Z.quot ((r - le_staticEval x) * le_depth x) 8)
                (- Z.quot CORRECTION_HISTORY_LIMIT 4)
                (Z.quot CORRECTION_HISTORY_LIMIT 4)) as Hc.
  rewrite <- Hb in Hc.
  apply andb_true_iff in E as [E _]. apply andb_true_iff in E as [E _].
  apply andb_true_iff in E as [E1 E2]. apply negb_true_iff in E1.
  split; [lia|]. split; [exact E1|].
  intros Hm. rewrite Hm in E2. cbn [negb orb] in E2.
  now apply negb_true_iff in E2.
Qed.

End SearchEndWrites.

Lemma search_end_tt_save_witness :
  In (TTSave 250 false BOUND_LOWER 4 (mkMove 12 28 KNIGHT NORMAL) 40)
     (fst (search_end 1024 NonPV false fail_high_exit))
  /\ Move_to_bool (le_excludedMove fail_high_exit) = false
  /\ (BOUND_LOWER = BOUND_LOWER <->
      le_beta fail_high_exit
      <= snd (search_end 1024 NonPV false fail_high_exit)).
Proof.
  assert (H : In (TTSave 250 false BOUND_LOWER 4
                    (mkMove 12 28 KNIGHT NORMAL) 40)
                (fst (search_end 1024 NonPV false fail_high_exit)))
    by (vm_compute; right; left; reflexivity).
  split; [exact H|].
  destruct (search_end_tt_save 1024 NonPV false fail_high_exit _ _ _ _ _ _ H)
    as [H1 [_ [_ [_ [_ [_ [H2 _]]]]]]].
  split; [exact H1 | exact H2].
Defined.

Lemma correction_history_bonus_bounded_witness :
  0 <= 1024
  /\ In (CorrectionHistoryUpdate 105)
        (fst (search_end 1024 NonPV false fail_high_exit))
  /\ - Z.quot 1024 4 <= 105 <= Z.quot 1024 4.
Proof.
  assert (H1 : 0 <= 1024) by lia.
  assert (H2 : In (CorrectionHistoryUpdate 105)
                 (fst (search_end 1024 NonPV false fail_high_exit)))
    by (vm_compute; right; right; left; reflexivity).
  split; [exact H1|]. split; [exact H2|].
  destruct (correction_history_bonus_bounded 1024 NonPV false fail_high_exit
              105 H1 H2) as [Hb _].
  exact Hb.
Defined.

(** ** Piece placement: undoing and composing the operations *)

Lemma Piece_eqb_eq (a b : Piece) : Piece_eqb a b = true <-> a = b.
Proof.
  destruct a as [|c1 p1], b as [|c2 p2]; cbn [Piece_eqb];
    split; intros H; try reflexivity; try discriminate.
  - apply andb_true_iff in H as [Hc Hp]. apply PieceType_eqb_eq in Hp.
    subst p2. destruct c1, c2; try reflexivity; discriminate.
  - injection H as <- <-. rewrite PieceType_eqb_refl.
    now destruct c1.
Qed.

Lemma lxor_twice (a m : Z) : Z.lxor (Z.lxor a m) m = a.
Proof. now rewrite Z.lxor_assoc, Z.lxor_nilpotent, Z.lxor_0_r. Qed.

(** The two toggles [byTypeBB[ALL_PIECES] ^= m; byTypeBB[pt] ^= m] and
    the toggle [byColorBB[c] ^= m], read at one index. *)
Lemma toggle_type_board (t : PieceType -> Z) (pt q : PieceType) (m : Z) :
  upd_type (upd_type t ALL_PIECES (Z.lxor (t ALL_PIECES) m)) pt
    (Z.lxor (upd_type t ALL_PIECES (Z.lxor (t ALL_PIECES) m) pt) m) q
  = Z.lxor (t q)
      (if xorb (PieceType_eqb q pt) (PieceType_eqb q ALL_PIECES)
       then m else 0).
Proof.
  destruct pt, q;
    cbv [upd_type PieceType_eqb PieceType_to_Z ALL_PIECES Z.eqb Pos.eqb xorb];
    rewrite ?lxor_twice, ?Z.lxor_0_r; reflexivity.
Qed.

Lemma toggle_color_board (f : Color -> Z) (c c' : Color) (m : Z) :
  upd_color f c (Z.lxor (f c) m) c'
  = Z.lxor (f c') (if Color_eqb c' c then m else 0).
Proof.
  destruct c, c'; cbv [upd_color Color_eqb];
    rewrite ?Z.lxor_0_r; reflexivity.
Qed.

Section PlacementRoundTrips.
Variable PSQT_psq : Piece -> Z -> Z.
Variable pos : Position.

(** X9.  [move_piece(to, from)] undoes [move_piece(from, to)]: whenever
    the target square was empty, moving the piece there and back leaves
    the board array, every bitboard, the piece counts and the piece-square
    score as they were (this is how [undo_move] takes a move back). *)
Theorem move_piece_there_and_back (from to : Z) :
  empty pos to = true ->
  same_position
    (move_piece PSQT_psq to from (move_piece PSQT_psq from to pos)) pos.
Proof.
  intros Hempty. unfold empty, piece_on in Hempty.
  apply Piece_eqb_eq in Hempty.
  remember (move_piece PSQT_psq from to pos) as pos' eqn:Hpos'.
  assert (HB : forall s, board pos' s
                = upd_square (upd_square (board pos) from NO_PIECE) to
                    (board pos from) s) by (now subst pos').
  assert (HT : forall q, byTypeBB pos' q
                = Z.lxor (byTypeBB pos q)
                    (if xorb (PieceType_eqb q (type_of_piece (board pos from)))
                          (PieceType_eqb q ALL_PIECES)
                     then Z.lor (square_bb from) (square_bb to) else 0)).
  { subst pos'. intros q. cbn [move_piece byTypeBB].
    apply toggle_type_board. }
  assert (HC : forall c, byColorBB pos' c
                = Z.lxor (byColorBB pos c)
                    (if Color_eqb c (color_of (board pos from))
                     then Z.lor (square_bb from) (square_bb to) else 0)).
  { subst pos'. intros c. cbn [move_piece byColorBB].
    apply toggle_color_board. }
  assert (HN : forall pc, pieceCount pos' pc = pieceCount pos pc)
    by (now subst pos').
  assert (HP : psq pos' = psq pos + (PSQT_psq (board pos from) to
                                     - PSQT_psq (board pos from) from))
    by (now subst pos').
  assert (Hpc : board pos' to = board pos from).
  { rewrite HB. unfold upd_square. now rewrite Z.eqb_refl. }
  clear Hpos'. unfold same_position.
  cbn [move_piece board byTypeBB byColorBB pieceCount psq].
  rewrite Hpc, (Z.lor_comm (square_bb to) (square_bb from)).
  split; [|split; [|split; [|split]]].
  - intros s. unfold upd_square. rewrite HB. unfold upd_square.
    destruct (Z.eqb_spec s from) as [-> | Hf]; [reflexivity|].
    destruct (Z.eqb_spec s to) as [-> | Ht]; [now symmetry | reflexivity].
  - intros q. rewrite toggle_type_board, HT. apply lxor_twice.
  - intros c. rewrite toggle_color_board, HC. apply lxor_twice.
  - exact HN.
  - rewrite HP. lia.
Qed.

Hypothesis Hinv : bb_invariant pos.

(** A piece-type board lies inside the occupancy. *)
Lemma type_board_in_occupancy (pt : PieceType) (i : Z) :
  In pt piece_types -> 0 <= i ->
  Z.testbit (byTypeBB pos pt) i = true ->
  Z.testbit (byTypeBB pos ALL_PIECES) i = true.
Proof.
  intros Hpt Hi Ht.
  pose proof (proj1 (bb_invariant_bitwise pos) Hinv i Hi) as Hbit.
  exact (bit_invariant_type_in_all _ _ _ _ Hbit pt Hpt Ht).
Qed.

(** No bitboard has the bit of an empty square. *)
Lemma empty_square_bits (s : Z) :
  0 <= s -> empty_square pos s ->
  Z.testbit (byTypeBB pos ALL_PIECES) s = false
  /\ (forall q, In q piece_types -> Z.testbit (byTypeBB pos q) s = false)
  /\ (forall c, Z.testbit (byColorBB pos c) s = false).
Proof.
  intros Hs [_ Ha]. unfold pieces in Ha.
  pose proof (proj1 (bb_invariant_bitwise pos) Hinv s Hs) as Hbit.
  split; [exact Ha|]. split.
  - intros q Hq. exact (bit_invariant_empty _ _ _ _ Hbit q Ha Hq).
  - destruct (bit_invariant_empty_colors _ _ _ _ Hbit Ha) as [HW HB].
    now intros [|].
Qed.

(** Every bitboard of the piece on an occupied square has its bit. *)
Lemma occupied_square_all_bits (s : Z) :
  0 <= s -> occupied_square pos s ->
  exists c pt,
    board pos s = make_piece c pt /\ In pt piece_types
    /\ Z.testbit (byTypeBB pos ALL_PIECES) s = true
    /\ Z.testbit (byTypeBB pos pt) s = true
    /\ Z.testbit (byColorBB pos c) s = true.
Proof.
  intros Hs Hocc.
  destruct (occupied_square_bits pos s Hocc)
    as [c [pt [Hb [Hpt [Ht [Hc _]]]]]].
  exists c, pt. split; [exact Hb|]. split; [exact Hpt|].
  split; [now apply (type_board_in_occupancy pt s)|].
  split; [exact Ht|]. now destruct c.
Qed.

(** [put_piece] read at one index of [byTypeBB]. *)
Lemma put_type_board (t : PieceType -> Z) (pt q : PieceType) (b : Z) :
  In pt piece_types ->
  upd_type (upd_type t pt (Z.lor (t pt) b)) ALL_PIECES
    (Z.lor (upd_type t pt (Z.lor (t pt) b) ALL_PIECES)
       (upd_type t pt (Z.lor (t pt) b) pt)) q
  = if PieceType_eqb q ALL_PIECES
    then Z.lor (t ALL_PIECES) (Z.lor (t pt) b)
    else if PieceType_eqb q pt then Z.lor (t pt) b else t q.
Proof.
  intros Hpt.
  destruct pt; try (exfalso; cbn in Hpt; intuition discriminate);
    destruct q;
    cbv [upd_type PieceType_eqb PieceType_to_Z ALL_PIECES Z.eqb Pos.eqb];
    reflexivity.
Qed.

(** The piece counters after [++pieceCount[pc]] and
    [++pieceCount[make_piece(color_of(pc), ALL_PIECES)]] followed by the
    two decrements, in either order of the pairs. *)
Lemma count_up_down (n : Piece -> Z) (c : Color) (pt : PieceType)
    (d1 d2 : Z) (x : Piece) :
  In pt piece_types -> d1 + d2 = 0 ->
  let pc := make_piece c pt in
  let all := make_piece c ALL_PIECES in
  let n1 := upd_piece n pc (n pc + d1) in
  let n2 := upd_piece n1 all (n1 all + d1) in
  let n3 := upd_piece n2 pc (n2 pc + d2) in
  upd_piece n3 all (n3 all + d2) x = n x.
Proof.
  intros Hpt Hd pc all n1 n2 n3.
  assert (Hap : Piece_eqb all pc = false).
  { unfold all, pc. cbn [Piece_eqb].
    rewrite (PieceType_eqb_neq ALL_PIECES pt), andb_false_r; [reflexivity|].
    intros <-. cbn in Hpt. intuition discriminate. }
  assert (Hpa : Piece_eqb pc all = false).
  { destruct (Piece_eqb pc all) eqn:E; [|reflexivity].
    apply Piece_eqb_eq in E. rewrite E in Hap.
    now rewrite (proj2 (Piece_eqb_eq all all) eq_refl) in Hap. }
  assert (Haa : Piece_eqb all all = true) by now apply Piece_eqb_eq.
  assert (Hpp : Piece_eqb pc pc = true) by now apply Piece_eqb_eq.
  unfold n3, n2, n1, upd_piece.
  rewrite ?Hap, ?Hpa, ?Haa, ?Hpp.
  destruct (Piece_eqb x all) eqn:E1.
  - apply Piece_eqb_eq in E1. subst x. lia.
  - destruct (Piece_eqb x pc) eqn:E2; [|reflexivity].
    apply Piece_eqb_eq in E2. subst x. lia.
Qed.

(** X10.  [remove_piece(s)] undoes [put_piece(pc, s)]: on a position
    that satisfies the bitboard invariant, putting a piece on an empty
    square and removing it again leaves the board array, every bitboard,
    the piece counts and the piece-square score as they were. *)
Theorem remove_piece_undoes_put_piece (pc : Piece) (s : Z) :
  is_board_piece pc = true -> is_ok_square s = true -> empty_square pos s ->
  same_position (remove_piece PSQT_psq s (put_piece PSQT_psq pc s pos)) pos.
Proof.
  intros Hpc Hs Hempty.
  destruct (is_board_piece_inv pc Hpc) as [c [pt [-> Hpt]]].
  apply is_ok_square_nonneg in Hs.
  destruct (empty_square_bits s Hs Hempty) as [HA [HT HC]].
  destruct Hempty as [Hboard _]. unfold empty, piece_on in Hboard.
  apply Piece_eqb_eq in Hboard.
  pose proof (piece_type_not_all pt Hpt) as Hpt0.
  remember (put_piece PSQT_psq (make_piece c pt) s pos) as pos' eqn:Hpos'.
  assert (HB' : board pos' = upd_square (board pos) s (make_piece c pt))
    by (now subst pos').
  assert (HT' : forall q, byTypeBB pos' q
                 = if PieceType_eqb q ALL_PIECES
                   then Z.lor (byTypeBB pos ALL_PIECES)
                          (Z.lor (byTypeBB pos pt) (square_bb s))
                   else if PieceType_eqb q pt
                        then Z.lor (byTypeBB pos pt) (square_bb s)
                        else byTypeBB pos q).
  { subst pos'. intros q. cbn [put_piece byTypeBB type_of_piece].
    now apply put_type_board. }
  assert (HC' : forall c', byColorBB pos' c'
                 = if Color_eqb c' c
                   then Z.lor (byColorBB pos c) (square_bb s)
                   else byColorBB pos c') by (now subst pos').
  assert (HN' : pieceCount pos'
                = upd_piece
                    (upd_piece (pieceCount pos) (make_piece c pt)
                       (pieceCount pos (make_piece c pt) + 1))
                    (make_piece c ALL_PIECES)
                    (upd_piece (pieceCount pos) (make_piece c pt)
                       (pieceCount pos (make_piece c pt) + 1)
                       (make_piece c ALL_PIECES) + 1)) by (now subst pos').
  assert (HP' : psq pos' = psq pos + PSQT_psq (make_piece c pt) s)
    by (now subst pos').
  assert (Hpc' : board pos' s = make_piece c pt).
  { rewrite HB'. unfold upd_square. now rewrite Z.eqb_refl. }
  clear Hpos'. unfold same_position.
  cbn [remove_piece board byTypeBB byColorBB pieceCount psq].
  rewrite Hpc'. cbn [type_of_piece color_of].
  split; [|split; [|split; [|split]]].
  - intros x. rewrite HB'. unfold upd_square.
    destruct (Z.eqb_spec x s) as [-> | Hx]; [now symmetry | reflexivity].
  - intros q. rewrite toggle_type_board, HT'.
    destruct (PieceType_eqb q ALL_PIECES) eqn:E1.
    + apply PieceType_eqb_eq in E1. subst q.
      rewrite (PieceType_eqb_neq ALL_PIECES pt)
        by (intros <-; now rewrite PieceType_eqb_refl in Hpt0).
      cbn [xorb]. apply Z.bits_inj'. intros i Hi.
      rewrite Z.lxor_spec, !Z.lor_spec, square_bb_bit by assumption.
      destruct (Z.eqb_spec s i) as [<- | Hne].
      * now rewrite HA, (HT pt Hpt).
      * rewrite !orb_false_r, xorb_false_r.
        destruct (Z.testbit (byTypeBB pos pt) i) eqn:E; [|apply orb_false_r].
        now rewrite (type_board_in_occupancy pt i Hpt Hi E).
    + destruct (PieceType_eqb q pt) eqn:E2; [|apply Z.lxor_0_r].
      apply PieceType_eqb_eq in E2. subst q. cbn [xorb].
      apply Z.bits_inj'. intros i Hi.
      rewrite Z.lxor_spec, Z.lor_spec, square_bb_bit by assumption.
      destruct (Z.eqb_spec s i) as [<- | Hne].
      * now rewrite (HT pt Hpt).
      * now rewrite orb_false_r, xorb_false_r.
  - intros c'. rewrite toggle_color_board, !HC'.
    replace (Color_eqb c c) with true by now destruct c.
    destruct (Color_eqb c' c) eqn:E; [|apply Z.lxor_0_r].
    assert (c' = c) by (destruct c', c; try reflexivity; discriminate).
    subst c'. apply Z.bits_inj'. intros i Hi.
    rewrite Z.lxor_spec, Z.lor_spec, square_bb_bit by assumption.
    destruct (Z.eqb_spec s i) as [<- | Hne].
    + now rewrite (HC c).
    + now rewrite orb_false_r, xorb_false_r.
  - intros x. rewrite HN'.
    exact (count_up_down (pieceCount pos) c pt 1 (-1) x Hpt eq_refl).
  - rewrite HP'. lia.
Qed.

(** X11.  [move_piece(from, to)] does what [remove_piece(from)] followed
    by [put_piece(pc, to)] does: on a position that satisfies the bitboard
    invariant, with a piece [pc] on [from] and [to] empty, the two leave
    the same board array, bitboards, piece counts and piece-square
    score. *)
Theorem move_piece_is_remove_then_put (from to : Z) :
  is_ok_square from = true -> is_ok_square to = true ->
  occupied_square pos from -> empty_square pos to ->
  same_position (move_piece PSQT_psq from to pos)
    (put_piece PSQT_psq (piece_on pos from) to
       (remove_piece PSQT_psq from pos)).
Proof.
  intros Hf Ht Hocc Hempty.
  apply is_ok_square_nonneg in Hf. apply is_ok_square_nonneg in Ht.
  destruct (occupied_square_all_bits from Hf Hocc)
    as [c [pt [Hb [Hpt [HAf [HTf HCf]]]]]].
  destruct (empty_square_bits to Ht Hempty) as [HAt [HTt HCt]].
  pose proof (piece_type_not_all pt Hpt) as Hpt0.
  assert (Hne : from <> to) by (intros ->; congruence).
  unfold piece_on. rewrite Hb.
  remember (remove_piece PSQT_psq from pos) as pos' eqn:Hpos'.
  assert (HB' : board pos' = upd_square (board pos) from NO_PIECE)
    by (now subst pos').
  assert (HT' : forall q, byTypeBB pos' q
                 = Z.lxor (byTypeBB pos q)
                     (if xorb (PieceType_eqb q pt) (PieceType_eqb q ALL_PIECES)
                      then square_bb from else 0)).
  { subst pos'. intros q. cbn [remove_piece byTypeBB]. rewrite Hb.
    cbn [type_of_piece]. apply toggle_type_board. }
  assert (HC' : forall c', byColorBB pos' c'
                 = Z.lxor (byColorBB pos c')
                     (if Color_eqb c' c then square_bb from else 0)).
  { subst pos'. intros c'. cbn [remove_piece byColorBB]. rewrite Hb.
    cbn [color_of]. apply toggle_color_board. }
  assert (HN' : pieceCount pos'
                = upd_piece
                    (upd_piece (pieceCount pos) (make_piece c pt)
                       (pieceCount pos (make_piece c pt) - 1))
                    (make_piece c ALL_PIECES)
                    (upd_piece (pieceCount pos) (make_piece c pt)
                       (pieceCount pos (make_piece c pt) - 1)
                       (make_piece c ALL_PIECES) - 1)).
  { subst pos'. cbn [remove_piece pieceCount]. now rewrite Hb. }
  assert (HP' : psq pos' = psq pos - PSQT_psq (make_piece c pt) from).
  { subst pos'. cbn [remove_piece psq]. now rewrite Hb. }
  clear Hpos'. unfold same_position.
  cbn [move_piece put_piece board byTypeBB byColorBB pieceCount psq].
  rewrite Hb. cbn [type_of_piece color_of].
  split; [|split; [|split; [|split]]].
  - intros x. now rewrite HB'.
  - intros q. rewrite toggle_type_board, (put_type_board _ pt q _ Hpt), !HT'.
    rewrite !PieceType_eqb_refl, ?Hpt0.
    rewrite (PieceType_eqb_neq ALL_PIECES pt)
      by (intros <-; now rewrite PieceType_eqb_refl in Hpt0).
    cbn [xorb].
    destruct (PieceType_eqb q ALL_PIECES) eqn:E1.
    + apply PieceType_eqb_eq in E1. subst q.
      rewrite (PieceType_eqb_neq ALL_PIECES pt)
        by (intros <-; now rewrite PieceType_eqb_refl in Hpt0).
      cbn [xorb]. apply Z.bits_inj'. intros i Hi.
      repeat (rewrite Z.lxor_spec || rewrite Z.lor_spec);
        rewrite !square_bb_bit by assumption.
      destruct (Z.eqb_spec from i) as [<- | Hfi].
      * rewrite HAf, HTf. destruct (Z.eqb_spec to from); [congruence|].
        reflexivity.
      * destruct (Z.eqb_spec to i) as [<- | Hti].
        -- now rewrite HAt, (HTt pt Hpt).
        -- rewrite !xorb_false_r, !orb_false_r.
           destruct (Z.testbit (byTypeBB pos pt) i) eqn:E;
             [|now rewrite orb_false_r].
           now rewrite (type_board_in_occupancy pt i Hpt Hi E).
    + destruct (PieceType_eqb q pt) eqn:E2; [|reflexivity].
      apply PieceType_eqb_eq in E2. subst q. cbn [xorb].
      apply Z.bits_inj'. intros i Hi.
      repeat (rewrite Z.lxor_spec || rewrite Z.lor_spec);
        rewrite !square_bb_bit by assumption.
      destruct (Z.eqb_spec from i) as [<- | Hfi].
      * rewrite HTf. destruct (Z.eqb_spec to from); [congruence|].
        reflexivity.
      * destruct (Z.eqb_spec to i) as [<- | Hti].
        -- now rewrite (HTt pt Hpt).
        -- now rewrite !xorb_false_r, !orb_false_r.
  - intros c'. rewrite toggle_color_board. unfold upd_color.
    rewrite !HC'. replace (Color_eqb c c) with true by now destruct c.
    destruct (Color_eqb c' c) eqn:E; [|now rewrite !Z.lxor_0_r].
    assert (c' = c) by (destruct c', c; try reflexivity; discriminate).
    subst c'. apply Z.bits_inj'. intros i Hi.
    repeat (rewrite Z.lxor_spec || rewrite Z.lor_spec);
      rewrite !square_bb_bit by assumption.
    destruct (Z.eqb_spec from i) as [<- | Hfi].
    + rewrite HCf. destruct (Z.eqb_spec to from); [congruence|].
      reflexivity.
    + destruct (Z.eqb_spec to i) as [<- | Hti].
      * now rewrite (HCt c).
      * now rewrite !xorb_false_r, !orb_false_r.
  - intros x. rewrite HN'. symmetry.
    exact (count_up_down (pieceCount pos) c pt (-1) 1 x Hpt eq_refl).
  - rewrite HP'. lia.
Qed.

End PlacementRoundTrips.

Lemma move_piece_there_and_back_witness :
  empty king_and_rook 5 = true
  /\ same_position
       (move_piece no_psqt 5 4 (move_piece no_psqt 4 5 king_and_rook))
       king_and_rook.
Proof.
  assert (H : empty king_and_rook 5 = true) by reflexivity.
  split; [exact H|].
  exact (move_piece_there_and_back no_psqt king_and_rook 4 5 H).
Defined.

Lemma remove_piece_undoes_put_piece_witness :
  bb_invariant king_and_rook
  /\ is_board_piece (make_piece BLACK QUEEN) = true
  /\ is_ok_square 59 = true
  /\ empty_square king_and_rook 59
  /\ same_position
       (remove_piece no_psqt 59
          (put_piece no_psqt (make_piece BLACK QUEEN) 59 king_and_rook))
       king_and_rook.
Proof.
  pose proof king_and_rook_invariant as H0.
  assert (H1 : is_board_piece (make_piece BLACK QUEEN) = true) by reflexivity.
  assert (H2 : is_ok_square 59 = true) by reflexivity.
  assert (H3 : empty_square king_and_rook 59) by (split; reflexivity).
  split; [exact H0|]. split; [exact H1|]. split; [exact H2|].
  split; [exact H3|].
  exact (remove_piece_undoes_put_piece no_psqt king_and_rook H0
           (make_piece BLACK QUEEN) 59 H1 H2 H3).
Defined.

Lemma move_piece_is_remove_then_put_witness :
  bb_invariant king_and_rook
  /\ is_ok_square 7 = true /\ is_ok_square 5 = true
  /\ occupied_square king_and_rook 7 /\ empty_square king_and_rook 5
  /\ same_position (move_piece no_psqt 7 5 king_and_rook)
       (put_piece no_psqt (piece_on king_and_rook 7) 5
          (remove_piece no_psqt 7 king_and_rook)).
Proof.
  pose proof king_and_rook_invariant as H0.
  assert (H1 : is_ok_square 7 = true) by reflexivity.
  assert (H2 : is_ok_square 5 = true) by reflexivity.
  assert (H3 : occupied_square king_and_rook 7)
    by (unfold occupied_square; repeat split; reflexivity).
  assert (H4 : empty_square king_and_rook 5) by (split; reflexivity).
  split; [exact H0|]. split; [exact H1|]. split; [exact H2|].
  split; [exact H3|]. split; [exact H4|].
  exact (move_piece_is_remove_then_put no_psqt king_and_rook H0 7 5
           H1 H2 H3 H4).
Defined.

(** ** The early cutoffs of [search] *)

Section EarlyCutoffFacts.
Context `{K : ValueConsts}.
Variable VALUE_KNOWN_WIN : Z.
Variables (Shashin PvNode : bool).

(** X12.  The early transposition-table cutoff (Step 4) is taken only at
    non-PV nodes, without an excluded move, below a rule-50 count of 90,
    from an entry deeper than the node whose score is not [VALUE_NONE].
    The entry's bound has to match the side of [beta] the score lies on:
    a score at or above [beta] needs a lower bound, and the returned
    (possibly smoothed) score then stays between [beta] and the stored
    score; a score below [beta] needs an upper bound and is returned as it
    is. *)
Theorem tt_cutoff_value (o : PruningObs) (beta depth v : Z) :
  tt_cutoff_step Shashin PvNode o beta depth = Return v ->
  PvNode = false /\ Move_to_bool (po_excludedMove o) = false
  /\ po_rule50 o < 90 /\ depth < po_tte_depth o
  /\ po_ttValue o <> VALUE_NONE
  /\ ((beta <= po_ttValue o
       /\ bound_and (po_tte_bound o) BOUND_LOWER = true
       /\ beta <= v <= po_ttValue o)
      \/ (po_ttValue o < beta
          /\ bound_and (po_tte_bound o) BOUND_UPPER = true
          /\ v = po_ttValue o)).
Proof.
  unfold tt_cutoff_step.
  case_cond; [|discriminate].
  destruct (po_rule50 o <? 90) eqn:E6; [|discriminate].
  intros Hret. apply Return_inj in Hret.
  apply andb_true_iff in E as [E E5]. apply andb_true_iff in E as [E E4].
  apply andb_true_iff in E as [E E3]. apply andb_true_iff in E as [E _].
  apply andb_true_iff in E as [E1 E1']. apply negb_true_iff in E1, E1'.
  apply negb_true_iff in E4. bool_arith.
  repeat (split; [assumption || lia|]).
  destruct (po_ttValue o >=? beta) eqn:E7; bool_arith.
  - left. split; [lia|]. split; [exact E5|].
    revert Hret. case_cond; cbn [andb]; intros <-; [|lia].
    Z.quot_rem_to_equations. lia.
  - right. split; [lia|]. split; [exact E5|].
    now rewrite andb_false_l in Hret.
Qed.

(** X13.  Razoring (Step 7) returns only a fail low: the value of the
    zero-window [qsearch] just below [alpha], when it is below [alpha];
    and only at nodes whose evaluation is more than
    [472 + 119 * depth^2] below [alpha]. *)
Theorem razoring_fail_low (o : PruningObs) (qs : Z -> Z -> Z)
    (alpha depth v : Z) :
  razoring_step Shashin o qs alpha depth = Return v ->
  v = qs (alpha - 1) alpha /\ v < alpha
  /\ po_eval o < alpha - 472 - 119 * (depth * depth).
Proof.
  unfold razoring_step. cbv zeta.
  case_cond; [|discriminate].
  destruct (po_eval o <? _) eqn:E1; [|discriminate].
  destruct (qs (alpha - 1) alpha <? alpha) eqn:E2; [|discriminate].
  intros Hret. apply Return_inj in Hret. bool_arith.
  pose proof (Z.square_nonneg depth) as Hsq.
  split; [now symmetry|]. split; [lia|].
  unfold b2z in E1. destruct (po_next_cutoffCnt o >? 3); lia.
Qed.

(** X14.  Futility pruning (Step 8) returns only a fail high that the
    evaluation covers: the returned score lies between [beta] and [eval];
    the step fires only below depth 9 and away from PV lines; in the plain
    instance the returned score is below 29008. *)
Theorem futility_step_value (o : PruningObs) (alpha beta depth v : Z)
    (cutNode : bool) :
  futility_step VALUE_KNOWN_WIN Shashin o alpha beta depth cutNode = Return v ->
  beta <= v <= po_eval o /\ depth < 9 /\ po_ttPv o = false
  /\ (Shashin = false -> v < 29008).
Proof.
  unfold futility_step. cbv zeta.
  case_cond; [|discriminate].
  intros Hret. apply Return_inj in Hret.
  assert (Hc : negb (po_ttPv o) && (depth <? 9)
               && (po_eval o
                   - futility_margin depth (cutNode && negb (po_ttHit o))
                       (po_improving o)
                   - Z.quot (po_prev_statScore o) 337 >=? beta)
               && (po_eval o >=? beta) = true
               /\ (Shashin = false -> (po_eval o <? 29008) = true)).
  { destruct Shashin; cbn [negb andb orb] in E;
      rewrite ?orb_false_r in E;
      apply andb_true_iff in E as [E E'].
    - split; [exact E | discriminate].
    - apply andb_true_iff in E as [E E'']. split; [exact E | now intros _]. }
  clear E. destruct Hc as [Hc H29].
  apply andb_true_iff in Hc as [Hc Hev]. apply andb_true_iff in Hc as [Hc _].
  apply andb_true_iff in Hc as [Hpv Hd].
  apply negb_true_iff in Hpv. bool_arith.
  assert (Hv : beta <= v <= po_eval o).
  { revert Hret. case_cond; intros <-; [|lia].
    Z.quot_rem_to_equations. lia. }
  repeat split; try lia; try assumption.
  intros Hs. specialize (H29 Hs). bool_arith. lia.
Qed.

(** X15.  Null-move pruning (Step 9) returns only a proven fail high:
    the returned score is the null-move search's value, at least [beta]
    and below the tablebase-win range; and below depth 15, or while
    [nmpMinPly] is set, no verification search is asked for. *)
Theorem null_move_step_value (o : NullMoveObs) (capablanca high_tal : bool)
    (null_child verify_child : SearchCall -> Z -> Z * Z)
    (beta depth v : Z) (cutNode : bool) :
  fst (null_move_step Shashin PvNode o capablanca high_tal
         null_child verify_child beta depth cutNode) = Return v ->
  exists call,
    null_move_search Shashin PvNode o beta depth cutNode = Some call
    /\ v = - fst (null_child call (nm_nmpMinPly o))
    /\ beta <= v < VALUE_TB_WIN_IN_MAX_PLY
    /\ (15 <= depth -> snd (null_child call (nm_nmpMinPly o)) = 0 ->
        beta <= fst (verify_child
                       {| call_alpha := beta - 1; call_beta := beta;
                          call_depth := call_depth call;
                          call_cutNode := false |}
                       (if negb Shashin || negb capablanca
                        then nm_ply o + Z.quot (3 * call_depth call) 4
                        else 0))).
Proof.
  unfold null_move_step.
  destruct (null_move_search Shashin PvNode o beta depth cutNode)
    as [call|]; [|discriminate].
  destruct (null_child call (nm_nmpMinPly o)) as [cv m1] eqn:Ec.
  cbn [fst snd].
  destruct ((- cv >=? beta) && (- cv <? VALUE_TB_WIN_IN_MAX_PLY)) eqn:E1;
    [|discriminate].
  bool_arith.
  destruct (negb (m1 =? 0) || (depth <? 15)) eqn:E2.
  - cbn [fst]. intros Hret. apply Return_inj in Hret.
    exists call. split; [reflexivity|]. rewrite Ec. cbn [fst snd].
    split; [now symmetry|].
    split; [lia|]. intros Hd Hm. subst m1. bool_arith.
    destruct E2 as [E2 | E2]; [discriminate | bool_arith; lia].
  - bool_arith. subst m1.
    destruct (verify_child _ _) as [vv m3] eqn:Ev.
    destruct (vv >=? beta) eqn:E3; cbn [fst]; [|discriminate].
    intros Hret. apply Return_inj in Hret. bool_arith.
    exists call. split; [reflexivity|]. rewrite Ec. cbn [fst snd].
    split; [now symmetry|].
    split; [lia|]. intros _ _. now rewrite Ev.
Qed.

(** X16.  Step 9 leaves the thread's [nmpMinPly] as it found it,
    provided the null-move child search does: the verification search is
    run only while [nmpMinPly] is 0, and the value set for its duration is
    reset to 0 before the step ends - except in the style layer's High-Tal
    range, where the reset is skipped. *)
Theorem null_move_step_restores_nmpMinPly (o : NullMoveObs)
    (capablanca high_tal : bool)
    (null_child verify_child : SearchCall -> Z -> Z * Z)
    (beta depth : Z) (cutNode : bool) :
  (forall c n, snd (null_child c n) = n) ->
  Shashin && high_tal = false ->
  snd (null_move_step Shashin PvNode o capablanca high_tal
         null_child verify_child beta depth cutNode) = nm_nmpMinPly o.
Proof.
  intros Hchild Hrange. unfold null_move_step.
  destruct (null_move_search Shashin PvNode o beta depth cutNode)
    as [call|]; [|reflexivity].
  pose proof (Hchild call (nm_nmpMinPly o)) as Hm.
  destruct (null_child call (nm_nmpMinPly o)) as [cv m1].
  cbn [snd] in Hm. subst m1.
  case_cond; [|reflexivity].
  destruct (negb (nm_nmpMinPly o =? 0) || (depth <? 15)) eqn:E2;
    [reflexivity|].
  bool_arith.
  destruct (verify_child _ _) as [vv m3].
  assert (Hreset : negb Shashin || negb high_tal = true).
  { destruct Hrange as [Hr | Hr]; rewrite Hr;
      cbn [negb orb]; [reflexivity | apply orb_true_r]. }
  rewrite Hreset. case_cond; cbn [snd]; congruence.
Qed.


(** A cutoff of the ProbCut loop comes from a legal capture, other than
    the excluded move, whose [qsearch] and whose reduced search both
    reached [probCutBeta]. *)
Lemma probcut_loop_return (o : PruningObs) (beta depth probCutBeta v : Z)
    (cutNode : bool) (ms : list ProbCutMove) :
  probcut_loop o beta depth probCutBeta cutNode ms = Return v ->
  exists m value,
    In m ms /\ pm_legal m = true
    /\ Move_eqb (pm_move m) (po_excludedMove o) = false
    /\ probCutBeta <= - pm_qsearch m (- probCutBeta) (- probCutBeta + 1)
    /\ value = - pm_search m {| call_alpha := - probCutBeta;
                                call_beta := - probCutBeta + 1;
                                call_depth := depth - 4;
                                call_cutNode := negb cutNode |}
    /\ probCutBeta <= value
    /\ v = (if Z.abs value <? VALUE_TB_WIN_IN_MAX_PLY
            then value - (probCutBeta - beta) else value).
Proof.
  induction ms as [|m rest IH]; cbn [probcut_loop]; [discriminate|].
  destruct (negb (Move_eqb (pm_move m) (po_excludedMove o)) && pm_legal m)
    eqn:E1.
  - destruct (- pm_qsearch m (- probCutBeta) (- probCutBeta + 1)
              >=? probCutBeta) eqn:E2.
    + destruct (- pm_search m _ >=? probCutBeta) eqn:E3.
      * intros Hret. apply Return_inj in Hret. bool_arith.
        exists m. eexists. split; [now left|].
        repeat (split; [eassumption || reflexivity || lia|]).
        now symmetry.
      * intros Hret. destruct (IH Hret) as [m' [val [Hin H]]].
        exists m', val. split; [now right | exact H].
    + rewrite E2.
      intros Hret. destruct (IH Hret) as [m' [val [Hin H]]].
      exists m', val. split; [now right | exact H].
  - intros Hret. destruct (IH Hret) as [m' [val [Hin H]]].
    exists m', val. split; [now right | exact H].
Qed.

(** X18.  ProbCut (Step 11) returns only a fail high: the step fires
    only above depth 3, the returned score is at least [beta], and it
    comes from a legal capture, other than the excluded move, whose
    [qsearch] value and whose search at [depth - 4] both reached
    [probCutBeta = beta + 163 - 67 * improving], which is above [beta]. *)
Theorem probcut_fail_high (o : PruningObs) (beta depth v : Z)
    (cutNode : bool) (ms : list ProbCutMove) :
  probcut_step Shashin PvNode o beta depth cutNode ms = Return v ->
  beta <= v /\ 3 < depth
  /\ beta < beta + 163 - 67 * b2z (po_improving o)
  /\ exists m,
       In m ms /\ pm_legal m = true
       /\ Move_eqb (pm_move m) (po_excludedMove o) = false
       /\ beta + 163 - 67 * b2z (po_improving o)
          <= - pm_qsearch m (- (beta + 163 - 67 * b2z (po_improving o)))
                 (- (beta + 163 - 67 * b2z (po_improving o)) + 1)
       /\ beta + 163 - 67 * b2z (po_improving o)
          <= - pm_search m
                 {| call_alpha := - (beta + 163 - 67 * b2z (po_improving o));
                    call_beta := - (beta + 163 - 67 * b2z (po_improving o)) + 1;
                    call_depth := depth - 4;
                    call_cutNode := negb cutNode |}.
Proof.
  unfold probcut_step. cbv zeta.
  destruct (probcut_guard Shashin PvNode o beta depth _) eqn:Eg;
    [|discriminate].
  intros Hret.
  destruct (probcut_loop_return _ _ _ _ _ _ _ Hret)
    as [m [value [Hin [Hl [Hex [Hq [Hvalue [Hval Hv]]]]]]]].
  assert (Hmargin : beta < beta + 163 - 67 * b2z (po_improving o))
    by (destruct (po_improving o); cbn [b2z]; lia).
  split; [|split; [|split]].
  - rewrite Hv. case_cond; lia.
  - unfold probcut_guard in Eg. cbv zeta in Eg.
    destruct Shashin; cbn [negb andb orb] in Eg;
      rewrite ?orb_false_r in Eg; bool_arith; lia.
  - exact Hmargin.
  - exists m. split; [exact Hin|]. split; [exact Hl|]. split; [exact Hex|].
    split; [exact Hq|]. rewrite <- Hvalue. exact Hval.
Qed.

End EarlyCutoffFacts.

Lemma tt_cutoff_value_witness :
  tt_cutoff_step false false (tt_hit_node 0 300) 200 5 = Return 275
  /\ po_rule50 (tt_hit_node 0 300) < 90
  /\ 5 < po_tte_depth (tt_hit_node 0 300).
Proof.
  assert (H : tt_cutoff_step false false (tt_hit_node 0 300) 200 5
              = Return 275) by reflexivity.
  split; [exact H|].
  destruct (tt_cutoff_value false false (tt_hit_node 0 300) 200 5 275 H)
    as [_ [_ [H1 [H2 _]]]].
  split; [exact H1 | exact H2].
Defined.

Lemma razoring_fail_low_witness :
  razoring_step false (pruning_node (-2000)) (fun _ _ => -900) 0 1
    = Return (-900)
  /\ -900 < 0.
Proof.
  assert (H : razoring_step false (pruning_node (-2000)) (fun _ _ => -900) 0 1
              = Return (-900)) by reflexivity.
  split; [exact H|].
  destruct (razoring_fail_low false (pruning_node (-2000)) (fun _ _ => -900)
              0 1 (-900) H) as [_ [Hlow _]].
  exact Hlow.
Defined.

Lemma futility_step_value_witness :
  futility_step 10000 false (pruning_node 500) (-50) 100 3 false = Return 300
  /\ 100 <= 300 <= po_eval (pruning_node 500).
Proof.
  assert (H : futility_step 10000 false (pruning_node 500) (-50) 100 3 false
              = Return 300) by reflexivity.
  split; [exact H|].
  destruct (futility_step_value 10000 false (pruning_node 500) (-50) 100 3
              300 false H) as [Hv _].
  exact Hv.
Defined.

Lemma null_move_step_value_witness :
  fst (null_move_step false false (null_move_node 244) false false
         (fun _ n => (-150, n)) (fun _ n => (150, n)) 100 20 false)
    = Return 150
  /\ exists call,
       null_move_search false false (null_move_node 244) 100 20 false
         = Some call
       /\ 100 <= 150 < VALUE_TB_WIN_IN_MAX_PLY.
Proof.
  assert (H : fst (null_move_step false false (null_move_node 244) false false
                     (fun _ n => (-150, n)) (fun _ n => (150, n)) 100 20 false)
              = Return 150) by reflexivity.
  split; [exact H|].
  destruct (null_move_step_value false false (null_move_node 244) false false
              (fun _ n => (-150, n)) (fun _ n => (150, n)) 100 20 150 false H)
    as [call [Hs [_ [Hv _]]]].
  exists call. split; [exact Hs | exact Hv].
Defined.

Lemma null_move_step_restores_nmpMinPly_witness :
  (forall (c : SearchCall) (n : Z), snd ((fun _ m => (-150, m)) c n) = n)
  /\ false && false = false
  /\ snd (null_move_step false false (null_move_node 244) false false
            (fun _ n => (-150, n)) (fun _ n => (150, n + 7)) 100 20 false)
     = 0.
Proof.
  assert (H1 : forall (c : SearchCall) (n : Z),
                 snd ((fun (_ : SearchCall) (m : Z) => (-150, m)) c n) = n)
    by (intros c n; reflexivity).
  assert (H2 : false && false = false) by reflexivity.
  split; [exact H1|]. split; [exact H2|].
  exact (null_move_step_restores_nmpMinPly false false (null_move_node 244)
           false false (fun _ n => (-150, n)) (fun _ n => (150, n + 7))
           100 20 false H1 H2).
Defined.


Lemma probcut_fail_high_witness :
  probcut_step false false (pruning_node 0) 100 5 false [probcut_capture 400]
    = Return 237
  /\ 100 <= 237 /\ 3 < 5.
Proof.
  assert (H : probcut_step false false (pruning_node 0) 100 5 false
                [probcut_capture 400] = Return 237) by reflexivity.
  split; [exact H|].
  destruct (probcut_fail_high false false (pruning_node 0) 100 5 237 false
              [probcut_capture 400] H) as [Hv [Hd _]].
  split; [exact Hv | exact Hd].
Defined.

(** ** The aspiration window *)

Section AspirationFacts.
Context `{K : ValueConsts}.

(** X19.  The aspiration window a PV line starts with.  The modern
    searcher at every root depth, and the classic searcher from
    [rootDepth >= 4] on, reset it around the root move's average score:
    for every average score in [[-VALUE_INFINITE, VALUE_INFINITE]] (also
    the initial [-VALUE_INFINITE]) the result is a proper window inside
    that range that contains the average score: [delta] is
    [9 + avg^2 / 14847] ([10 + avg^2 / 15620] in the classic searcher),
    hence at least 9 (at least 10), and the window is [avg - delta] and
    [avg + delta] cut to the range.  Below [rootDepth = 4] the
    classic searcher makes no reset: [alpha], [beta] and [delta] are what
    they were, so that the window of the initialisation stays the full
    window with [delta = -VALUE_INFINITE], which is negative.
    [failedHighCnt] starts at 0 in each case. *)
Theorem aspiration_start_window (useClassic : bool) (rootDepth avg : Z)
    (w0 : Aspiration) :
  0 < VALUE_INFINITE ->
  - VALUE_INFINITE <= avg <= VALUE_INFINITE ->
  let w := aspiration_start useClassic rootDepth avg w0 in
  asp_failedHighCnt w = 0
  /\ (useClassic = false \/ 4 <= rootDepth ->
      - VALUE_INFINITE <= asp_alpha w /\ asp_alpha w < asp_beta w
      /\ asp_beta w <= VALUE_INFINITE
      /\ asp_alpha w <= avg <= asp_beta w
      /\ 9 <= asp_delta w
      /\ (useClassic = true -> 10 <= asp_delta w)
      /\ asp_delta w = (if useClassic then 10 + Z.quot (avg * avg) 15620
                        else 9 + Z.quot (avg * avg) 14847)
      /\ asp_alpha w = Z.max (avg - asp_delta w) (- VALUE_INFINITE)
      /\ asp_beta w = Z.min (avg + asp_delta w) VALUE_INFINITE)
  /\ (useClassic = true -> rootDepth < 4 ->
      asp_alpha w = asp_alpha w0 /\ asp_beta w = asp_beta w0
      /\ asp_delta w = asp_delta w0)
  /\ (useClassic = true -> rootDepth < 4 ->
      aspiration_start useClassic rootDepth avg classic_initial_window
      = classic_initial_window
      /\ asp_delta classic_initial_window < 0).
Proof.
  intros Hinf Havg w. unfold w, aspiration_start.
  pose proof (Z.square_nonneg avg) as Hsq.
  assert (H1 : 0 <= Z.quot (avg * avg) 15620) by (apply Z.quot_pos; lia).
  assert (H2 : 0 <= Z.quot (avg * avg) 14847) by (apply Z.quot_pos; lia).
  destruct useClassic; cbn [negb].
  - destruct (rootDepth >=? 4) eqn:E; bool_arith;
      cbn [asp_alpha asp_beta asp_delta asp_failedHighCnt].
    + split; [reflexivity|]. split; [|split]; try (intros _ ?; lia).
      intros _. repeat (split; [intros; lia|]). reflexivity.
    + split; [reflexivity|]. split; [|split].
      * intros [? | ?]; [discriminate | lia].
      * intros _ _. repeat (split; [reflexivity|]). reflexivity.
      * intros _ _. split; [reflexivity|].
        unfold classic_initial_window. cbn [asp_delta]. lia.
  - cbn [asp_alpha asp_beta asp_delta asp_failedHighCnt].
    split; [reflexivity|]. split; [|split]; try (intros ?; discriminate).
    intros _. repeat (split; [intros; (discriminate || lia)|]). reflexivity.
Qed.

(** X20.  One turn of the aspiration loop keeps the window well formed.
    With a proper window inside [[-VALUE_INFINITE, VALUE_INFINITE]], a
    positive [delta], non-negative counters and a root depth of at least
    1: the root search is made at a depth between 1 and [rootDepth]; and
    when the loop goes on after a fail low or a fail high, the new window
    is again a proper window inside the same range (the assertion the
    source makes), it contains the score that failed ([alpha < bestValue
    <= beta]), a fail low moves [beta] down to the middle of the old
    window and a fail high leaves [alpha] alone, [delta] has not shrunk
    (it has grown when it was at least 3), and [failedHighCnt] is still
    non-negative. *)
Theorem aspiration_turn (useClassic useShashin high_tal stop : bool)
    (rootDepth searchAgainCounter bestValue : Z) (w w' : Aspiration) :
  - VALUE_INFINITE <= asp_alpha w -> asp_alpha w < asp_beta w ->
  asp_beta w <= VALUE_INFINITE ->
  0 < asp_delta w -> 0 <= asp_failedHighCnt w ->
  0 <= searchAgainCounter -> 1 <= rootDepth ->
  - VALUE_INFINITE < bestValue < VALUE_INFINITE ->
  aspiration_update useClassic stop bestValue w = Some w' ->
  1 <= adjustedDepth useClassic useShashin high_tal rootDepth
         (asp_failedHighCnt w) searchAgainCounter <= rootDepth
  /\ - VALUE_INFINITE <= asp_alpha w' /\ asp_alpha w' < asp_beta w'
  /\ asp_beta w' <= VALUE_INFINITE
  /\ asp_alpha w' < bestValue <= asp_beta w'
  /\ (bestValue <= asp_alpha w -> asp_beta w' <= asp_beta w)
  /\ (asp_beta w <= bestValue -> asp_alpha w' = asp_alpha w)
  /\ asp_delta w <= asp_delta w'
  /\ (3 <= asp_delta w -> asp_delta w < asp_delta w')
  /\ 0 <= asp_failedHighCnt w'.
Proof.
  intros Ha Hab Hb Hd Hf Hs Hr Hv Hupd.
  split.
  { unfold adjustedDepth.
    assert (0 <= Z.quot (3 * (searchAgainCounter + 1)) 4)
      by (apply Z.quot_pos; lia).
    case_cond; lia. }
  unfold aspiration_update in Hupd. cbv zeta in Hupd.
  destruct stop; [discriminate|].
  assert (Hg : asp_delta w
               <= asp_delta w + (if useClassic then Z.quot (asp_delta w) 4 + 2
                                 else Z.quot (asp_delta w) 3)
               /\ (3 <= asp_delta w ->
                   asp_delta w
                   < asp_delta w + (if useClassic
                                    then Z.quot (asp_delta w) 4 + 2
                                    else Z.quot (asp_delta w) 3))).
  { destruct useClassic; Z.quot_rem_to_equations; lia. }
  destruct (bestValue <=? asp_alpha w) eqn:E1.
  - assert (Hw : w' = _) by (symmetry; exact (f_equal
      (fun r => match r with Some x => x | None => w' end) Hupd)).
    rewrite Hw. cbn [asp_alpha asp_beta asp_delta asp_failedHighCnt].
    bool_arith.
    assert (Hmid : asp_alpha w <= Z.quot (asp_alpha w + asp_beta w) 2
                   <= asp_beta w)
      by (Z.quot_rem_to_equations; lia).
    repeat split; try lia; apply Hg; assumption.
  - destruct (bestValue >=? asp_beta w) eqn:E2; [|discriminate].
    assert (Hw : w' = _) by (symmetry; exact (f_equal
      (fun r => match r with Some x => x | None => w' end) Hupd)).
    rewrite Hw. cbn [asp_alpha asp_beta asp_delta asp_failedHighCnt].
    bool_arith.
    repeat split; try lia; apply Hg; assumption.
Qed.

End AspirationFacts.

Lemma aspiration_start_window_witness :
  0 < VALUE_INFINITE
  /\ - VALUE_INFINITE <= 35 <= VALUE_INFINITE
  /\ asp_alpha (aspiration_start false 2 35 classic_initial_window)
     < asp_beta (aspiration_start false 2 35 classic_initial_window)
  /\ 9 <= asp_delta (aspiration_start false 2 35 classic_initial_window)
  /\ 10 <= asp_delta (aspiration_start true 4 35 classic_initial_window)
  /\ aspiration_start true 3 35 classic_initial_window
     = classic_initial_window.
Proof.
  assert (H1 : 0 < VALUE_INFINITE) by reflexivity.
  assert (H2 : - VALUE_INFINITE <= 35 <= VALUE_INFINITE)
    by (split; discriminate).
  split; [exact H1|]. split; [exact H2|].
  destruct (aspiration_start_window false 2 35 classic_initial_window H1 H2)
    as [_ [Hm _]].
  destruct (Hm (or_introl eq_refl)) as [_ [Hab [_ [_ [Hd _]]]]].
  destruct (aspiration_start_window true 4 35 classic_initial_window H1 H2)
    as [_ [Hc _]].
  assert (H4 : 4 <= 4) by lia.
  destruct (Hc (or_intror H4)) as [_ [_ [_ [_ [_ [Hd10 _]]]]]].
  destruct (aspiration_start_window true 3 35 classic_initial_window H1 H2)
    as [_ [_ [_ Hkeep]]].
  assert (H3 : 3 < 4) by lia.
  destruct (Hkeep eq_refl H3) as [Hfull _].
  split; [exact Hab|]. split; [exact Hd|]. split; [exact (Hd10 eq_refl)|].
  exact Hfull.
Defined.

Lemma aspiration_turn_witness :
  aspiration_update false false 60
    (aspiration_start false 12 35 classic_initial_window)
    = Some {| asp_alpha := 26; asp_beta := 69; asp_delta := 12;
              asp_failedHighCnt := 1 |}
  /\ 1 <= adjustedDepth false false false 12 0 0 <= 12
  /\ 26 < 60 <= 69.
Proof.
  assert (H : aspiration_update false false 60
                (aspiration_start false 12 35 classic_initial_window)
              = Some {| asp_alpha := 26; asp_beta := 69; asp_delta := 12;
                        asp_failedHighCnt := 1 |}) by reflexivity.
  split; [exact H|].
  assert (Ha : - VALUE_INFINITE
               <= asp_alpha (aspiration_start false 12 35
                               classic_initial_window))
    by discriminate.
  assert (Hab : asp_alpha (aspiration_start false 12 35 classic_initial_window)
                < asp_beta (aspiration_start false 12 35
                              classic_initial_window)) by reflexivity.
  assert (Hb : asp_beta (aspiration_start false 12 35 classic_initial_window)
               <= VALUE_INFINITE)
    by discriminate.
  assert (Hd : 0 < asp_delta (aspiration_start false 12 35
                                classic_initial_window)) by reflexivity.
  assert (Hf : 0 <= asp_failedHighCnt
                      (aspiration_start false 12 35 classic_initial_window))
    by discriminate.
  assert (Hs : 0 <= 0) by lia.
  assert (Hr : 1 <= 12) by lia.
  assert (Hv : - VALUE_INFINITE < 60 < VALUE_INFINITE)
    by (split; reflexivity).
  destruct (aspiration_turn false false false false 12 0 60
              (aspiration_start false 12 35 classic_initial_window) _
              Ha Hab Hb Hd Hf Hs Hr Hv H)
    as [Hdepth [_ [_ [_ [Hin _]]]]].
  split; [exact Hdepth | exact Hin].
Defined.

(** ** The principal variation *)

Lemma store_cons (A : Type) (x : A) (a : list A) (i : nat) (v : A) :
  store (x :: a) (S i) v = option_map (cons x) (store a i v).
Proof.
  unfold store. cbn [List.length firstn skipn].
  change (S i <? S (List.length a))%nat with (i <? List.length a)%nat.
  now destruct (i <? List.length a)%nat.
Qed.

(** Writing at the end of a prefix replaces the entry that follows it. *)
Lemma store_app (A : Type) (pre : list A) (x : A) (post : list A) (v : A) :
  store (pre ++ x :: post) (List.length pre) v = Some (pre ++ v :: post).
Proof.
  induction pre as [|p pre IH]; [reflexivity|].
  cbn [app List.length]. now rewrite store_cons, IH.
Qed.

Lemma pv_line_no_none (a : list Move) :
  forallb (fun m => negb (Move_eqb m Move_none)) (pv_line a) = true.
Proof.
  induction a as [|m rest IH]; [reflexivity|]. cbn [pv_line].
  destruct (Move_eqb m Move_none) eqn:E; [reflexivity|].
  cbn [forallb]. now rewrite E, IH.
Qed.

Lemma pv_line_app (l post : list Move) :
  forallb (fun m => negb (Move_eqb m Move_none)) l = true ->
  pv_line (l ++ Move_none :: post) = l.
Proof.
  induction l as [|m l IH]; cbn [forallb app pv_line]; intros H.
  - reflexivity.
  - apply andb_true_iff in H as [Hm Hl]. apply negb_true_iff in Hm.
    now rewrite Hm, IH.
Qed.

(** The copy loop, started behind a prefix [pre] of the buffer with room
    for the child's line and the terminator, writes just these. *)
Lemma update_pv_loop_writes (child : list Move) :
  forall pre seg post,
    pv_terminated child = true ->
    List.length seg = S (List.length (pv_line child)) ->
    update_pv_loop (pre ++ seg ++ post) (List.length pre) child
    = Some (pre ++ pv_line child ++ Move_none :: post).
Proof.
  induction child as [|m rest IH]; intros pre seg post Hterm Hlen;
    [discriminate|].
  cbn [update_pv_loop pv_line] in *. unfold pv_terminated in Hterm.
  cbn [existsb] in Hterm.
  destruct (Move_eqb m Move_none) eqn:E.
  - destruct seg as [|x [|y seg]]; try discriminate.
    cbn [app]. apply store_app.
  - destruct seg as [|x seg]; [discriminate|].
    cbn [app]. rewrite store_app.
    cbn [orb] in Hterm. cbn [List.length] in Hlen.
    specialize (IH (pre ++ [m]) seg post Hterm (eq_add_S _ _ Hlen)).
    rewrite <- app_assoc in IH. cbn [app] in IH.
    replace (List.length (pre ++ [m])) with (S (List.length pre)) in IH
      by (rewrite length_app; cbn [List.length]; lia).
    rewrite IH. now rewrite <- app_assoc.
Qed.

(** X21.  [update_pv] builds the PV of a node from its best move and
    the PV of the child.  For a real move, a child PV that is ended by
    [Move::none()] (or [nullptr]) and a buffer with room for the move, the
    child's line and the terminator: the call succeeds, the new line is
    the move followed by the child's line, the buffer keeps its size and
    nothing behind the new terminator is written. *)
Theorem update_pv_line (pv : list Move) (move : Move)
    (childPv : option (list Move)) :
  Move_eqb move Move_none = false ->
  child_terminated childPv = true ->
  (List.length (child_line childPv) + 2 <= List.length pv)%nat ->
  exists pv',
    update_pv pv move childPv = Some pv'
    /\ pv_line pv' = move :: child_line childPv
    /\ List.length pv' = List.length pv
    /\ skipn (List.length (child_line childPv) + 2) pv'
       = skipn (List.length (child_line childPv) + 2) pv.
Proof.
  intros Hmove Hterm Hlen.
  destruct pv as [|p0 tl]; [cbn [List.length] in Hlen; lia|].
  cbn [List.length] in Hlen.
  set (n := List.length (child_line childPv)) in *.
  remember (firstn (S n) tl) as seg eqn:Eseg.
  remember (skipn (S n) tl) as post eqn:Epost.
  assert (Htl : tl = seg ++ post)
    by (subst seg post; symmetry; apply firstn_skipn).
  assert (Hseg : List.length seg = S n)
    by (subst seg; apply firstn_length_le; lia).
  exists (move :: child_line childPv ++ Move_none :: post).
  split; [|split; [|split]].
  - unfold update_pv. cbn [store List.length Nat.ltb Nat.leb firstn skipn app].
    destruct childPv as [child|].
    + rewrite Htl.
      exact (update_pv_loop_writes child [move] seg post Hterm Hseg).
    + cbn [child_line List.length] in *. subst n.
      destruct seg as [|p1 [|p2 seg]]; try discriminate.
      rewrite Htl. reflexivity.
  - cbn [pv_line]. rewrite Hmove. f_equal. apply pv_line_app.
    destruct childPv as [child|]; [apply pv_line_no_none | reflexivity].
  - cbn [List.length]. rewrite length_app. cbn [List.length].
    rewrite Htl, length_app, Hseg. fold n. lia.
  - replace (n + 2)%nat with (S (n + 1)) by lia. cbn [skipn].
    rewrite skipn_app.
    replace (n + 1 - List.length (child_line childPv))%nat with 1%nat
      by (fold n; lia).
    rewrite skipn_all2 by (fold n; lia). cbn [skipn app].
    rewrite Epost. f_equal. lia.
Qed.

Lemma update_pv_line_witness :
  Move_eqb e2e4 Move_none = false
  /\ child_terminated (Some [d2d4; Move_none; e2e4]) = true
  /\ (List.length (child_line (Some [d2d4; Move_none; e2e4])) + 2
      <= List.length pv_buffer)%nat
  /\ exists pv',
       update_pv pv_buffer e2e4 (Some [d2d4; Move_none; e2e4]) = Some pv'
       /\ pv_line pv' = [e2e4; d2d4].
Proof.
  assert (H1 : Move_eqb e2e4 Move_none = false) by reflexivity.
  assert (H2 : child_terminated (Some [d2d4; Move_none; e2e4]) = true)
    by reflexivity.
  assert (H3 : (List.length (child_line (Some [d2d4; Move_none; e2e4])) + 2
                <= List.length pv_buffer)%nat) by (cbn; lia).
  split; [exact H1|]. split; [exact H2|]. split; [exact H3|].
  destruct (update_pv_line pv_buffer e2e4 (Some [d2d4; Move_none; e2e4])
              H1 H2 H3) as [pv' [Hu [Hl _]]].
  exists pv'. split; [exact Hu | exact Hl].
Defined.

(** ** Killers and countermoves *)

Lemma Move_eqb_eq (a b : Move) : Move_eqb a b = true <-> a = b.
Proof.
  destruct a as [f1 t1 p1 k1], b as [f2 t2 p2 k2]. unfold Move_eqb.
  cbn [from_sq to_sq promotion_type type_of]. split.
  - intros H. apply andb_true_iff in H as [H Hk].
    apply andb_true_iff in H as [H Hp]. apply andb_true_iff in H as [Hf Ht].
    apply Z.eqb_eq in Hf, Ht. apply PieceType_eqb_eq in Hp.
    apply MoveType_eqb_eq in Hk. now subst.
  - intros H. injection H as -> -> -> ->.
    rewrite !Z.eqb_refl, PieceType_eqb_refl. cbn [andb].
    now apply MoveType_eqb_eq.
Qed.

(** X22.  [update_quiet_stats] and the killers.  After the call the
    first killer is the move; two different killers stay different, and
    become different whenever the move was not the first killer already
    (the old first killer moves to the second slot); a second call with
    the same move changes no killer.  The main history is written once,
    for the side to move and the move; the countermove table is written
    exactly when the previous move is a real move, at the entry of the
    piece now standing on that move's target square. *)
Theorem update_quiet_stats_killers (pos : Position) (us : Color)
    (stack : Z -> StackFrame) (ss : Z) (killers : Move * Move)
    (move : Move) (bonus : Z) :
  let r := update_quiet_stats pos us stack ss killers move bonus in
  fst (fst r) = move
  /\ (fst killers <> snd killers \/ fst killers <> move ->
      fst (fst r) <> snd (fst r))
  /\ (fst killers <> move -> snd (fst r) = fst killers)
  /\ fst (update_quiet_stats pos us stack ss (fst r) move bonus) = fst r
  /\ (forall c m b,
        In (MainHistoryWrite c m b) (snd r) <-> c = us /\ m = move /\ b = bonus)
  /\ (forall pc sq m,
        In (CounterMoveWrite pc sq m) (snd r) <->
        Move_is_ok (sf_currentMove (stack (ss - 1))) = true
        /\ sq = to_sq (sf_currentMove (stack (ss - 1)))
        /\ pc = piece_on pos sq /\ m = move).
Proof.
  intros r. unfold r, update_quiet_stats. cbn [fst snd].
  assert (Hk : update_killers killers move
               = if Move_eqb (fst killers) move then killers
                 else (move, fst killers)).
  { unfold update_killers. now destruct (Move_eqb (fst killers) move). }
  assert (Hcont : forall e ws,
            In e (map ContinuationWrite ws) ->
            exists w, e = ContinuationWrite w).
  { intros e ws H. apply in_map_iff in H as [w [<- _]]. now exists w. }
  split; [|split; [|split; [|split; [|split]]]].
  - rewrite Hk. destruct (Move_eqb (fst killers) move) eqn:E;
      [now apply Move_eqb_eq | reflexivity].
  - rewrite Hk. destruct (Move_eqb (fst killers) move) eqn:E.
    + apply Move_eqb_eq in E. intros [H | H]; [exact H | contradiction].
    + cbn [fst snd]. intros _ Heq. subst move.
      now rewrite (proj2 (Move_eqb_eq _ _) eq_refl) in E.
  - rewrite Hk. intros Hne. destruct (Move_eqb (fst killers) move) eqn:E;
      [apply Move_eqb_eq in E; contradiction | reflexivity].
  - rewrite Hk. unfold update_killers.
    destruct (Move_eqb (fst killers) move) eqn:E.
    + now rewrite E.
    + cbn [fst]. now rewrite (proj2 (Move_eqb_eq move move) eq_refl).
  - intros c m b. cbn [In]. split.
    + intros [H | H]; [injection H as <- <- <-; now repeat split|].
      apply in_app_or in H as [H | H].
      * apply Hcont in H as [w H]. discriminate.
      * revert H. case_cond; cbn [In]; intros H; try contradiction.
        destruct H as [H | []]. discriminate.
    + intros [-> [-> ->]]. now left.
  - intros pc sq m. cbn [In]. split.
    + intros [H | H]; [discriminate|].
      apply in_app_or in H as [H | H].
      * apply Hcont in H as [w H]. discriminate.
      * revert H. case_cond; cbn [In]; intros H; try contradiction.
        destruct H as [H | []]. injection H as <- <- <-.
        now repeat split.
    + intros [Hok [-> [-> ->]]]. right. apply in_or_app. right.
      rewrite Hok. now left.
Qed.

(** ** Polling the clock *)

Lemma to_int_small (z : Z) :
  -2147483648 <= z < 2147483648 -> to_int z = z.
Proof.
  intros H. unfold to_int. rewrite Z.mod_small; lia.
Qed.

(** The countdown a poll re-arms: at most 512, and non-negative for a
    node limit in [[0, 2^41)]. *)
Lemma rearmed_countdown (nodes : Z) :
  let cnt := if negb (nodes =? 0) then Z.min 512 (to_int (Z.quot nodes 1024))
             else 512 in
  cnt <= 512 /\ (0 <= nodes < 2199023255552 -> 0 <= cnt).
Proof.
  cbv zeta. destruct (nodes =? 0) eqn:E; cbn [negb]; [lia|].
  split; [lia|]. intros H. rewrite to_int_small.
  - apply Z.min_glb; [lia|]. apply Z.quot_pos; lia.
  - Z.quot_rem_to_equations. lia.
Qed.

Lemma check_time_overflow (o : TimeObs) (s : TimeState) :
  ts_callsCnt s = INT_MIN -> check_time o s = None.
Proof.
  intros H. unfold check_time. now rewrite H.
Qed.

(** X23.  One call of [check_time], with the countdown an [int] above
    [INT_MIN] and at most 512 and the clock values such that 64-bit
    arithmetic does not overflow.  The call is defined; the countdown
    stays at or below 512, and it is not negative afterwards when the
    node limit is in [[0, 2^41)]; the stop flag is never lowered; while
    the countdown is above 1 the call only decrements it (no clock is
    read, nothing is printed); while pondering the stop flag is left
    alone; a call that reaches the clock, not pondering, raises the stop
    flag exactly when the time manager's budget is exceeded (or a stop on
    ponder hit is due), the move time has run out, or the node counter
    has reached the node limit converted to [uint64_t]; in particular a
    move time that has run out raises it.  A node limit of
    [2^41], however, re-arms the countdown at [INT_MIN] (the narrowing
    to [int] of [2^31]), from where the decrement of the next call is a
    signed overflow. *)
Theorem check_time_call (o : TimeObs) (s : TimeState) :
  INT_MIN < ts_callsCnt s <= 512 ->
  is_int64 (to_limits_startTime o + to_elapsed o) = true ->
  is_int64 (to_limits_startTime o + to_elapsed o - ts_lastInfoTime s) = true ->
  exists s' info,
    check_time o s = Some (s', info)
    /\ ts_callsCnt s' <= 512
    /\ (0 <= to_limits_nodes o < 2199023255552 -> 0 <= ts_callsCnt s')
    /\ (ts_stop s = true -> ts_stop s' = true)
    /\ (1 < ts_callsCnt s ->
        s' = {| ts_callsCnt := ts_callsCnt s - 1; ts_stop := ts_stop s;
                ts_lastInfoTime := ts_lastInfoTime s |}
        /\ info = false)
    /\ (to_ponder o = true -> ts_stop s' = ts_stop s)
    /\ (ts_callsCnt s <= 1 -> to_ponder o = false ->
        to_limits_movetime o <> 0 ->
        to_limits_movetime o <= to_elapsed o ->
        ts_stop s' = true)
    /\ (ts_callsCnt s <= 1 -> to_ponder o = false ->
        ts_stop s'
        = ((to_use_time_management o
            && ((to_elapsed o >? to_maximum o) || to_stopOnPonderhit o))
           || (negb (to_limits_movetime o =? 0)
               && (to_elapsed o >=? to_limits_movetime o))
           || (negb (to_limits_nodes o =? 0)
               && (to_nodes_searched o >=? to_uint64 (to_limits_nodes o)))
           || ts_stop s))
    /\ (ts_callsCnt s <= 1 -> to_limits_nodes o = 2199023255552 ->
        ts_callsCnt s' = INT_MIN
        /\ forall o', check_time o' s' = None).
Proof.
  intros Hcnt Htick Hdiff. unfold check_time at 1. cbv zeta.
  assert (E0 : (ts_callsCnt s =? INT_MIN) = false)
    by (apply Z.eqb_neq; lia).
  rewrite E0, Htick, Hdiff. cbn [andb negb].
  destruct (ts_callsCnt s - 1 >? 0) eqn:E1; bool_arith.
  - eexists. eexists. split; [reflexivity|].
    cbn [ts_callsCnt ts_stop]. unfold INT_MIN in *.
    repeat split; try lia; try tauto.
    all: intros; lia.
  - pose proof (rearmed_countdown (to_limits_nodes o)) as [Hmax Hmin].
    cbv zeta in Hmax, Hmin.
    assert (Hover : to_limits_nodes o = 2199023255552 ->
              (if negb (to_limits_nodes o =? 0)
               then Z.min 512 (to_int (Z.quot (to_limits_nodes o) 1024))
               else 512) = INT_MIN) by (intros ->; reflexivity).
    destruct (to_ponder o) eqn:Ep;
      [|destruct (to_use_time_management o
                  && ((to_elapsed o >? to_maximum o) || to_stopOnPonderhit o)
                  || negb (to_limits_movetime o =? 0)
                     && (to_elapsed o >=? to_limits_movetime o)
                  || negb (to_limits_nodes o =? 0)
                     && (to_nodes_searched o
                         >=? to_uint64 (to_limits_nodes o))) eqn:E2].
    all: eexists; eexists; (split; [reflexivity|]).
    all: cbn [ts_callsCnt ts_stop].
    all: repeat split; try lia; try tauto; try discriminate.
    all: try (intros o'; apply check_time_overflow; cbn [ts_callsCnt]).
    all: auto.
    all: apply orb_false_iff in E2 as [E2 _];
         apply orb_false_iff in E2 as [_ E2];
         apply andb_false_iff in E2 as [E2 | E2]; bool_arith; lia.
Qed.

(** The state a run of calls keeps in range: the countdown above
    [INT_MIN], and [lastInfoTime] a clock value in [[0, 2^62)]. *)
Lemma check_time_defined (o : TimeObs) (s : TimeState) :
  0 <= to_limits_nodes o < 2199023255552 ->
  0 <= to_limits_startTime o + to_elapsed o < 4611686018427387904 ->
  INT_MIN < ts_callsCnt s ->
  0 <= ts_lastInfoTime s < 4611686018427387904 ->
  exists s' info,
    check_time o s = Some (s', info)
    /\ INT_MIN < ts_callsCnt s'
    /\ ts_callsCnt s' <= Z.max 512 (ts_callsCnt s - 1)
    /\ 0 <= ts_lastInfoTime s' < 4611686018427387904
    /\ (ts_stop s = true -> ts_stop s' = true)
    /\ (1 < ts_callsCnt s -> ts_callsCnt s' = ts_callsCnt s - 1)
    /\ (ts_callsCnt s <= 1 -> to_ponder o = false ->
        to_limits_movetime o <> 0 ->
        to_limits_movetime o <= to_elapsed o ->
        ts_stop s' = true).
Proof.
  intros Hn Htick Hcnt Hlast. unfold check_time. cbv zeta.
  assert (E0 : (ts_callsCnt s =? INT_MIN) = false)
    by (apply Z.eqb_neq; lia).
  assert (Eti : is_int64 (to_limits_startTime o + to_elapsed o) = true).
  { unfold is_int64. apply andb_true_iff. split; [apply Z.leb_le|apply Z.ltb_lt]; lia. }
  assert (Edi : is_int64 (to_limits_startTime o + to_elapsed o
                          - ts_lastInfoTime s) = true).
  { unfold is_int64. apply andb_true_iff. split; [apply Z.leb_le|apply Z.ltb_lt]; lia. }
  rewrite E0, Eti, Edi. cbn [andb negb].
  pose proof (rearmed_countdown (to_limits_nodes o)) as [Hmax Hmin].
  cbv zeta in Hmax, Hmin. specialize (Hmin Hn).
  unfold INT_MIN in *.
  destruct (ts_callsCnt s - 1 >? 0) eqn:E1; bool_arith.
  - eexists. eexists. split; [reflexivity|].
    cbn [ts_callsCnt ts_stop ts_lastInfoTime].
    repeat split; try lia; try tauto. all: intros; lia.
  - assert (Hl : 0 <= (if to_limits_startTime o + to_elapsed o
                            - ts_lastInfoTime s >=? 1000
                       then to_limits_startTime o + to_elapsed o
                       else ts_lastInfoTime s) < 4611686018427387904)
      by (case_cond; lia).
    destruct (to_ponder o) eqn:Ep.
    + eexists. eexists. split; [reflexivity|].
      cbn [ts_callsCnt ts_stop ts_lastInfoTime].
      repeat split; try lia; try tauto; try discriminate.
    + destruct (to_use_time_management o
                && ((to_elapsed o >? to_maximum o) || to_stopOnPonderhit o)
                || negb (to_limits_movetime o =? 0)
                   && (to_elapsed o >=? to_limits_movetime o)
                || negb (to_limits_nodes o =? 0)
                   && (to_nodes_searched o
                       >=? to_uint64 (to_limits_nodes o))) eqn:E2.
      * eexists. eexists. split; [reflexivity|].
        cbn [ts_callsCnt ts_stop ts_lastInfoTime].
        repeat split; try lia; try tauto; try discriminate.
      * eexists. eexists. split; [reflexivity|].
        cbn [ts_callsCnt ts_stop ts_lastInfoTime].
        repeat split; try lia; try tauto; try discriminate.
        all: try (apply orb_false_iff in E2 as [E2 _];
                  apply orb_false_iff in E2 as [_ E2];
                  apply andb_false_iff in E2 as [E2 | E2]; bool_arith; lia).
Qed.

Lemma check_time_calls_stop (os : list TimeObs) :
  (forall o, In o os ->
     0 <= to_limits_nodes o < 2199023255552
     /\ 0 <= to_limits_startTime o + to_elapsed o < 4611686018427387904) ->
  forall s,
    INT_MIN < ts_callsCnt s ->
    0 <= ts_lastInfoTime s < 4611686018427387904 ->
    ts_stop s = true ->
    exists s', check_time_calls os s = Some s' /\ ts_stop s' = true.
Proof.
  induction os as [|o rest IH]; intros Hall s Hcnt Hlast Hs;
    cbn [check_time_calls].
  - now exists s.
  - destruct (Hall o (or_introl eq_refl)) as [Hn Ht].
    destruct (check_time_defined o s Hn Ht Hcnt Hlast)
      as [s1 [info [E [Hc1 [_ [Hl1 [Hs1 _]]]]]]].
    rewrite E. apply IH; auto.
    intros o' Ho'. apply Hall. now right.
Qed.

(** X24.  The stop flag is raised within [callsCnt] calls.  Take a run
    of calls with node limits in [[0, 2^41)] and clock values in
    [[0, 2^62)], started with the countdown above [INT_MIN] and
    [lastInfoTime] in [[0, 2^62)].  When every call of the run would see
    the move time run out (and no pondering), and the run is at least as
    long as the countdown stands, every call of the run is defined and
    the stop flag is set at the end of the run: with the countdown never
    above 512, an exceeded move time stops the search within 512 calls. *)
Theorem check_time_stops_within (os : list TimeObs) (s : TimeState) :
  (forall o, In o os ->
     to_ponder o = false /\ to_limits_movetime o <> 0
     /\ to_limits_movetime o <= to_elapsed o
     /\ 0 <= to_limits_nodes o < 2199023255552
     /\ 0 <= to_limits_startTime o + to_elapsed o < 4611686018427387904) ->
  (0 < List.length os)%nat ->
  INT_MIN < ts_callsCnt s <= Z.of_nat (List.length os) ->
  0 <= ts_lastInfoTime s < 4611686018427387904 ->
  exists s', check_time_calls os s = Some s' /\ ts_stop s' = true.
Proof.
  revert s. induction os as [|o rest IH]; intros s Hall Hlen Hcnt Hlast;
    [cbn [List.length] in Hlen; lia|].
  cbn [check_time_calls].
  destruct (Hall o (or_introl eq_refl)) as [Hp [Hm [He [Hn Ht]]]].
  destruct (check_time_defined o s Hn Ht (proj1 Hcnt) Hlast)
    as [s1 [info [E [Hc1 [_ [Hl1 [_ [Hdec Hstop]]]]]]]].
  rewrite E.
  assert (Hrest : forall o', In o' rest ->
            0 <= to_limits_nodes o' < 2199023255552
            /\ 0 <= to_limits_startTime o' + to_elapsed o'
               < 4611686018427387904).
  { intros o' Ho'. destruct (Hall o' (or_intror Ho')) as [_ [_ [_ H]]].
    exact H. }
  destruct (Z_le_gt_dec (ts_callsCnt s) 1) as [Hpoll | Hwait].
  - apply check_time_calls_stop; auto.
  - apply IH; auto.
    + intros o' Ho'. apply Hall. now right.
    + destruct rest; cbn [List.length] in *; lia.
    + rewrite Hdec by lia. cbn [List.length] in Hcnt. lia.
Qed.

Lemma check_time_call_witness :
  INT_MIN < ts_callsCnt {| ts_callsCnt := 1; ts_stop := false;
                           ts_lastInfoTime := 0 |} <= 512
  /\ is_int64 (to_limits_startTime (movetime_obs 1200)
               + to_elapsed (movetime_obs 1200)) = true
  /\ is_int64 (to_limits_startTime (movetime_obs 1200)
               + to_elapsed (movetime_obs 1200)
               - ts_lastInfoTime {| ts_callsCnt := 1; ts_stop := false;
                                    ts_lastInfoTime := 0 |}) = true
  /\ exists s' info,
       check_time (movetime_obs 1200)
         {| ts_callsCnt := 1; ts_stop := false; ts_lastInfoTime := 0 |}
       = Some (s', info)
       /\ ts_stop s' = true.
Proof.
  assert (H : INT_MIN < ts_callsCnt {| ts_callsCnt := 1; ts_stop := false;
                                       ts_lastInfoTime := 0 |} <= 512)
    by (split; [reflexivity | discriminate]).
  assert (H1 : is_int64 (to_limits_startTime (movetime_obs 1200)
                         + to_elapsed (movetime_obs 1200)) = true)
    by reflexivity.
  assert (H2 : is_int64 (to_limits_startTime (movetime_obs 1200)
                         + to_elapsed (movetime_obs 1200)
                         - ts_lastInfoTime {| ts_callsCnt := 1;
                                              ts_stop := false;
                                              ts_lastInfoTime := 0 |})
               = true) by reflexivity.
  split; [exact H|]. split; [exact H1|]. split; [exact H2|].
  destruct (check_time_call (movetime_obs 1200)
              {| ts_callsCnt := 1; ts_stop := false; ts_lastInfoTime := 0 |}
              H H1 H2) as [s' [info [E [_ [_ [_ [_ [_ [Hstop _]]]]]]]]].
  exists s', info. split; [exact E|].
  apply Hstop; cbn; lia || reflexivity || discriminate.
Defined.

Lemma check_time_stops_within_witness :
  (forall o,
     In o [movetime_obs 1200; movetime_obs 1201; movetime_obs 1202] ->
     to_ponder o = false /\ to_limits_movetime o <> 0
     /\ to_limits_movetime o <= to_elapsed o
     /\ 0 <= to_limits_nodes o < 2199023255552
     /\ 0 <= to_limits_startTime o + to_elapsed o < 4611686018427387904)
  /\ (0 < List.length
            [movetime_obs 1200; movetime_obs 1201; movetime_obs 1202])%nat
  /\ INT_MIN
     < ts_callsCnt {| ts_callsCnt := 3; ts_stop := false;
                      ts_lastInfoTime := 0 |}
     <= Z.of_nat (List.length
                    [movetime_obs 1200; movetime_obs 1201; movetime_obs 1202])
  /\ 0 <= ts_lastInfoTime {| ts_callsCnt := 3; ts_stop := false;
                             ts_lastInfoTime := 0 |}
     < 4611686018427387904
  /\ exists s',
       check_time_calls
         [movetime_obs 1200; movetime_obs 1201; movetime_obs 1202]
         {| ts_callsCnt := 3; ts_stop := false; ts_lastInfoTime := 0 |}
       = Some s'
       /\ ts_stop s' = true.
Proof.
  assert (H1 : forall o,
             In o [movetime_obs 1200; movetime_obs 1201; movetime_obs 1202] ->
             to_ponder o = false /\ to_limits_movetime o <> 0
             /\ to_limits_movetime o <= to_elapsed o
             /\ 0 <= to_limits_nodes o < 2199023255552
             /\ 0 <= to_limits_startTime o + to_elapsed o
                < 4611686018427387904).
  { intros o [<- | [<- | [<- | []]]]; cbn; repeat split;
      discriminate || lia. }
  assert (H2 : (0 < List.length
                      [movetime_obs 1200; movetime_obs 1201;
                       movetime_obs 1202])%nat) by (cbn; lia).
  assert (H3 : INT_MIN
               < ts_callsCnt {| ts_callsCnt := 3; ts_stop := false;
                                ts_lastInfoTime := 0 |}
               <= Z.of_nat (List.length
                              [movetime_obs 1200; movetime_obs 1201;
                               movetime_obs 1202]))
    by (split; [reflexivity | discriminate]).
  assert (H4 : 0 <= ts_lastInfoTime {| ts_callsCnt := 3; ts_stop := false;
                                       ts_lastInfoTime := 0 |}
               < 4611686018427387904)
    by (split; [discriminate | reflexivity]).
  split; [exact H1|]. split; [exact H2|]. split; [exact H3|].
  split; [exact H4|].
  exact (check_time_stops_within _ _ H1 H2 H3 H4).
Defined.

(** ** The rule-50 part of the position key *)

(** X25.  The key adjusted "after the move" for a rule-50 counter [r]
    is the key adjusted "before the move" for the counter [r + 1]: the
    look-ahead key matches the key of the position once the counter has
    been incremented.  And the adjustment is its own inverse. *)
Theorem adjust_key50_after_move (make_key : Z -> Z) (r k : Z) :
  adjust_key50 make_key true r k = adjust_key50 make_key false (r + 1) k
  /\ forall a, adjust_key50 make_key a r (adjust_key50 make_key a r k) = k.
Proof.
  split.
  - unfold adjust_key50. cbn [b2z].
    replace (r + 1 - (14 - 0)) with (r - (14 - 1)) by lia.
    destruct (r <? 14 - 1) eqn:E1; destruct (r + 1 <? 14 - 0) eqn:E2;
      bool_arith; try reflexivity; lia.
  - intros a. unfold adjust_key50.
    destruct (r <? 14 - b2z a); [reflexivity | apply lxor_twice].
Qed.

(** ** More on the transposition-table scores *)

Section TTValueOrder.
Context `{K : ValueConsts}.

(** X26.  Scores strictly inside the tablebase range pass through the
    transposition table untouched.  [to_static_eval] clamps every
    evaluation strictly inside that range; such a score is stored as it is
    by [value_to_tt] and read back as it is by [value_from_tt], at every
    ply and for every rule-50 counter, in the three searchers - provided
    the range is not empty and [VALUE_NONE] lies outside it. *)
Theorem static_eval_tt_roundtrip (s : Searcher) (v ply r50c : Z) :
  VALUE_TB_LOSS_IN_MAX_PLY + 1 <= VALUE_TB_WIN_IN_MAX_PLY - 1 ->
  VALUE_NONE <= VALUE_TB_LOSS_IN_MAX_PLY
  \/ VALUE_TB_WIN_IN_MAX_PLY <= VALUE_NONE ->
  let e := to_static_eval v in
  VALUE_TB_LOSS_IN_MAX_PLY < e < VALUE_TB_WIN_IN_MAX_PLY
  /\ tt_store s e ply = e
  /\ tt_load s e ply r50c = e
  /\ tt_load s (tt_store s e ply) ply r50c = e.
Proof.
  intros Hrange Hnone e.
  assert (He : VALUE_TB_LOSS_IN_MAX_PLY < e < VALUE_TB_WIN_IN_MAX_PLY).
  { pose proof (clamp_between v _ _ Hrange) as Hc.
    unfold e, to_static_eval. lia. }
  assert (Hstore : tt_store s e ply = e).
  { destruct s; cbn [tt_store];
      unfold value_to_tt, Classic.value_to_tt;
      repeat case_cond; bool_arith; lia. }
  assert (Hload : tt_load s e ply r50c = e).
  { destruct s as [|sm]; cbn [tt_load];
      unfold value_from_tt, Classic.value_from_tt.
    - destruct (e =? VALUE_NONE) eqn:E0; bool_arith; [lia|].
      destruct (e >=? VALUE_TB_WIN_IN_MAX_PLY) eqn:E1; bool_arith; [lia|].
      destruct (e <=? VALUE_TB_LOSS_IN_MAX_PLY) eqn:E2; bool_arith;
        [lia | reflexivity].
    - destruct (e =? VALUE_NONE) eqn:E0; bool_arith; [lia|].
      destruct (e >=? VALUE_TB_WIN_IN_MAX_PLY) eqn:E1; bool_arith;
        [lia|].
      destruct (e <=? VALUE_TB_LOSS_IN_MAX_PLY) eqn:E2; bool_arith;
        [lia|]. now destruct sm. }
  split; [exact He|]. split; [exact Hstore|]. split; [exact Hload|].
  now rewrite Hstore.
Qed.

(** X27.  Storing preserves the order of scores: at every ply
    [ply >= 0], [value_to_tt] is strictly increasing, hence one-to-one, in
    the three searchers (mate and tablebase scores move away from zero,
    the others stay). *)
Theorem value_to_tt_strictly_increasing (s : Searcher) (v1 v2 ply : Z) :
  0 <= ply -> v1 < v2 ->
  tt_store s v1 ply < tt_store s v2 ply.
Proof.
  intros Hply Hlt.
  destruct s; cbn [tt_store]; unfold value_to_tt, Classic.value_to_tt;
    repeat case_cond; bool_arith; lia.
Qed.

End TTValueOrder.

Lemma static_eval_tt_roundtrip_witness :
  VALUE_TB_LOSS_IN_MAX_PLY + 1 <= VALUE_TB_WIN_IN_MAX_PLY - 1
  /\ (VALUE_NONE <= VALUE_TB_LOSS_IN_MAX_PLY
      \/ VALUE_TB_WIN_IN_MAX_PLY <= VALUE_NONE)
  /\ to_static_eval 40000 = 31506
  /\ tt_load Modern (tt_store Modern (to_static_eval 40000) 7) 7 99
     = to_static_eval 40000.
Proof.
  assert (H1 : VALUE_TB_LOSS_IN_MAX_PLY + 1 <= VALUE_TB_WIN_IN_MAX_PLY - 1)
    by discriminate.
  assert (H2 : VALUE_NONE <= VALUE_TB_LOSS_IN_MAX_PLY
               \/ VALUE_TB_WIN_IN_MAX_PLY <= VALUE_NONE)
    by (right; discriminate).
  split; [exact H1|]. split; [exact H2|]. split; [reflexivity|].
  destruct (static_eval_tt_roundtrip Modern 40000 7 99 H1 H2)
    as [_ [_ [_ H]]].
  exact H.
Defined.

Lemma value_to_tt_strictly_increasing_witness :
  0 <= 5 /\ 31999 < 32000
  /\ tt_store Modern 31999 5 < tt_store Modern 32000 5.
Proof.
  assert (H1 : 0 <= 5) by lia.
  assert (H2 : 31999 < 32000) by lia.
  split; [exact H1|]. split; [exact H2|].
  exact (value_to_tt_strictly_increasing Modern 31999 32000 5 H1 H2).
Defined.

(** ** Squares and scores on the wire *)

Lemma char_of_Z_inj (a b : Z) :
  0 <= a < 256 -> 0 <= b < 256 -> char_of_Z a = char_of_Z b -> a = b.
Proof.
  intros Ha Hb H. unfold char_of_Z in H.
  rewrite !Z.mod_small in H by assumption.
  apply (f_equal N_of_ascii) in H.
  rewrite !N_ascii_embedding in H by lia.
  now apply Z2N.inj in H.
Qed.

Lemma file_of_range (s : Z) : 0 <= s -> 0 <= file_of s < 8.
Proof.
  intros Hs. unfold file_of. change 7 with (Z.ones 3).
  rewrite Z.land_ones by lia. apply Z.mod_pos_bound. reflexivity.
Qed.

Lemma square_of_file_and_rank (s : Z) :
  0 <= s -> s = 8 * rank_of s + file_of s.
Proof.
  intros Hs. unfold rank_of, file_of. change 7 with (Z.ones 3).
  rewrite Z.land_ones, Z.shiftr_div_pow2 by lia.
  change (2 ^ 3) with 8. apply Z.div_mod. discriminate.
Qed.

Lemma string_cons_inj (a b : ascii) (s1 s2 : string) :
  String a s1 = String b s2 -> a = b /\ s1 = s2.
Proof. intros H. now injection H. Qed.

(** X28.  [UCI::square] names every square of the board differently:
    two squares of [0 .. 63] with the same two-letter name are the same
    square. *)
Theorem UCI_square_injective (s t : Z) :
  is_ok_square s = true -> is_ok_square t = true ->
  UCI_square s = UCI_square t -> s = t.
Proof.
  unfold is_ok_square. intros Hs Ht H. bool_arith.
  unfold UCI_square in H.
  apply string_cons_inj in H as [Hf H].
  apply string_cons_inj in H as [Hr _].
  assert (Hrs : 0 <= rank_of s < 8).
  { unfold rank_of. rewrite Z.shiftr_div_pow2 by lia. change (2 ^ 3) with 8.
    split; [apply Z.div_pos; lia | apply Z.div_lt_upper_bound; lia]. }
  assert (Hrt : 0 <= rank_of t < 8).
  { unfold rank_of. rewrite Z.shiftr_div_pow2 by lia. change (2 ^ 3) with 8.
    split; [apply Z.div_pos; lia | apply Z.div_lt_upper_bound; lia]. }
  pose proof (file_of_range s ltac:(lia)) as Hfs.
  pose proof (file_of_range t ltac:(lia)) as Hft.
  apply char_of_Z_inj in Hf; [|lia|lia].
  apply char_of_Z_inj in Hr; [|lia|lia].
  rewrite (square_of_file_and_rank s), (square_of_file_and_rank t) by lia.
  lia.
Qed.

Lemma UCI_square_injective_witness :
  is_ok_square 28 = true /\ is_ok_square (make_square 4 3) = true
  /\ UCI_square 28 = UCI_square (make_square 4 3)
  /\ 28 = make_square 4 3.
Proof.
  assert (H1 : is_ok_square 28 = true) by reflexivity.
  assert (H2 : is_ok_square (make_square 4 3) = true) by reflexivity.
  assert (H3 : UCI_square 28 = UCI_square (make_square 4 3)) by reflexivity.
  split; [exact H1|]. split; [exact H2|]. split; [exact H3|].
  exact (UCI_square_injective 28 (make_square 4 3) H1 H2 H3).
Defined.

Section UCIValueFacts.
Context `{K : ValueConsts}.

Local Open Scope string_scope.

(** X29.  [UCI::value] counts mates in moves.  With the tablebase range
    positive and below the mate range
    ([0 < VALUE_TB_WIN_IN_MAX_PLY <= VALUE_TB], and [VALUE_TB] below the
    mate score at hand): a mate delivered [ply] plies
    from the root is reported as "mate (ply + 1) / 2", being mated in
    [ply] plies as "mate -(ply / 2)"; a tablebase win found at ply [p] is
    reported as "cp 20001 - p" and the loss as its negative; and the
    centipawn conversion is odd: the score seen from the other side is the
    negated score. *)
Theorem UCI_value_mate (useClassic : bool) (ply : Z) :
  (0 < VALUE_TB_WIN_IN_MAX_PLY)%Z ->
  (VALUE_TB_WIN_IN_MAX_PLY <= VALUE_TB)%Z ->
  (VALUE_TB < VALUE_MATE - ply)%Z ->
  UCI_value useClassic (mate_in ply)
    = "mate " ++ string_of_Z (Z.quot (ply + 1) 2)
  /\ UCI_value useClassic (mated_in ply)
     = "mate " ++ string_of_Z (- Z.quot ply 2)
  /\ (forall p, (0 <= p)%Z -> (VALUE_TB_WIN_IN_MAX_PLY <= VALUE_TB - p)%Z ->
        UCI_value useClassic (VALUE_TB - p)
          = "cp " ++ string_of_Z (20001 - p)
        /\ UCI_value useClassic (- (VALUE_TB - p))
           = "cp " ++ string_of_Z (-20001 + p))
  /\ (forall v, to_cp useClassic (- v) = (- to_cp useClassic v)%Z).
Proof.
  intros H0 Hwin Hmate. unfold UCI_value, mate_in, mated_in.
  split; [|split; [|split]].
  - assert (E1 : (Z.abs (VALUE_MATE - ply) <? VALUE_TB_WIN_IN_MAX_PLY)%Z
                 = false) by (apply Z.ltb_ge; lia).
    assert (E2 : (Z.abs (VALUE_MATE - ply) <=? VALUE_TB)%Z = false)
      by (apply Z.leb_gt; lia).
    assert (E3 : (VALUE_MATE - ply >? 0)%Z = true)
      by (rewrite Z.gtb_ltb; apply Z.ltb_lt; lia).
    rewrite E1, E2, E3. do 3 f_equal. lia.
  - assert (E1 : (Z.abs (- VALUE_MATE + ply) <? VALUE_TB_WIN_IN_MAX_PLY)%Z
                 = false) by (apply Z.ltb_ge; lia).
    assert (E2 : (Z.abs (- VALUE_MATE + ply) <=? VALUE_TB)%Z = false)
      by (apply Z.leb_gt; lia).
    assert (E3 : (- VALUE_MATE + ply >? 0)%Z = false)
      by (rewrite Z.gtb_ltb; apply Z.ltb_ge; lia).
    rewrite E1, E2, E3. do 2 f_equal.
    replace (- VALUE_MATE - (- VALUE_MATE + ply))%Z with (- ply)%Z by lia.
    apply Z.quot_opp_l. discriminate.
  - intros p Hp Hv. split.
    + assert (E1 : (Z.abs (VALUE_TB - p) <? VALUE_TB_WIN_IN_MAX_PLY)%Z
                   = false) by (apply Z.ltb_ge; lia).
      assert (E2 : (Z.abs (VALUE_TB - p) <=? VALUE_TB)%Z = true)
        by (apply Z.leb_le; lia).
      assert (E3 : (VALUE_TB - p >? 0)%Z = true)
        by (rewrite Z.gtb_ltb; apply Z.ltb_lt; lia).
      rewrite E1, E2, E3. cbv zeta. do 2 f_equal. lia.
    + assert (E1 : (Z.abs (- (VALUE_TB - p)) <? VALUE_TB_WIN_IN_MAX_PLY)%Z
                   = false) by (apply Z.ltb_ge; lia).
      assert (E2 : (Z.abs (- (VALUE_TB - p)) <=? VALUE_TB)%Z = true)
        by (apply Z.leb_le; lia).
      assert (E3 : (- (VALUE_TB - p) >? 0)%Z = false)
        by (rewrite Z.gtb_ltb; apply Z.ltb_ge; lia).
      rewrite E1, E2, E3. cbv zeta. do 2 f_equal. lia.
  - intros v. unfold to_cp.
    replace (100 * - v)%Z with (- (100 * v))%Z by lia.
    apply Z.quot_opp_l. now destruct useClassic.
Qed.

End UCIValueFacts.

Lemma UCI_value_mate_witness :
  0 < VALUE_TB_WIN_IN_MAX_PLY /\ VALUE_TB_WIN_IN_MAX_PLY <= VALUE_TB
  /\ VALUE_TB < VALUE_MATE - 5
  /\ UCI_value false (mate_in 5) = "mate 3"%string
  /\ UCI_value false (mated_in 5) = "mate -2"%string.
Proof.
  assert (H1 : 0 < VALUE_TB_WIN_IN_MAX_PLY) by reflexivity.
  assert (H2 : VALUE_TB_WIN_IN_MAX_PLY <= VALUE_TB) by discriminate.
  assert (H3 : VALUE_TB < VALUE_MATE - 5) by reflexivity.
  split; [exact H1|]. split; [exact H2|]. split; [exact H3|].
  destruct (UCI_value_mate false 5 H1 H2 H3) as [Ha [Hb _]].
  split; [exact Ha | exact Hb].
Defined.

(** ** Extensions *)

Section ExtensionFacts.
Context `{K : ValueConsts}.

(** X30.  Extensions (Step 15).  A multi-cut returns a score that is at
    least [beta] and at least 3 below the transposition-table score, away
    from the root and without an excluded move.  Otherwise the extension
    is between -3 and 2; [newDepth] is raised by exactly the extension; the
    node's depth stays or goes up by one (only with a double extension);
    a double extension is given only at non-PV nodes whose frame counts
    at most 11 of them, so that, the frame's count being at least the
    parent's, a path never collects more than 12 double extensions; and a
    negative extension is given only to a [ttMove] whose singular search
    did not fail low. *)
Theorem extension_step_bounds (nt : NodeType) (o : ExtensionObs)
    (singular_search : SearchCall -> Z) (beta depth newDepth : Z)
    (cutNode singularQuietLMR : bool) :
  match extension_step nt o singular_search beta depth newDepth cutNode
          singularQuietLMR with
  | Return v =>
      beta <= v <= ex_ttValue o - 3
      /\ is_rootNode nt = false
      /\ Move_to_bool (ex_excludedMove o) = false
  | Next r =>
      -3 <= er_extension r <= 2
      /\ er_newDepth r = newDepth + er_extension r
      /\ depth <= er_depth r <= depth + 1
      /\ (er_depth r <> depth -> er_extension r = 2)
      /\ (er_extension r = 2 ->
          is_PvNode nt = false /\ ex_doubleExtensions o <= 11)
      /\ (ex_prev_doubleExtensions o <= ex_doubleExtensions o ->
          ex_prev_doubleExtensions o <= 12 ->
          er_doubleExtensions r <= 12)
      /\ (er_extension r < 0 ->
          ex_move_is_ttMove o = true /\ is_rootNode nt = false)
  end.
Proof.
  unfold extension_step. cbv zeta.
  destruct (ex_ply o <? ex_rootDepth o * 2) eqn:Eply;
    [|cbn [er_extension er_depth er_newDepth er_doubleExtensions b2z Z.eqb];
      repeat split; intros; try lia; try discriminate].
  destruct (negb (is_rootNode nt) && ex_move_is_ttMove o
            && negb (Move_to_bool (ex_excludedMove o))
            && (depth >=? 4 - b2z (ex_completedDepth o >? 27)
                          + 2 * b2z (is_PvNode nt && ex_tte_is_pv o))
            && (Z.abs (ex_ttValue o) <? VALUE_TB_WIN_IN_MAX_PLY)
            && bound_and (ex_tte_bound o) BOUND_LOWER
            && (ex_tte_depth o >=? depth - 3)) eqn:Eg.
  - apply andb_true_iff in Eg as [Eg _]. apply andb_true_iff in Eg as [Eg _].
    apply andb_true_iff in Eg as [Eg _]. apply andb_true_iff in Eg as [Eg Ed].
    apply andb_true_iff in Eg as [Eg Eex]. apply andb_true_iff in Eg as [Er Et].
    apply negb_true_iff in Er, Eex. apply Z.geb_le in Ed.
    assert (Hd : 3 <= depth).
    { unfold b2z in Ed.
      destruct (ex_completedDepth o >? 27),
        (is_PvNode nt && ex_tte_is_pv o); lia. }
    assert (Hm : 3 <= Z.quot ((66 + 58 * b2z (ex_ttPv o && negb (is_PvNode nt)))
                              * depth) 64).
    { unfold b2z. destruct (ex_ttPv o && negb (is_PvNode nt));
        Z.quot_rem_to_equations; lia. }
    set (singularBeta :=
           ex_ttValue o
           - Z.quot ((66 + 58 * b2z (ex_ttPv o && negb (is_PvNode nt)))
                     * depth) 64) in *.
    destruct (singular_search _ <? singularBeta) eqn:E1.
    + destruct (negb (is_PvNode nt) && (singular_search _ <? singularBeta - 17)
                && (ex_doubleExtensions o <=? 11)) eqn:E2;
        cbn [er_extension er_depth er_newDepth er_doubleExtensions b2z Z.eqb
             Pos.eqb]; bool_arith;
        repeat split; intros; try lia; try assumption; try discriminate.
      all: unfold b2z; destruct (depth <? 15); lia.
    + destruct (singularBeta >=? beta) eqn:E3.
      * bool_arith. repeat split; try assumption; lia.
      * destruct (ex_ttValue o >=? beta) eqn:E4.
        { destruct (is_PvNode nt);
            cbn [negb er_extension er_depth er_newDepth er_doubleExtensions
                 b2z Z.eqb Z.sub Z.add Z.opp Z.pos_sub Pos.add Pos.succ
                 Pos.eqb];
            repeat split; intros; try lia; try assumption; try discriminate. }
        destruct cutNode.
        { destruct (depth <? 19);
            cbn [er_extension er_depth er_newDepth er_doubleExtensions
                 b2z Z.eqb];
            repeat split; intros; try lia; try assumption; try discriminate. }
        destruct (ex_ttValue o <=? singular_search _);
          cbn [er_extension er_depth er_newDepth er_doubleExtensions
               b2z Z.eqb];
          repeat split; intros; try lia; try assumption; try discriminate.
  - repeat case_cond;
      cbn [er_extension er_depth er_newDepth er_doubleExtensions b2z Z.eqb
           Pos.eqb];
      repeat split; intros; try lia; try discriminate.
Qed.

End ExtensionFacts.
